(** * Filipino Mahjong rules engine and heuristic agent

    A shallow embedding of the rules engine (filipinoMahjongLogic) and of the
    discard scoring of the agent (EnhancedMahjongAI), followed by the
    properties established about them.

    Conventions of the embedding:
    - a JavaScript [number] that holds a tile rank or a score is a [Z]; an
      array index or a length is a [nat].  The ranks of the tile set are the
      integers 1 to 9, on which the sums and differences that the source
      forms ([value + 1], [discardValue - 2], ...) are exact as doubles; the
      properties that rest on this arithmetic are stated for such ranks;
    - an optional field ([value?], [wind?], [lastDiscard?], ...) is an
      [option]; [undefined] is [None];
    - payouts (0.25, 0.5, 1, 1.5: dyadic, so exact as doubles) are rationals;
    - the game state is mutated in place by the source; here every operation
      takes the state and returns the new one;
    - dereferencing [undefined] throws a TypeError in the source; operations
      that can do so return a [res], whose [TypeError] carries no state since
      every such throw happens before the first mutation of the call;
    - tiles are values.  The source shares one tile object between places;
      its only writes to a tile are the two display markers.  In the states
      that the engine builds, a tile of a hand is shared with
      [lastDrawnTile] and, during a call, with the argument of [discardTile],
      and with nothing else: it leaves the hand when it is discarded or
      melded.  A marker cleared through the hand is followed to these two
      places; a place holds the object of a hand tile when it holds a tile
      equal to it ([heldIn]), the instance ids of the tile set being
      distinct and no operation copying a tile.  The recently-discarded
      marker is written once, before the tile is put down;
    - [Date.now()] identifiers and timestamps (of the game, of melds and of
      ambition records) are never read by the engine and are left out. *)

From Stdlib Require Import ZArith QArith Lia Bool.
From stdpp Require Import base list strings sorting.

(** ** Tiles *)

Inductive Suit := circles | bamboos | characters | winds | dragons | flower | season.
Inductive Wind := east | south | west | north.
Inductive Dragon := red | green | white.
Inductive Flower := plum | orchid | chrysanthemum | bamboo.
Inductive Season := spring | summer | autumn | winter.

#[global] Instance Suit_eq_dec : EqDecision Suit.
Proof. solve_decision. Defined.
#[global] Instance Wind_eq_dec : EqDecision Wind.
Proof. solve_decision. Defined.
#[global] Instance Dragon_eq_dec : EqDecision Dragon.
Proof. solve_decision. Defined.
#[global] Instance Flower_eq_dec : EqDecision Flower.
Proof. solve_decision. Defined.
#[global] Instance Season_eq_dec : EqDecision Season.
Proof. solve_decision. Defined.

(** The fields of [Tile] that the sources under study read or write.  The
    instance identifier is only ever compared for equality; it is a [nat]
    here. *)
Record Tile := mkTile {
  tile_id : nat;
  suit : Suit;
  value : option Z;
  wind : option Wind;
  dragon : option Dragon;
  tile_flower : option Flower;
  tile_season : option Season;
  isBonus : bool;
  isRecentlyDrawn : bool;
  isRecentlyDiscarded : bool
}.

#[global] Instance Tile_eq_dec : EqDecision Tile.
Proof. solve_decision. Defined.

Definition set_isRecentlyDrawn (b : bool) (t : Tile) : Tile :=
  mkTile (tile_id t) (suit t) (value t) (wind t) (dragon t) (tile_flower t)
         (tile_season t) (isBonus t) b (isRecentlyDiscarded t).

Definition set_isRecentlyDiscarded (b : bool) (t : Tile) : Tile :=
  mkTile (tile_id t) (suit t) (value t) (wind t) (dragon t) (tile_flower t)
         (tile_season t) (isBonus t) (isRecentlyDrawn t) b.

(** [heldIn l t]: the list [l] holds the object of tile [t]. *)
Definition heldIn (l : list Tile) (t : Tile) : bool := bool_decide (t ∈ l).

(** The tile [t] after [l.forEach(x => { x.isRecentlyDrawn = false })]: it
    loses its marker when [l] holds its object. *)
Definition clearedThrough (l : list Tile) (t : Tile) : Tile :=
  if heldIn l t then set_isRecentlyDrawn false t else t.

(** The well-formed tiles of each kind, with instance id [i] and both
    display markers off. *)
Definition numberTile (i : nat) (s : Suit) (v : Z) : Tile :=
  mkTile i s (Some v) None None None None false false false.
Definition windTile (i : nat) (w : Wind) : Tile :=
  mkTile i winds None (Some w) None None None false false false.
Definition dragonTile (i : nat) (d : Dragon) : Tile :=
  mkTile i dragons None None (Some d) None None false false false.
Definition flowerTile (i : nat) (f : Flower) : Tile :=
  mkTile i flower None None None (Some f) None true false false.
Definition seasonTile (i : nat) (s : Season) : Tile :=
  mkTile i season None None None None (Some s) true false false.

(** [['circles', 'bamboos', 'characters'].includes(s)] *)
Definition isNumberedSuit (s : Suit) : bool :=
  match s with circles | bamboos | characters => true | _ => false end.

(** [tile.suit === 'winds' || tile.suit === 'dragons'] *)
Definition isHonorSuit (s : Suit) : bool :=
  match s with winds | dragons => true | _ => false end.

(** Truthiness of an optional number: defined and not zero. *)
Definition truthy (v : option Z) : bool :=
  match v with Some z => negb (z =? 0)%Z | None => false end.

(** [t.value === n] for a number [n]. *)
Definition valueIs (n : Z) (t : Tile) : bool :=
  match value t with Some z => (z =? n)%Z | None => false end.

(** [t.suit === s] *)
Definition suitIs (s : Suit) (t : Tile) : bool := bool_decide (suit t = s).

(** [a.id === b.id] *)
Definition sameId (a b : Tile) : bool := (tile_id a =? tile_id b)%nat.

(** Modelled from the spec: [tilesMatch] of utils/mahjongTiles is not among the
    sources.  "Two tiles match if suit and rank are equal (instance id
    ignored)", the rank being the number of a numbered tile and the wind,
    dragon, flower or season identifier of the others. *)
Definition tilesMatch (a b : Tile) : bool :=
  bool_decide (suit a = suit b) && bool_decide (value a = value b)
  && bool_decide (wind a = wind b) && bool_decide (dragon a = dragon b)
  && bool_decide (tile_flower a = tile_flower b)
  && bool_decide (tile_season a = tile_season b).

(** The grouping key [`${tile.suit}-${tile.value}-${tile.wind}-${tile.dragon}`].
    The rendering is injective on the four components (no suit, wind or dragon
    name contains a dash), so the key is modelled as the tuple itself. *)
Definition TileKey : Type := Suit * option Z * option Wind * option Dragon.

Definition tileKey (t : Tile) : TileKey := (suit t, value t, wind t, dragon t).

Definition keyIs (k : TileKey) (t : Tile) : bool := bool_decide (tileKey t = k).

(** ** Array helpers *)

(** [Array.prototype.findIndex]; [None] stands for -1. *)
Fixpoint findIndex {A : Type} (f : A -> bool) (l : list A) : option nat :=
  match l with
  | [] => None
  | x :: r => if f x then Some 0 else S <$> findIndex f r
  end.

(** [const i = l.findIndex(t => t.id === x.id); if (i !== -1) l.splice(i, 1)] *)
Definition removeById (x : Tile) (l : list Tile) : list Tile :=
  match findIndex (fun t => sameId t x) l with
  | Some i => delete i l
  | None => l
  end.

(** [xs.forEach(x => removeById x l)] *)
Definition removeAllById (xs : list Tile) (l : list Tile) : list Tile :=
  foldl (fun acc x => removeById x acc) l xs.

(** [l.filter(t => !xs.some(x => x.id === t.id))] *)
Definition withoutIds (xs : list Tile) (l : list Tile) : list Tile :=
  List.filter (fun t => negb (existsb (fun x => sameId x t) xs)) l.

(** A stable insertion sort, for [tiles.sort((a, b) => a.value! - b.value!)]:
    [lt a b] says that the comparator is negative on [(a, b)]; an element is
    inserted in front of the first one that is not smaller than it. *)
Fixpoint insertBy {A : Type} (before : A -> A -> bool) (x : A) (l : list A) : list A :=
  match l with
  | [] => [x]
  | y :: r => if before x y then x :: y :: r else y :: insertBy before x r
  end.

Definition sortBy {A : Type} (lt : A -> A -> bool) (l : list A) : list A :=
  foldr (fun x acc => insertBy (fun a b => negb (lt b a)) x acc) [] l.

Definition valueLt (a b : Tile) : bool :=
  match value a, value b with
  | Some x, Some y => (x <? y)%Z
  | _, _ => false
  end.

(** [counts.sort((a, b) => b - a)] on numbers: the descending arrangement. *)
Definition sortDesc (l : list nat) : list nat := merge_sort (flip le) l.

(** [values.sort((a, b) => a - b)] on numbers: the ascending arrangement. *)
Definition sortAsc (l : list Z) : list Z := merge_sort Z.le l.

(** ** Results of operations that may throw *)

(** [Ok] is a normal return, [TypeError] the exception, and [OutOfFuel] is
    returned by the model of a [while] loop when its iteration bound is
    exhausted (shown below never to happen for the bounds chosen). *)
Inductive res (A : Type) : Type :=
| Ok (a : A)
| TypeError
| OutOfFuel.
Arguments Ok {A} a.
Arguments TypeError {A}.
Arguments OutOfFuel {A}.

#[global] Instance res_ret : MRet res := fun A a => Ok a.
#[global] Instance res_bind : MBind res := fun A B f m =>
  match m with Ok a => f a | TypeError => TypeError | OutOfFuel => OutOfFuel end.

(** ** Melds, ambitions, players, game state *)

Inductive MeldType := chow | pung | kong.

#[global] Instance MeldType_eq_dec : EqDecision MeldType.
Proof. solve_decision. Defined.

Record Meld := mkMeld {
  meld_type : MeldType;
  meld_tiles : list Tile;
  isConcealed : bool;
  claimedFrom : option nat
}.

Inductive AmbitionType :=
| kang | secret | sagasa | thirteen_flowers | no_flowers_start
| todas | escalera | siete_pares | no_flowers_end | all_up
| all_down | all_chow | all_pung | single | bisaklat.

#[global] Instance AmbitionType_eq_dec : EqDecision AmbitionType.
Proof. solve_decision. Defined.

Record AmbitionRecord := mkAmbition {
  amb_playerId : string;
  amb_type : AmbitionType;
  amb_payout : Q;
  isInstant : bool
}.

Record WinCondition := mkWin {
  isValid : bool;
  handType : string;
  ambitions : list AmbitionType;
  totalPayout : Q;
  breakdown : list (string * Q)
}.

Record Player := mkPlayer {
  player_id : string;
  player_name : string;
  hand : list Tile;
  melds : list Meld;
  flowers : list Tile;
  discards : list Tile;
  isDealer : bool
}.

Inductive Phase := draw | discard.
Inductive Status := playing | finished.

#[global] Instance Phase_eq_dec : EqDecision Phase.
Proof. solve_decision. Defined.

Record GameState := mkGame {
  players : list Player;
  currentPlayer : nat;
  dealer : nat;
  wall : list Tile;
  flowerWall : list Tile;
  discardPile : list Tile;
  lastDiscard : option Tile;
  lastDrawnTile : option Tile;
  round : nat;
  round_wind : Wind;
  status : Status;
  winner : option nat;
  scores : list Z;
  game_ambitions : list AmbitionRecord;
  phase : Phase;
  hasDrawnThisTurn : bool
}.

Inductive ClaimType := claim_chow | claim_pung | claim_kong | claim_win.

Record ClaimAction := mkClaim {
  claim_type : ClaimType;
  claim_playerId : string
}.

(** Field updates of the records (the source assigns the fields in place). *)

Definition set_hand (h : list Tile) (p : Player) : Player :=
  mkPlayer (player_id p) (player_name p) h (melds p) (flowers p) (discards p) (isDealer p).
Definition set_melds (m : list Meld) (p : Player) : Player :=
  mkPlayer (player_id p) (player_name p) (hand p) m (flowers p) (discards p) (isDealer p).
Definition set_flowers (f : list Tile) (p : Player) : Player :=
  mkPlayer (player_id p) (player_name p) (hand p) (melds p) f (discards p) (isDealer p).
Definition set_discards (d : list Tile) (p : Player) : Player :=
  mkPlayer (player_id p) (player_name p) (hand p) (melds p) (flowers p) d (isDealer p).

Definition set_players (ps : list Player) (g : GameState) : GameState :=
  mkGame ps (currentPlayer g) (dealer g) (wall g) (flowerWall g) (discardPile g)
    (lastDiscard g) (lastDrawnTile g) (round g) (round_wind g) (status g) (winner g)
    (scores g) (game_ambitions g) (phase g) (hasDrawnThisTurn g).
Definition set_currentPlayer (c : nat) (g : GameState) : GameState :=
  mkGame (players g) c (dealer g) (wall g) (flowerWall g) (discardPile g)
    (lastDiscard g) (lastDrawnTile g) (round g) (round_wind g) (status g) (winner g)
    (scores g) (game_ambitions g) (phase g) (hasDrawnThisTurn g).
Definition set_wall (w : list Tile) (g : GameState) : GameState :=
  mkGame (players g) (currentPlayer g) (dealer g) w (flowerWall g) (discardPile g)
    (lastDiscard g) (lastDrawnTile g) (round g) (round_wind g) (status g) (winner g)
    (scores g) (game_ambitions g) (phase g) (hasDrawnThisTurn g).
Definition set_flowerWall (w : list Tile) (g : GameState) : GameState :=
  mkGame (players g) (currentPlayer g) (dealer g) (wall g) w (discardPile g)
    (lastDiscard g) (lastDrawnTile g) (round g) (round_wind g) (status g) (winner g)
    (scores g) (game_ambitions g) (phase g) (hasDrawnThisTurn g).
Definition set_discardPile (d : list Tile) (g : GameState) : GameState :=
  mkGame (players g) (currentPlayer g) (dealer g) (wall g) (flowerWall g) d
    (lastDiscard g) (lastDrawnTile g) (round g) (round_wind g) (status g) (winner g)
    (scores g) (game_ambitions g) (phase g) (hasDrawnThisTurn g).
Definition set_lastDiscard (d : option Tile) (g : GameState) : GameState :=
  mkGame (players g) (currentPlayer g) (dealer g) (wall g) (flowerWall g) (discardPile g)
    d (lastDrawnTile g) (round g) (round_wind g) (status g) (winner g)
    (scores g) (game_ambitions g) (phase g) (hasDrawnThisTurn g).
Definition set_lastDrawnTile (d : option Tile) (g : GameState) : GameState :=
  mkGame (players g) (currentPlayer g) (dealer g) (wall g) (flowerWall g) (discardPile g)
    (lastDiscard g) d (round g) (round_wind g) (status g) (winner g)
    (scores g) (game_ambitions g) (phase g) (hasDrawnThisTurn g).
Definition set_status (s : Status) (g : GameState) : GameState :=
  mkGame (players g) (currentPlayer g) (dealer g) (wall g) (flowerWall g) (discardPile g)
    (lastDiscard g) (lastDrawnTile g) (round g) (round_wind g) s (winner g)
    (scores g) (game_ambitions g) (phase g) (hasDrawnThisTurn g).
Definition set_winner (w : option nat) (g : GameState) : GameState :=
  mkGame (players g) (currentPlayer g) (dealer g) (wall g) (flowerWall g) (discardPile g)
    (lastDiscard g) (lastDrawnTile g) (round g) (round_wind g) (status g) w
    (scores g) (game_ambitions g) (phase g) (hasDrawnThisTurn g).
Definition set_ambitions (a : list AmbitionRecord) (g : GameState) : GameState :=
  mkGame (players g) (currentPlayer g) (dealer g) (wall g) (flowerWall g) (discardPile g)
    (lastDiscard g) (lastDrawnTile g) (round g) (round_wind g) (status g) (winner g)
    (scores g) a (phase g) (hasDrawnThisTurn g).
Definition set_phase (p : Phase) (g : GameState) : GameState :=
  mkGame (players g) (currentPlayer g) (dealer g) (wall g) (flowerWall g) (discardPile g)
    (lastDiscard g) (lastDrawnTile g) (round g) (round_wind g) (status g) (winner g)
    (scores g) (game_ambitions g) p (hasDrawnThisTurn g).
Definition set_hasDrawnThisTurn (b : bool) (g : GameState) : GameState :=
  mkGame (players g) (currentPlayer g) (dealer g) (wall g) (flowerWall g) (discardPile g)
    (lastDiscard g) (lastDrawnTile g) (round g) (round_wind g) (status g) (winner g)
    (scores g) (game_ambitions g) (phase g) b.

(** ** Win and ambition detector *)

(** [Map<string, number>] as an association list in insertion order;
    [m.set(key, (m.get(key) || 0) + 1)]. *)
Fixpoint bump (k : TileKey) (m : list (TileKey * nat)) : list (TileKey * nat) :=
  match m with
  | [] => [(k, 1)]
  | (k', n) :: r =>
      if bool_decide (k' = k) then (k', S n) :: r else (k', n) :: bump k r
  end.

Definition tileCounts (hand : list Tile) : list (TileKey * nat) :=
  foldl (fun m t => bump (tileKey t) m) [] hand.

(** [Map<string, { tiles, count }>]; [count] is always the length of [tiles]. *)
Fixpoint addToGroup (t : Tile) (m : list (TileKey * list Tile)) : list (TileKey * list Tile) :=
  match m with
  | [] => [(tileKey t, [t])]
  | (k, ts) :: r =>
      if bool_decide (k = tileKey t) then (k, ts ++ [t]) :: r else (k, ts) :: addToGroup t r
  end.

Definition tileGroups (tiles : list Tile) : list (TileKey * list Tile) :=
  foldl (fun m t => addToGroup t m) [] tiles.

(** Check if 3 tiles can form a sequence. *)
Definition canFormSequenceFromTiles (tiles : list Tile) : bool :=
  match tiles with
  | [a; _; _] =>
      if negb (isNumberedSuit (suit a)) then false
      else if negb (forallb (fun t => suitIs (suit a) t && truthy (value t)) tiles) then false
      else match sortAsc (omap value tiles) with
           | [x; y; z] => (y =? x + 1)%Z && (z =? y + 1)%Z
           | _ => false
           end
  | _ => false
  end.

(** The loop over the groups of [checkSevenPairsWithTrio]; [None] is one of its
    early [return false]. *)
Fixpoint scanGroups (entries : list (TileKey * list Tile)) (hasTrioOrSequence : bool)
    (pairs : list (list Tile)) (remaining : list Tile)
    : option (bool * list (list Tile) * list Tile) :=
  match entries with
  | [] => Some (hasTrioOrSequence, pairs, remaining)
  | (_, ts) :: r =>
      match length ts with
      | 2 => scanGroups r hasTrioOrSequence (pairs ++ [ts]) remaining
      | 3 => if hasTrioOrSequence then None else scanGroups r true pairs remaining
      | 1 => scanGroups r hasTrioOrSequence pairs (remaining ++ ts)
      | 4 => scanGroups r hasTrioOrSequence (pairs ++ [take 2 ts; drop 2 ts]) remaining
      | _ => None
      end
  end.

(** Check for 7 pairs + 1 trio (either sequence or triplet). *)
Definition checkSevenPairsWithTrio (hand : list Tile) : bool :=
  match scanGroups (tileGroups hand) false [] [] with
  | None => false
  | Some (hasTrioOrSequence, pairs, remaining) =>
      let hasTrioOrSequence :=
        if negb hasTrioOrSequence && (length remaining =? 3)%nat
        then canFormSequenceFromTiles remaining else hasTrioOrSequence in
      (length pairs =? 7)%nat && hasTrioOrSequence
  end.

(** Check for Siete Pares (7 pairs + 1 trio). *)
Definition isSietePares (hand : list Tile) : bool :=
  if negb (length hand =? 17)%nat then false
  else
    let counts := sortDesc (map snd (tileCounts hand)) in
    let hasTripleAndPairs :=
      (length counts =? 8)%nat && bool_decide (head counts = Some 3%nat)
      && forallb (fun c => (c =? 2)%nat) (drop 1 counts) in
    if hasTripleAndPairs then true else checkSevenPairsWithTrio hand.

(** Find a triplet starting from a specific tile.  The only caller passes an
    index inside the array. *)
Definition findTriplet (tiles : list Tile) (startIndex : nat) : list Tile :=
  match tiles !! startIndex with
  | None => []
  | Some baseTile =>
      let matchingTiles := List.filter (fun t => tilesMatch t baseTile) tiles in
      if (3 <=? length matchingTiles)%nat then take 3 matchingTiles else []
  end.

(** Find a sequence starting from a specific tile.  [value + 1] and
    [value + 2] are integer sums: exact for the ranks of the tile set. *)
Definition findSequence (tiles : list Tile) (startIndex : nat) : list Tile :=
  match tiles !! startIndex with
  | None => []
  | Some baseTile =>
      match value baseTile with
      | None => []
      | Some v =>
          if negb (isNumberedSuit (suit baseTile)) || negb (truthy (value baseTile)) then []
          else
            match List.find (fun t => suitIs (suit baseTile) t && valueIs (v + 1) t) tiles,
                  List.find (fun t => suitIs (suit baseTile) t && valueIs (v + 2) t) tiles with
            | Some nextTile, Some nextNextTile => [baseTile; nextTile; nextNextTile]
            | _, _ => []
            end
      end
  end.

(** Recursively find the required number of trios and exactly one pair.
    [Some (trios, pair)] is [{ isValid: true, trios, pair }] and [None] is
    [{ isValid: false, ... }].  Every recursive call of the source is on an
    array that lost the tiles of a trio, so the recursion is bounded by the
    number of tiles; [fuel] is that bound. *)
Fixpoint findTriosAndPair_rec (fuel : nat) (tiles : list Tile) (neededTrios : Z)
    : option (list (list Tile) * list Tile) :=
  if (neededTrios =? 0)%Z then
    match tiles with
    | [a; b] => if tilesMatch a b then Some ([], tiles) else None
    | _ => None
    end
  else if (length tiles <? 3)%nat then None
  else
    match fuel with
    | O => None
    | S fuel' =>
        let try (trio : list Tile) :=
          if (length trio =? 3)%nat then
            match findTriosAndPair_rec fuel' (withoutIds trio tiles) (neededTrios - 1) with
            | Some (trios, thePair) => Some (trio :: trios, thePair)
            | None => None
            end
          else None in
        (fix loop (indices : list nat) : option (list (list Tile) * list Tile) :=
           match indices with
           | [] => None
           | i :: rest =>
               match try (findTriplet tiles i) with
               | Some r => Some r
               | None =>
                   match try (findSequence tiles i) with
                   | Some r => Some r
                   | None => loop rest
                   end
               end
           end) (seq 0 (length tiles - 2))
    end.

Definition findTriosAndPair (tiles : list Tile) (neededTrios : Z)
    : option (list (list Tile) * list Tile) :=
  findTriosAndPair_rec (length tiles) tiles neededTrios.

(** Find a valid winning combination of 5 trios + 1 pair. *)
Definition findWinningCombination (tiles : list Tile) (existingMelds : list Meld)
    : option (list (list Tile) * list Tile) :=
  let neededTrios := (5 - Z.of_nat (length existingMelds))%Z in
  findTriosAndPair tiles neededTrios.

(** Check standard winning hand structure: 5 trios + 1 pair. *)
Definition checkStandardWin (hand : list Tile) (melds : list Meld) : bool * string :=
  match findWinningCombination hand melds with
  | Some _ => (true, "Standard Win"%string)
  | None => (false, ""%string)
  end.

(** [xs.sort((a, b) => a - b)] on an array of possibly undefined numbers: the
    numbers in ascending order, then the undefined entries. *)
Definition sortNumbers (xs : list (option Z)) : list (option Z) :=
  (Some <$> sortAsc (omap (fun x => x) xs))
  ++ List.filter (fun x => negb (bool_decide (is_Some x))) xs.

(** [Map<string, number[][]>] keyed by suit, in insertion order. *)
Fixpoint pushSuitGroup (s : Suit) (vs : list (option Z))
    (m : list (Suit * list (list (option Z)))) : list (Suit * list (list (option Z))) :=
  match m with
  | [] => [(s, [vs])]
  | (s', g) :: r =>
      if bool_decide (s' = s) then (s', g ++ [vs]) :: r else (s', g) :: pushSuitGroup s vs r
  end.

(** The [chows.forEach] of [isEscalera]; [chow.tiles[0].suit] throws on a chow
    without tiles. *)
Fixpoint suitGroupsOf (chows : list Meld) (m : list (Suit * list (list (option Z))))
    : res (list (Suit * list (list (option Z)))) :=
  match chows with
  | [] => Ok m
  | c :: r =>
      match meld_tiles c with
      | [] => TypeError
      | t0 :: _ =>
          suitGroupsOf r (pushSuitGroup (suit t0) (sortNumbers (value <$> meld_tiles c)) m)
      end
  end.

(** Check for Escalera (1-9 straight in one suit).  The comparison of the
    JSON renderings holds exactly when the sorted array is the nine numbers. *)
Definition isEscalera (melds : list Meld) : res bool :=
  let chows := List.filter (fun m => bool_decide (meld_type m = chow)) melds in
  if (length chows <? 3)%nat then Ok false
  else
    suitGroups ← suitGroupsOf chows [];
    Ok (existsb (fun '(_, sequences) =>
          bool_decide (sortNumbers (concat sequences)
                       = Some <$> [1; 2; 3; 4; 5; 6; 7; 8; 9]%Z))
        suitGroups).

Definition invalidWin : WinCondition := mkWin false "" [] 0%Q [].

(** Check if hand is a winning hand (17 tiles total). *)
Definition isWinningHand (hand : list Tile) (melds : list Meld) (flowers : list Tile)
    : res WinCondition :=
  let totalTiles := foldl (fun sum meld => sum + length (meld_tiles meld)) 0 melds in
  let totalTiles := length hand + totalTiles in
  if negb (totalTiles =? 17)%nat then Ok invalidWin
  else if isSietePares hand then
    Ok (mkWin true "Siete Pares" [todas; siete_pares] 1.5%Q
          [("Basic Win"%string, 1%Q); ("Siete Pares"%string, 0.5%Q)])
  else
    let standardWin := checkStandardWin hand melds in
    if standardWin.1 then
      esc ← isEscalera melds;
      let w0 := ([todas], 1%Q, [("Basic Win"%string, 1%Q)]) in
      let w1 := if esc : bool
                then (w0.1.1 ++ [escalera], (w0.1.2 + 0.5)%Q, w0.2 ++ [("Escalera"%string, 0.5%Q)])
                else w0 in
      let w2 := if (length flowers =? 0)%nat
                then (w1.1.1 ++ [no_flowers_end], (w1.1.2 + 0.25)%Q,
                      w1.2 ++ [("No Flowers"%string, 0.25%Q)])
                else w1 in
      let concealedMelds := length (List.filter isConcealed melds) in
      let w3 := if (concealedMelds =? length melds)%nat && (0 <? length melds)%nat
                then (w2.1.1 ++ [all_up], (w2.1.2 + 0.25)%Q, w2.2 ++ [("All Up"%string, 0.25%Q)])
                else w2 in
      Ok (mkWin true standardWin.2 w3.1.1 w3.1.2 w3.2)
    else Ok invalidWin.

(** ** Game state and turn engine *)

(** The [while (gameState.wall.length > 0)] loop of [drawTile]: bonus tiles go
    to the flowers of the player until a regular tile is found. *)
Fixpoint drawLoop (w : list Tile) (player : Player) : list Tile * Player * option Tile :=
  match w with
  | [] => ([], player, None)
  | tile :: w' =>
      if isBonus tile then drawLoop w' (set_flowers (flowers player ++ [tile]) player)
      else
        let tile := set_isRecentlyDrawn true tile in
        (w', set_hand (hand player ++ [tile]) player, Some tile)
  end.

(** Draw a tile from the wall.  The markers of the hand are cleared before
    the loop; when no regular tile is found, [lastDrawnTile] is not assigned
    and still refers to the tile of an earlier draw, which has lost its
    marker with the hand if the hand holds it. *)
Definition drawTile (gameState : GameState) (playerIndex : nat)
    : res (GameState * option Tile) :=
  if (length (wall gameState) =? 0)%nat then Ok (gameState, None)
  else
    match players gameState !! playerIndex with
    | None => TypeError
    | Some player =>
        let lastDrawn := clearedThrough (hand player) <$> lastDrawnTile gameState in
        let player := set_hand (set_isRecentlyDrawn false <$> hand player) player in
        let '(w, player, drawnTile) := drawLoop (wall gameState) player in
        let gameState :=
          set_wall w (set_players (<[playerIndex := player]> (players gameState)) gameState) in
        match drawnTile with
        | Some tile =>
            Ok (set_hasDrawnThisTurn true
                  (set_phase discard (set_lastDrawnTile (Some tile) gameState)),
                Some tile)
        | None => Ok (set_lastDrawnTile lastDrawn gameState, None)
        end
    end.

(** Discard a tile.  The tile appended to the discards is the argument as
    the source has left it by then: its recently-discarded marker is set, and
    its recently-drawn marker has been cleared with those of the hand when
    the hand holds it, which is what the callers of the repository pass. *)
Definition discardTile (gameState : GameState) (playerIndex : nat) (tile : Tile)
    : res GameState :=
  match players gameState !! playerIndex with
  | None => TypeError
  | Some player =>
      match findIndex (fun t => sameId t tile) (hand player) with
      | None => Ok gameState
      | Some tileIndex =>
          let tile := clearedThrough (hand player) tile in
          let cleared := set_isRecentlyDrawn false <$> hand player in
          let tile := set_isRecentlyDiscarded true tile in
          let player :=
            set_discards (discards player ++ [tile])
              (set_hand (delete tileIndex cleared) player) in
          Ok (set_hasDrawnThisTurn false
               (set_phase draw
                 (set_currentPlayer ((currentPlayer gameState + 1) mod 4)
                   (set_lastDrawnTile None
                     (set_lastDiscard (Some tile)
                       (set_discardPile (discardPile gameState ++ [tile])
                         (set_players (<[playerIndex := player]> (players gameState))
                            gameState)))))))
      end
  end.

(** ** Claim resolution *)

(** Check if player can form a sequence with the discard.  With an undefined
    [discard.value] every comparison of the three patterns is false.  The
    neighbouring ranks [discardValue + 1], [discardValue - 2], ... are integer
    sums and differences: exact for the ranks of the tile set. *)
Definition canFormSequence (hand : list Tile) (discard : Tile) : bool :=
  if negb (isNumberedSuit (suit discard)) then false
  else
    let suitTiles :=
      List.filter (fun t => suitIs (suit discard) t && truthy (value t)) hand in
    match value discard with
    | None => false
    | Some discardValue =>
        if (discardValue <=? 7)%Z
           && (existsb (valueIs (discardValue + 1)) suitTiles
               && existsb (valueIs (discardValue + 2)) suitTiles) then true
        else if ((2 <=? discardValue)%Z && (discardValue <=? 8)%Z)
           && (existsb (valueIs (discardValue - 1)) suitTiles
               && existsb (valueIs (discardValue + 1)) suitTiles) then true
        else if (3 <=? discardValue)%Z
           && (existsb (valueIs (discardValue - 1)) suitTiles
               && existsb (valueIs (discardValue - 2)) suitTiles) then true
        else false
    end.

(** Form a chow from hand tiles and discard.  The neighbouring ranks are
    computed as in [canFormSequence]. *)
Definition formChow (hand : list Tile) (discard : Tile) : option (list Tile) :=
  if negb (isNumberedSuit (suit discard)) then None
  else
    let suitTiles :=
      List.filter (fun t => suitIs (suit discard) t && truthy (value t)) hand in
    let pattern (ok : bool) (mk : Tile -> Tile -> list Tile) (v1 v2 : Z) :=
      if ok then
        match List.find (valueIs v1) suitTiles, List.find (valueIs v2) suitTiles with
        | Some tile1, Some tile2 => Some (sortBy valueLt (mk tile1 tile2))
        | _, _ => None
        end
      else None in
    match value discard with
    | None => None
    | Some discardValue =>
        match pattern (discardValue <=? 7)%Z (fun t1 t2 => [discard; t1; t2])
                (discardValue + 1)%Z (discardValue + 2)%Z with
        | Some c => Some c
        | None =>
        match pattern ((2 <=? discardValue)%Z && (discardValue <=? 8)%Z)
                (fun t1 t2 => [t1; discard; t2])
                (discardValue - 1)%Z (discardValue + 1)%Z with
        | Some c => Some c
        | None =>
            pattern (3 <=? discardValue)%Z (fun t1 t2 => [t1; t2; discard])
              (discardValue - 2)%Z (discardValue - 1)%Z
        end
        end
    end.

(** [gameState.players.find(p => p.id === playerId)] *)
Definition findPlayer (gameState : GameState) (playerId : string) : option Player :=
  List.find (fun p => String.eqb (player_id p) playerId) (players gameState).

(** Check if a claim is valid. *)
Definition isValidClaim (gameState : GameState) (claim : ClaimAction) : res bool :=
  match findPlayer gameState (claim_playerId claim), lastDiscard gameState with
  | Some player, Some lastDiscard =>
      match claim_type claim with
      | claim_chow => Ok (canFormSequence (hand player) lastDiscard)
      | claim_pung =>
          Ok (2 <=? length (List.filter (fun t => tilesMatch t lastDiscard) (hand player)))%nat
      | claim_kong =>
          Ok (3 <=? length (List.filter (fun t => tilesMatch t lastDiscard) (hand player)))%nat
      | claim_win =>
          w ← isWinningHand (hand player ++ [lastDiscard]) (melds player) (flowers player);
          Ok (isValid w)
      end
  | _, _ => Ok false
  end.

(** Get payout amount for ambition. *)
Definition getAmbitionPayout (ambition : AmbitionType) : Q :=
  match ambition with
  | kang => 0.25 | secret => 0.5 | sagasa => 0.5 | thirteen_flowers => 0.25
  | no_flowers_start => 0.25 | todas => 1 | escalera => 0.5 | siete_pares => 0.5
  | no_flowers_end => 0.25 | all_up => 0.25 | all_down => 0.25 | all_chow => 0.25
  | all_pung => 0.25 | single => 0.25 | bisaklat => 1
  end%Q.

(** Record an ambition. *)
Definition recordAmbition (gameState : GameState) (playerId : string)
    (type : AmbitionType) (payout : Q) : GameState :=
  set_ambitions
    (game_ambitions gameState ++
     [mkAmbition playerId type payout
        (bool_decide (type ∈ [kang; secret; sagasa; thirteen_flowers; no_flowers_start]))])
    gameState.

(** [const i = pile.findIndex(t => t.id === d.id); if (i !== -1) pile.splice(i, 1)]
    followed by the removal of the hand tiles and the new exposed meld: the
    part that the chow, pung and kong cases share. *)
Definition takeDiscardIntoMeld (gameState : GameState) (playerIndex : nat) (player : Player)
    (lastDiscard : Tile) (fromHand : list Tile) (type : MeldType) (meldTiles : list Tile)
    : GameState :=
  let pile := removeById lastDiscard (discardPile gameState) in
  let player := set_hand (removeAllById fromHand (hand player)) player in
  let player :=
    set_melds (melds player ++
               [mkMeld type meldTiles false (Some (currentPlayer gameState))]) player in
  set_players (<[playerIndex := player]> (players gameState))
    (set_discardPile pile gameState).

(** The common tail of the chow, pung and kong cases. *)
Definition claimantToDiscard (playerIndex : nat) (gameState : GameState) : GameState :=
  set_hasDrawnThisTurn true
    (set_lastDiscard None (set_phase discard (set_currentPlayer playerIndex gameState))).

(** Process a claim. *)
Definition processClaim (gameState : GameState) (claim : ClaimAction)
    : res (GameState * bool) :=
  valid ← isValidClaim gameState claim;
  if negb valid then Ok (gameState, false)
  else
    match findIndex (fun p => String.eqb (player_id p) (claim_playerId claim))
            (players gameState) with
    | None => TypeError
    | Some playerIndex =>
    match players gameState !! playerIndex, lastDiscard gameState with
    | Some player, Some lastDiscard =>
        match claim_type claim with
        | claim_chow =>
            match formChow (hand player) lastDiscard with
            | Some chowTiles =>
                let handTilesToRemove :=
                  List.filter (fun tile => negb (sameId tile lastDiscard)) chowTiles in
                let gameState :=
                  takeDiscardIntoMeld gameState playerIndex player lastDiscard
                    handTilesToRemove chow chowTiles in
                Ok (claimantToDiscard playerIndex gameState, true)
            | None => Ok (gameState, false)
            end
        | claim_pung =>
            let pungTiles :=
              take 2 (List.filter (fun t => tilesMatch t lastDiscard) (hand player)) in
            if (length pungTiles =? 2)%nat then
              let gameState :=
                takeDiscardIntoMeld gameState playerIndex player lastDiscard
                  pungTiles pung (lastDiscard :: pungTiles) in
              let gameState := recordAmbition gameState (claim_playerId claim) kang 0.25%Q in
              Ok (claimantToDiscard playerIndex gameState, true)
            else Ok (gameState, false)
        | claim_kong =>
            let kongTiles :=
              take 3 (List.filter (fun t => tilesMatch t lastDiscard) (hand player)) in
            if (length kongTiles =? 3)%nat then
              let gameState :=
                takeDiscardIntoMeld gameState playerIndex player lastDiscard
                  kongTiles kong (lastDiscard :: kongTiles) in
              '(gameState, _) ← drawTile gameState playerIndex;
              let gameState := recordAmbition gameState (claim_playerId claim) kang 0.25%Q in
              Ok (claimantToDiscard playerIndex gameState, true)
            else Ok (gameState, false)
        | claim_win =>
            winCondition ←
              isWinningHand (hand player ++ [lastDiscard]) (melds player) (flowers player);
            if isValid winCondition then
              let gameState := set_winner (Some playerIndex) (set_status finished gameState) in
              let gameState :=
                foldl (fun gs ambition =>
                         recordAmbition gs (claim_playerId claim) ambition
                           (getAmbitionPayout ambition))
                  gameState (ambitions winCondition) in
              Ok (gameState, true)
            else Ok (gameState, false)
        end
    | _, _ => TypeError
    end
    end.

(** ** Setup *)

(** Modelled from the spec: [createTileSet] of utils/mahjongTiles is not among
    the sources.  144 tiles with unique instance ids: four copies of the ranks
    1 to 9 of the three numbered suits, four copies of the four winds and of
    the three dragons, and one copy of each of the four flowers and four
    seasons, the last eight being the bonus tiles. *)
Definition createTileSet : list Tile :=
  imap (fun i mk => mk i)
    ((s ← [circles; bamboos; characters]; v ← [1; 2; 3; 4; 5; 6; 7; 8; 9]%Z;
      _ ← seq 0 4; [fun i => numberTile i s v])
     ++ (w ← [east; south; west; north]; _ ← seq 0 4; [fun i => windTile i w])
     ++ (d ← [red; green; white]; _ ← seq 0 4; [fun i => dragonTile i d])
     ++ (f ← [plum; orchid; chrysanthemum; bamboo]; [fun i => flowerTile i f])
     ++ (s ← [spring; summer; autumn; winter]; [fun i => seasonTile i s])).

(** The random choices of one call of [initializeGame]: the results of the
    three calls of [shuffleTiles] (not among the sources; "a uniform random
    permutation") and of [Math.floor(Math.random() * 4)]. *)
Record Randomness := mkRandomness {
  shuffleAll : list Tile -> list Tile;
  shuffleRegular : list Tile -> list Tile;
  shuffleBonus : list Tile -> list Tile;
  randomDealer : nat
}.

Definition fairRandomness (rnd : Randomness) : Prop :=
  (forall l, shuffleAll rnd l ≡ₚ l) /\ (forall l, shuffleRegular rnd l ≡ₚ l)
  /\ (forall l, shuffleBonus rnd l ≡ₚ l) /\ randomDealer rnd < 4.

(** The player indices of the 64 steps of the dealing loops: 4 rounds, in each
    round 4 tiles to each of the 4 players. *)
Definition dealOrder : list nat :=
  _ ← seq 0 4; playerIndex ← seq 0 4; _ ← seq 0 4; [playerIndex].

(** The dealing loops; the second component is [wall.slice(tileIndex)]. *)
Fixpoint deal (order : list nat) (ps : list Player) (w : list Tile)
    : res (list Player * list Tile) :=
  match order with
  | [] => Ok (ps, w)
  | playerIndex :: rest =>
      match w with
      | [] => deal rest ps []
      | tile :: w' =>
          match ps !! playerIndex with
          | None => TypeError
          | Some p => deal rest (<[playerIndex := set_hand (hand p ++ [tile]) p]> ps) w'
          end
      end
  end.

(** One run of the [for] loop of [ensureCorrectHandSize], from the last index
    down to 0: [revHand] holds the tiles still to visit, [kept] the visited
    ones that stay, [pushed] the replacements appended to the hand. *)
Fixpoint sweepBonus (revHand kept pushed fl w : list Tile) (hasFlowers : bool)
    : list Tile * list Tile * list Tile * bool :=
  match revHand with
  | [] => (kept ++ pushed, fl, w, hasFlowers)
  | tile :: r =>
      if isBonus tile then
        match w with
        | replacement :: w' =>
            sweepBonus r kept (pushed ++ [replacement]) (fl ++ [tile]) w' true
        | [] => sweepBonus r kept pushed (fl ++ [tile]) [] true
        end
      else sweepBonus r (tile :: kept) pushed fl w hasFlowers
  end.

(** [while (hasFlowers) { ... }] *)
Fixpoint exposeLoop (fuel : nat) (h fl w : list Tile)
    : res (list Tile * list Tile * list Tile) :=
  match fuel with
  | O => OutOfFuel
  | S fuel' =>
      let '(h', fl', w', hasFlowers) := sweepBonus (rev h) [] [] fl w false in
      if hasFlowers then exposeLoop fuel' h' fl' w' else Ok (h', fl', w')
  end.

(** [while (player.hand.length < 16 && gameState.wall.length > 0) { ... }] *)
Fixpoint fillHand (h fl w : list Tile) : list Tile * list Tile * list Tile :=
  match w with
  | [] => (h, fl, [])
  | tile :: w' =>
      if (length h <? 16)%nat then
        if isBonus tile then fillHand h (fl ++ [tile]) w' else fillHand (h ++ [tile]) fl w'
      else (h, fl, w)
  end.

(** Ensure player has exactly 16 non-flower tiles in hand.  Each run of the
    outer loop that asks for another one has moved a tile to the flowers, so
    the number of tiles of the hand and wall bounds the number of runs. *)
Definition ensureCorrectHandSize (gameState : GameState) (playerIndex : nat)
    : res GameState :=
  match players gameState !! playerIndex with
  | None => TypeError
  | Some player =>
      '(h, fl, w) ← exposeLoop (S (length (hand player) + length (wall gameState)))
                      (hand player) (flowers player) (wall gameState);
      let '(h, fl, w) := fillHand h fl w in
      Ok (set_wall w
            (set_players (<[playerIndex := set_flowers fl (set_hand h player)]>
                            (players gameState)) gameState))
  end.

(** [gameState.players.forEach((player, index) => ensureCorrectHandSize(gameState, index))] *)
Fixpoint ensureAll (indices : list nat) (gameState : GameState) : res GameState :=
  match indices with
  | [] => Ok gameState
  | i :: r => gameState ← ensureCorrectHandSize gameState i; ensureAll r gameState
  end.

(** Initialize a new Filipino Mahjong game. *)
Definition initializeGame (rnd : Randomness) (ps : list Player) : res GameState :=
  let tiles := shuffleAll rnd createTileSet in
  let bonusTiles := List.filter isBonus tiles in
  let regularTiles := List.filter (fun tile => negb (isBonus tile)) tiles in
  let wall0 := shuffleRegular rnd regularTiles in
  let flowerWall0 := shuffleBonus rnd bonusTiles in
  let dealerIndex := randomDealer rnd in
  let ps :=
    imap (fun index player =>
            mkPlayer (player_id player) (player_name player) [] [] [] []
              (index =? dealerIndex)%nat) ps in
  '(ps, rest) ← deal dealOrder ps wall0;
  let gameState :=
    mkGame ps dealerIndex dealerIndex rest flowerWall0 [] None None 1 east playing None
      [0; 0; 0; 0]%Z [] discard false in
  gameState ← ensureAll (seq 0 (length ps)) gameState;
  '(gameState, _) ← drawTile gameState dealerIndex;
  Ok gameState.

(** ** Discard scoring of the agent *)

Inductive Strategy := pairs | sequences | mixed.

Record WinningAnalysis := mkAnalysis {
  tilesAwayFromWin : Z;
  potentialWinningTiles : list Tile;
  bestStrategy : Strategy
}.

Open Scope Z_scope.

(** [tile.value && tile.value >= 4 && tile.value <= 6] *)
Definition isMiddleValue (tile : Tile) : bool :=
  match value tile with
  | Some v => negb (v =? 0) && (4 <=? v) && (v <=? 6)
  | None => false
  end.

(** Evaluate potential for sequences. *)
Definition evaluateSequencePotential (tile : Tile) (hand : list Tile) : Z :=
  match value tile with
  | None => 0
  | Some v =>
      if negb (truthy (value tile)) || negb (isNumberedSuit (suit tile)) then 0
      else
        let suitTiles :=
          List.filter (fun t => suitIs (suit tile) t && truthy (value t)) hand in
        let hasLower := existsb (valueIs (v - 1)) suitTiles in
        let hasHigher := existsb (valueIs (v + 1)) suitTiles in
        let hasLower2 := existsb (valueIs (v - 2)) suitTiles in
        let hasHigher2 := existsb (valueIs (v + 2)) suitTiles in
        let potential := 0 in
        let potential := if hasLower && hasHigher then potential + 30 else potential in
        let potential := if hasLower || hasHigher then potential + 15 else potential in
        let potential := if hasLower2 || hasHigher2 then potential + 10 else potential in
        potential
  end.

(** Evaluate how dangerous it is to discard this tile. *)
Definition evaluateDangerLevel (tile : Tile) (gameState : GameState) : Z :=
  let allDiscards := p ← players gameState; discards p in
  let sameTypeDiscards := List.filter (fun t => tilesMatch t tile) allDiscards in
  let danger := 0 in
  let danger := danger - Z.of_nat (length sameTypeDiscards) * 5 in
  let danger := if isMiddleValue tile then danger + 10 else danger in
  let danger := if isHonorSuit (suit tile) then danger - 5 else danger in
  danger.

(** Evaluate how valuable a tile is to keep (lower = better to discard). *)
Definition evaluateDiscardValue (tile : Tile) (player : Player) (gameState : GameState) : Z :=
  let value0 := if isHonorSuit (suit tile) then 20 else 10 in
  let remainingHand := List.filter (fun t => negb (sameId t tile)) (hand player) in
  let matchingTiles := List.filter (fun t => tilesMatch t tile) remainingHand in
  let value1 :=
    if (2 <=? length matchingTiles)%nat then value0 - 50
    else if (length matchingTiles =? 1)%nat then value0 - 25 else value0 in
  let value2 :=
    if isNumberedSuit (suit tile) && truthy (value tile)
    then value1 - evaluateSequencePotential tile remainingHand else value1 in
  let value3 := value2 + evaluateDangerLevel tile gameState in
  let value4 := if valueIs 1 tile || valueIs 9 tile then value3 + 5 else value3 in
  let value5 := if isMiddleValue tile then value4 - 5 else value4 in
  value5.

(** Evaluate discard value when close to winning. *)
Definition evaluateDiscardValueForWin (tile : Tile) (player : Player)
    (gameState : GameState) (winningAnalysis : WinningAnalysis) : Z :=
  let value0 := 50 in
  let matchingTiles :=
    List.filter (fun t => bool_decide (suit t = suit tile)
                          && bool_decide (value t = value tile)
                          && bool_decide (wind t = wind tile)
                          && bool_decide (dragon t = dragon tile)
                          && negb (sameId t tile)) (hand player) in
  match bestStrategy winningAnalysis with
  | pairs =>
      if (length matchingTiles =? 1)%nat then value0 + 100
      else if (length matchingTiles =? 0)%nat then value0 - 20 else value0
  | _ =>
      let value1 :=
        if isNumberedSuit (suit tile) && truthy (value tile) then
          value0 + evaluateSequencePotential tile
                     (List.filter (fun t => negb (sameId t tile)) (hand player)) * 2
        else value0 in
      if (2 <=? length matchingTiles)%nat then value1 + 150
      else if (length matchingTiles =? 1)%nat then value1 + 75 else value1
  end.

Close Scope Z_scope.

(** * Notions used in the statements *)

(** The number of tiles of a candidate: the unmelded hand plus the tiles of
    the melds. *)
Definition totalTileCount (hand : list Tile) (melds : list Meld) : nat :=
  length hand + sum_list ((fun m => length (meld_tiles m)) <$> melds).



(** Two hands that hold the same tiles in the same order, the recently-drawn
    display marker apart. *)
Definition sameHand (h h' : list Tile) : Prop :=
  set_isRecentlyDrawn false <$> h = set_isRecentlyDrawn false <$> h'.



(** A tile of the tile set: a tile of a numbered suit carries a rank from 1
    to 9. *)
Definition wellFormedRank (t : Tile) : Prop :=
  isNumberedSuit (suit t) = true -> exists v, value t = Some v /\ (1 <= v <= 9)%Z.

(** The hand holds two tiles that, together with the discard, form three
    consecutive ranks [r], [r + 1], [r + 2] of the suit of the discard. *)
Definition completesRun (h : list Tile) (d : Tile) : Prop :=
  exists (a b : Tile) (va vb vd r : Z),
    a ∈ h /\ b ∈ h /\ suit a = suit d /\ suit b = suit d
    /\ value a = Some va /\ value b = Some vb /\ value d = Some vd
    /\ (1 <= r /\ r + 2 <= 9)%Z
    /\ [vd; va; vb] ≡ₚ [r; (r + 1)%Z; (r + 2)%Z].

(** The number of tiles of the hand, other than the tile itself, that match
    it: 1 when the tile is half of a pair, 2 or more when it belongs to a
    triplet. *)
Definition othersMatching (tile : Tile) (h : list Tile) : nat :=
  length (List.filter (fun t => tilesMatch t tile)
            (List.filter (fun t => negb (sameId t tile)) h)).

(** [gameState.players.findIndex(p => p.id === claim.playerId)] *)
Definition claimantIndex (gs : GameState) (claim : ClaimAction) : option nat :=
  findIndex (fun p => String.eqb (player_id p) (claim_playerId claim)) (players gs).

(** [player.hand.filter(t => tilesMatch(t, lastDiscard))] *)
Definition matchingInHand (player : Player) (d : Tile) : list Tile :=
  List.filter (fun t => tilesMatch t d) (hand player).

(** A trio: three matching tiles, or three tiles of one numbered suit with
    consecutive ranks. *)
Definition isTrio (a b c : Tile) : Prop :=
  (tilesMatch a b = true /\ tilesMatch b c = true)
  \/ (isNumberedSuit (suit a) = true /\ suit b = suit a /\ suit c = suit a
      /\ exists v, value a = Some v /\ value b = Some (v + 1)%Z
                   /\ value c = Some (v + 2)%Z).

(** [decomposes n tiles]: the tiles can be partitioned into [n] trios and one
    pair of matching tiles. *)
Inductive decomposes : nat -> list Tile -> Prop :=
| decomposes_pair (a b : Tile) (tiles : list Tile) :
    tiles ≡ₚ [a; b] -> tilesMatch a b = true -> decomposes 0 tiles
| decomposes_trio (n : nat) (a b c : Tile) (rest tiles : list Tile) :
    tiles ≡ₚ a :: b :: c :: rest -> isTrio a b c -> decomposes n rest ->
    decomposes (S n) tiles.

(** The hand consists of seven pairs of distinct tile identities plus one
    triplet of an eighth identity.  The identity of a tile is its grouping key
    (suit and rank); for tiles other than flowers and seasons, two tiles have
    the same key exactly when they match. *)
Definition sevenPairsAndTriplet (h : list Tile) : Prop :=
  exists (k3 : TileKey) (ks2 : list TileKey),
    length ks2 = 7 /\ NoDup (k3 :: ks2)
    /\ tileKey <$> h ≡ₚ [k3; k3; k3] ++ (k ← ks2; [k; k]).

(** The counting map of a list of keys, and the count it holds for a key. *)
Definition keyCounts (ks : list TileKey) : list (TileKey * nat) :=
  foldl (fun m k => bump k m) [] ks.

Fixpoint lookupCount (k : TileKey) (m : list (TileKey * nat)) : nat :=
  match m with
  | [] => 0
  | (k', n) :: r => if bool_decide (k' = k) then n else lookupCount k r
  end.

Definition TileKey_eq_dec : forall x y : TileKey, {x = y} + {x <> y} :=
  decide_rel (=).

(** *** Tile conservation *)

Definition meldTileCount (p : Player) : nat :=
  sum_list ((fun m => length (meld_tiles m)) <$> melds p).

(** The sum of the claim: the wall plus, for every player, the hand, the
    tiles of the melds, the discard list and the flowers. *)
Definition claimedTotal (gs : GameState) : nat :=
  length (wall gs)
  + sum_list ((fun p => length (hand p) + meldTileCount p + length (discards p)
                        + length (flowers p)) <$> players gs).

(** The sum that the operations conserve: the wall, the flower wall and the
    shared discard pile plus, for every player, the hand, the tiles of the
    melds and the flowers. *)
Definition conservedTotal (gs : GameState) : nat :=
  length (wall gs) + length (flowerWall gs) + length (discardPile gs)
  + sum_list ((fun p => length (hand p) + length (flowers p) + meldTileCount p)
                <$> players gs).

(** The instance ids behind [conservedTotal]. *)
Definition idsOf (l : list Tile) : list nat := tile_id <$> l.

Definition playerIds (p : Player) : list nat :=
  idsOf (hand p) ++ idsOf (flowers p) ++ (melds p ≫= fun m => idsOf (meld_tiles m)).

Definition allIds (gs : GameState) : list nat :=
  idsOf (wall gs) ++ idsOf (flowerWall gs) ++ idsOf (discardPile gs)
  ++ (players gs ≫= playerIds).

(** Every tile of the tile set is in exactly one of the places counted by
    [conservedTotal], and the open discard lies on the shared pile. *)
Definition tilesAccounted (gs : GameState) : Prop :=
  allIds gs ≡ₚ idsOf createTileSet
  /\ forall d, lastDiscard gs = Some d -> tile_id d ∈ idsOf (discardPile gs).

(** One engine call that returns normally. *)
Inductive step : GameState -> GameState -> Prop :=
| step_drawTile (gs gs' : GameState) (playerIndex : nat) (drawn : option Tile) :
    drawTile gs playerIndex = Ok (gs', drawn) -> step gs gs'
| step_discardTile (gs gs' : GameState) (playerIndex : nat) (tile : Tile) :
    discardTile gs playerIndex tile = Ok gs' -> step gs gs'
| step_processClaim (gs gs' : GameState) (claim : ClaimAction) (accepted : bool) :
    processClaim gs claim = Ok (gs', accepted) -> step gs gs'.

(** The states reachable from [initializeGame] by any sequence of [drawTile],
    [discardTile] and [processClaim] calls. *)
Inductive reachable : GameState -> Prop :=
| reachable_initial (rnd : Randomness) (ps : list Player) (gs : GameState) :
    fairRandomness rnd -> initializeGame rnd ps = Ok gs -> reachable gs
| reachable_step (gs gs' : GameState) :
    reachable gs -> step gs gs' -> reachable gs'.

(** ** Example data *)

Definition examplePlayer (pid : string) (h : list Tile) : Player :=
  mkPlayer pid pid h [] [] [] false.

Definition exampleGame (ps : list Player) (current : nat) (w : list Tile) (ph : Phase)
    : GameState :=
  mkGame ps current 0 w [] [] None None 1 east playing None [0; 0; 0; 0]%Z [] ph false.

(** Player 0 holds one tile; it is the turn of player 1, who has yet to draw. *)
Definition outOfTurnGame : GameState :=
  exampleGame [examplePlayer "p0" [numberTile 0 circles 1]; examplePlayer "p1" [];
               examplePlayer "p2" []; examplePlayer "p3" []] 1 [] draw.

(** The wall holds a single flower; player 0 holds the tile of the last
    draw, marked as recently drawn. *)
Definition flowerOnlyGame : GameState :=
  set_lastDrawnTile (Some (set_isRecentlyDrawn true (numberTile 0 circles 1)))
    (exampleGame [examplePlayer "p0" [set_isRecentlyDrawn true (numberTile 0 circles 1)];
                  examplePlayer "p1" []; examplePlayer "p2" []; examplePlayer "p3" []]
       0 [flowerTile 1 plum] draw).

(** [flowerOnlyGame] after a draw of player 0: the flower is exposed, the wall
    is empty and the marker of the hand tile is cleared, also where
    [lastDrawnTile] refers to it. *)
Definition flowerOnlyAfter : GameState :=
  set_lastDrawnTile (Some (numberTile 0 circles 1))
    (exampleGame [set_flowers [flowerTile 1 plum]
                    (examplePlayer "p0" [numberTile 0 circles 1]);
                  examplePlayer "p1" []; examplePlayer "p2" []; examplePlayer "p3" []]
       0 [] draw).

(** Player 1 holds the 2 and 3 of circles; the 1 of circles was just discarded. *)
Definition chowGame : GameState :=
  set_lastDiscard (Some (numberTile 0 circles 1))
    (exampleGame [examplePlayer "p0" [];
                  examplePlayer "p1" [numberTile 4 circles 2; numberTile 8 circles 3];
                  examplePlayer "p2" []; examplePlayer "p3" []] 1 [] draw).

(** A player holding a pair of east winds and a lone 5 of bamboos. *)
Definition pairHolder : Player :=
  examplePlayer "p0" [windTile 0 east; windTile 1 east; numberTile 2 bamboos 5].

(** Player 1 holds seven pairs and two red dragons; player 0 has just discarded
    the third red dragon. *)
Definition redDragon : Tile := dragonTile 16 red.

Definition winPendingGame : GameState :=
  mkGame
    [mkPlayer "p0" "p0" [] [] [] [set_isRecentlyDiscarded true redDragon] false;
     examplePlayer "p1"
       [numberTile 0 circles 1; numberTile 1 circles 1; numberTile 2 circles 2;
        numberTile 3 circles 2; numberTile 4 circles 3; numberTile 5 circles 3;
        numberTile 6 bamboos 4; numberTile 7 bamboos 4; numberTile 8 bamboos 5;
        numberTile 9 bamboos 5; windTile 10 east; windTile 11 east;
        windTile 12 south; windTile 13 south; dragonTile 14 red; dragonTile 15 red];
     examplePlayer "p2" []; examplePlayer "p3" []]
    1 0 [] [] [set_isRecentlyDiscarded true redDragon]
    (Some (set_isRecentlyDiscarded true redDragon)) None 1 east playing None
    [0; 0; 0; 0]%Z [] draw false.

(** Player 2 holds three 5 of circles; player 0 has just discarded the fourth.
    The wall starts with a flower. *)
Definition fiveOfCircles : Tile := set_isRecentlyDiscarded true (numberTile 3 circles 5).

Definition kongPendingGame : GameState :=
  mkGame
    [mkPlayer "p0" "p0" [] [] [] [fiveOfCircles] false;
     examplePlayer "p1" [];
     examplePlayer "p2"
       [numberTile 0 circles 5; windTile 10 east; numberTile 1 circles 5;
        numberTile 2 circles 5];
     examplePlayer "p3" []]
    1 0 [flowerTile 20 plum; numberTile 21 bamboos 1; numberTile 22 bamboos 2] []
    [fiveOfCircles] (Some fiveOfCircles) None 1 east playing None
    [0; 0; 0; 0]%Z [] draw false.

(** [kongPendingGame] after the kong claim of player 2. *)
Definition kongClaimedGame : GameState :=
  mkGame
    [mkPlayer "p0" "p0" [] [] [] [fiveOfCircles] false;
     examplePlayer "p1" [];
     mkPlayer "p2" "p2"
       [windTile 10 east; set_isRecentlyDrawn true (numberTile 21 bamboos 1)]
       [mkMeld kong [fiveOfCircles; numberTile 0 circles 5; numberTile 1 circles 5;
                     numberTile 2 circles 5] false (Some 1)]
       [flowerTile 20 plum] [] false;
     examplePlayer "p3" []]
    2 0 [numberTile 22 bamboos 2] [] [] None
    (Some (set_isRecentlyDrawn true (numberTile 21 bamboos 1))) 1 east playing None
    [0; 0; 0; 0]%Z [mkAmbition "p2" kang 0.25%Q true] discard true.

(** Four triplets of winds, the 2 and 3 of circles, a pair of red dragons and,
    as last tile, the 1 of circles: the order in which [isValidClaim] passes a
    hand followed by the claimed discard. *)
Definition windTriplets : list Tile :=
  [windTile 0 east; windTile 1 east; windTile 2 east;
   windTile 3 south; windTile 4 south; windTile 5 south;
   windTile 6 west; windTile 7 west; windTile 8 west;
   windTile 9 north; windTile 10 north; windTile 11 north].

Definition lowTileLastHand : list Tile :=
  windTriplets ++ [numberTile 12 circles 2; numberTile 13 circles 3;
                   dragonTile 14 red; dragonTile 15 red; numberTile 16 circles 1].

(** The same seventeen tiles with the 1 of circles in front of the 2 and 3. *)
Definition lowTileFirstHand : list Tile :=
  windTriplets ++ [numberTile 16 circles 1; numberTile 12 circles 2;
                   numberTile 13 circles 3; dragonTile 14 red; dragonTile 15 red].

(** Player 1 holds the first sixteen tiles of [lowTileLastHand]; player 0 has
    just discarded the 1 of circles. *)
Definition lowTileClaimGame : GameState :=
  set_lastDiscard (Some (numberTile 16 circles 1))
    (set_discardPile [numberTile 16 circles 1]
       (exampleGame [examplePlayer "p0" []; examplePlayer "p1" (take 16 lowTileLastHand);
                     examplePlayer "p2" []; examplePlayer "p3" []] 1 [] draw)).

(** Seven pairs and a triplet of north winds, shuffled. *)
Definition sietePareHand : list Tile :=
  [numberTile 0 circles 1; windTile 14 north; numberTile 2 circles 2;
   numberTile 3 circles 2; numberTile 4 bamboos 7; numberTile 1 circles 1;
   numberTile 5 bamboos 7; windTile 15 north; numberTile 6 characters 9;
   numberTile 7 characters 9; dragonTile 8 green; dragonTile 9 green;
   windTile 10 east; windTile 11 east; dragonTile 12 white; windTile 16 north;
   dragonTile 13 white].

(** A game set up without shuffling, with player 0 as dealer. *)
Definition noShuffle : Randomness :=
  mkRandomness (fun l => l) (fun l => l) (fun l => l) 0.

Definition fourPlayers : list Player :=
  [examplePlayer "p0" []; examplePlayer "p1" []; examplePlayer "p2" [];
   examplePlayer "p3" []].

Definition openingGame : GameState :=
  match initializeGame noShuffle fourPlayers with
  | Ok gs => gs
  | _ => exampleGame [] 0 [] draw
  end.

(** The dealer discards a 1 of circles and claims it back as a kong with the
    three others of the hand. *)
Definition openingDiscarded : GameState :=
  match discardTile openingGame 0 (numberTile 0 circles 1) with
  | Ok gs => gs
  | _ => openingGame
  end.

Definition openingKong : GameState :=
  match processClaim openingDiscarded (mkClaim claim_kong "p0") with
  | Ok (gs, _) => gs
  | _ => openingDiscarded
  end.

(** * The rest of the engine and of the agent *)

(** ** Sequences open to a chow *)

(** Get all possible sequences that can be formed with a discard tile.  The
    neighbouring ranks are computed as in [canFormSequence]. *)
Definition getAllPossibleSequences (hand : list Tile) (discard : Tile) : list (list Tile) :=
  if negb (isNumberedSuit (suit discard)) then []
  else
    let suitTiles :=
      List.filter (fun t => suitIs (suit discard) t && truthy (value t)) hand in
    let pattern (ok : bool) (mk : Tile -> Tile -> list Tile) (v1 v2 : Z) :=
      if ok then
        match List.find (valueIs v1) suitTiles, List.find (valueIs v2) suitTiles with
        | Some tile1, Some tile2 => [mk tile1 tile2]
        | _, _ => []
        end
      else [] in
    match value discard with
    | None => []
    | Some discardValue =>
        pattern (discardValue <=? 7)%Z (fun t1 t2 => [discard; t1; t2])
          (discardValue + 1)%Z (discardValue + 2)%Z
        ++ pattern ((2 <=? discardValue)%Z && (discardValue <=? 8)%Z)
             (fun t1 t2 => [t1; discard; t2]) (discardValue - 1)%Z (discardValue + 1)%Z
        ++ pattern (3 <=? discardValue)%Z (fun t1 t2 => [t1; t2; discard])
             (discardValue - 2)%Z (discardValue - 1)%Z
    end.

(** Legacy function for backward compatibility. *)
Definition exposeAndReplaceFlowers (gameState : GameState) (playerIndex : nat)
    : res GameState :=
  ensureCorrectHandSize gameState playerIndex.

(** ** The agent *)

Inductive Difficulty := easy | medium | hard | expert.

#[global] Instance Difficulty_eq_dec : EqDecision Difficulty.
Proof. solve_decision. Defined.

Inductive Action := action_draw | action_discard | action_claim | action_win.

Record Decision := mkDecision {
  action : Action;
  decision_tile : option Tile;
  claimAction : option ClaimAction
}.

Open Scope Z_scope.

(** [a + 1 === b] on possibly undefined numbers. *)
Definition isNext (a b : option Z) (step : Z) : bool :=
  match a, b with
  | Some x, Some y => y =? x + step
  | _, _ => false
  end.

(** Evaluate sequence patterns in a suit.  [values] is the array of ranks
    after [sort((a, b) => a - b)]; an index past the end reads [undefined]. *)
Definition evaluateSequencePatterns (suitTiles : list Tile) : Z :=
  if (length suitTiles <? 2)%nat then 0
  else
    let values := sortNumbers (value <$> suitTiles) in
    foldl (fun patterns i =>
             if isNext (mjoin (values !! i)) (mjoin (values !! S i)) 1 then
               let patterns := patterns + 1 in
               if (i <? length values - 2)%nat
                  && isNext (mjoin (values !! i)) (mjoin (values !! S (S i))) 2
               then patterns + 2 else patterns
             else patterns)
      0 (seq 0 (length values - 1)).

(** [hand.filter(t => t.suit === suit && t.value).sort((a, b) => a.value! - b.value!)] *)
Definition sortedSuitTiles (s : Suit) (hand : list Tile) : list Tile :=
  sortBy valueLt (List.filter (fun t => suitIs s t && truthy (value t)) hand).

(** Evaluate overall hand value for strategic decisions. *)
Definition evaluateHandValue (hand : list Tile) (melds : list Meld) : Z :=
  let value0 := 0 + Z.of_nat (length melds) * 30 in
  let value1 :=
    foldl (fun v count =>
             if (3 <=? count)%nat then v + 25
             else if (count =? 2)%nat then v + 15 else v)
      value0 (tileCounts hand).*2 in
  let value2 :=
    foldl (fun v s => v + evaluateSequencePatterns (sortedSuitTiles s hand) * 10)
      value1 [circles; bamboos; characters] in
  value2 + (17 - Z.of_nat (length hand)) * 5.

(** The scan of [countPotentialSequences]: the loop index is the position of
    the head of the list; a hit skips the three tiles of the run. *)
Fixpoint scanRuns (values : list (option Z)) : Z :=
  match values with
  | a :: ((b :: c :: rest) as tail) =>
      if isNext a b 1 && isNext a c 2 then 1 + scanRuns rest else scanRuns tail
  | _ => 0
  end.

(** Count potential sequences in a suit. *)
Definition countPotentialSequences (suitTiles : list Tile) : Z :=
  if (length suitTiles <? 3)%nat then 0 else scanRuns (value <$> suitTiles).

(** Analyze pairs strategy potential. *)
Definition analyzePairsStrategy (hand : list Tile) : Z * list Tile :=
  let '(nPairs, nSingles, nTriples) :=
    foldl (fun '(nPairs, nSingles, nTriples) '(_, tiles) =>
             if (length tiles =? 2)%nat then (nPairs + 1, nSingles, nTriples)
             else if (length tiles =? 1)%nat then (nPairs, nSingles + 1, nTriples)
             else if (length tiles =? 3)%nat then (nPairs, nSingles, nTriples + 1)
             else if (length tiles =? 4)%nat then (nPairs + 2, nSingles, nTriples)
             else (nPairs, nSingles, nTriples))
      (0, 0, 0) (tileGroups hand) in
  let neededPairs := Z.max 0 (7 - nPairs) in
  let neededTriples := Z.max 0 (1 - nTriples) in
  let tilesAway := neededPairs + neededTriples in
  let availableSingles := Z.min nSingles neededPairs in
  let tilesAway := Z.max 0 (tilesAway - availableSingles) in
  (tilesAway, []).

(** Analyze standard strategy potential. *)
Definition analyzeStandardStrategy (hand : list Tile) (existingMelds : Z) : Z * list Tile :=
  let neededMelds := 5 - existingMelds in
  let neededPairs := 1 in
  let '(potentialMelds, potentialPairs) :=
    foldl (fun '(potentialMelds, potentialPairs) count =>
             if (3 <=? count)%nat then (potentialMelds + 1, potentialPairs)
             else if (count =? 2)%nat then (potentialMelds, potentialPairs + 1)
             else (potentialMelds, potentialPairs))
      (0, 0) (tileCounts hand).*2 in
  let potentialMelds :=
    foldl (fun m s => m + countPotentialSequences (sortedSuitTiles s hand))
      potentialMelds [circles; bamboos; characters] in
  let meldsShortfall := Z.max 0 (neededMelds - potentialMelds) in
  let pairsShortfall := Z.max 0 (neededPairs - potentialPairs) in
  (meldsShortfall + pairsShortfall, []).

(** Analyze how close the player is to winning. *)
Definition analyzeWinningPotential (player : Player) : WinningAnalysis :=
  let totalMelds := Z.of_nat (length (melds player)) in
  let pairsAnalysis := analyzePairsStrategy (hand player) in
  let standardAnalysis := analyzeStandardStrategy (hand player) totalMelds in
  if pairsAnalysis.1 <=? standardAnalysis.1 then
    mkAnalysis pairsAnalysis.1 pairsAnalysis.2 pairs
  else
    mkAnalysis standardAnalysis.1 standardAnalysis.2
      (if standardAnalysis.1 <=? 3 then sequences else mixed).

(** The two [for (const tile of hand)] loops of [chooseBestDiscard]:
    [lowestValue] starts at [Infinity] ([None]) and [bestDiscard] at
    [hand[0]]. *)
Definition pickLowest (score : Tile -> Z) (hand : list Tile) : option Tile :=
  (foldl (fun '(bestDiscard, lowestValue) tile =>
            let v := score tile in
            match lowestValue with
            | Some low => if v <? low then (Some tile, Some v) else (bestDiscard, lowestValue)
            | None => (Some tile, Some v)
            end)
     (head hand, None) hand).1.

(** Choose the best tile to discard using advanced strategy. *)
Definition chooseBestDiscard (player : Player) (gameState : GameState) : option Tile :=
  let winningAnalysis := analyzeWinningPotential player in
  if tilesAwayFromWin winningAnalysis <=? 2 then
    pickLowest (fun tile =>
                  evaluateDiscardValueForWin tile player gameState winningAnalysis)
      (hand player)
  else
    pickLowest (fun tile => evaluateDiscardValue tile player gameState) (hand player).

Close Scope Z_scope.

(** Check if we can win with current hand + optional extra tile. *)
Definition checkForWin (player : Player) (extraTile : option Tile) : res (bool * string) :=
  let testHand :=
    match extraTile with
    | Some t => hand player ++ [t]
    | None => hand player
    end in
  winCondition ← isWinningHand testHand (melds player) (flowers player);
  Ok (isValid winCondition, handType winCondition).

(** Determine if we should claim a discarded tile.  [None] is
    [{ shouldClaim: false }]. *)
Definition shouldClaim (difficulty : Difficulty) (player : Player) (discardedTile : Tile)
    (gameState : GameState) : res (option ClaimAction) :=
  '(canWin, _) ← checkForWin player (Some discardedTile);
  if canWin : bool then Ok (Some (mkClaim claim_win (player_id player)))
  else
    let matchingTiles := List.filter (fun t => tilesMatch t discardedTile) (hand player) in
    kongValid ←
      (if (3 <=? length matchingTiles)%nat
       then isValidClaim gameState (mkClaim claim_kong (player_id player))
       else Ok false) : res bool;
    if kongValid : bool then Ok (Some (mkClaim claim_kong (player_id player)))
    else
      pungTaken ←
        (if (2 <=? length matchingTiles)%nat then
           valid ← isValidClaim gameState (mkClaim claim_pung (player_id player));
           if valid : bool then
             let handValue := evaluateHandValue (hand player) (melds player) in
             let projectedValue :=
               evaluateHandValue
                 (withoutIds (take 2 matchingTiles) (hand player))
                 (melds player ++
                  [mkMeld pung (discardedTile :: take 2 matchingTiles) false
                     (Some (currentPlayer gameState))]) in
             (Ok (handValue + 15 <? projectedValue)%Z : res bool)
           else Ok false
         else Ok false) : res bool;
      if pungTaken : bool then Ok (Some (mkClaim claim_pung (player_id player)))
      else
        let sequences := getAllPossibleSequences (hand player) discardedTile in
        match sequences with
        | [] => (Ok None : res (option ClaimAction))
        | first :: _ =>
            valid ← isValidClaim gameState (mkClaim claim_chow (player_id player));
            if valid : bool then
              let handValue := evaluateHandValue (hand player) (melds player) in
              let sequenceTiles :=
                List.filter (fun t => negb (sameId t discardedTile)) first in
              let projectedValue :=
                evaluateHandValue
                  (withoutIds sequenceTiles (hand player))
                  (melds player ++
                   [mkMeld chow first false (Some (currentPlayer gameState))]) in
              if (handValue + 10 <? projectedValue)%Z
                 && bool_decide (difficulty = expert)
              then Ok (Some (mkClaim claim_chow (player_id player)))
              else Ok None
            else Ok None
        end.

(** Main AI decision making function. *)
Definition makeDecision (difficulty : Difficulty) (gameState : GameState)
    (playerId : string) : res Decision :=
  match findPlayer gameState playerId with
  | None => Ok (mkDecision action_draw None None)
  | Some player =>
      '(canWin, _) ← checkForWin player (lastDiscard gameState);
      if canWin : bool then Ok (mkDecision action_win None None)
      else
        claimDecision ←
          match lastDiscard gameState, phase gameState with
          | Some d, draw => shouldClaim difficulty player d gameState
          | _, _ => Ok None
          end;
        match claimDecision with
        | Some c => Ok (mkDecision action_claim None (Some c))
        | None =>
            if bool_decide (phase gameState = discard)
               && bool_decide (Some (currentPlayer gameState)
                               = findIndex (fun p => String.eqb (player_id p) playerId)
                                   (players gameState))
            then Ok (mkDecision action_discard (chooseBestDiscard player gameState) None)
            else Ok (mkDecision action_draw None None)
        end
  end.

(** * Notions used in the further statements *)

(** What a draw of player [i] that returned the tile [t] has done. *)
Definition drewFirstRegularTile (g g' : GameState) (i : nat) (t : Tile) : Prop :=
  exists p p' bonus t0,
    players g !! i = Some p /\ players g' !! i = Some p'
    /\ wall g = bonus ++ t0 :: wall g'
    /\ Forall (fun b => isBonus b = true) bonus /\ isBonus t0 = false
    /\ t = set_isRecentlyDrawn true t0
    /\ hand p' = (set_isRecentlyDrawn false <$> hand p) ++ [t]
    /\ flowers p' = flowers p ++ bonus
    /\ melds p' = melds p /\ discards p' = discards p
    /\ (forall j, j <> i -> players g' !! j = players g !! j)
    /\ phase g' = discard /\ hasDrawnThisTurn g' = true
    /\ lastDrawnTile g' = Some t /\ currentPlayer g' = currentPlayer g
    /\ discardPile g' = discardPile g /\ lastDiscard g' = lastDiscard g
    /\ flowerWall g' = flowerWall g.

(** ** Further example data *)

(** [kongPendingGame] after a draw of player 2. *)
Definition kongPendingDrawn : GameState :=
  match drawTile kongPendingGame 2 with
  | Ok (g, _) => g
  | _ => kongPendingGame
  end.

(** What an accepted pung claim has done. *)
Definition pungTaken (gs gs' : GameState) (claim : ClaimAction) : Prop :=
  exists idx player player' d t1 t2,
    claimantIndex gs claim = Some idx
    /\ players gs !! idx = Some player /\ players gs' !! idx = Some player'
    /\ lastDiscard gs = Some d
    /\ [t1; t2] = take 2 (matchingInHand player d)
    /\ [t1; t2] `sublist_of` hand player
    /\ tilesMatch t1 d = true /\ tilesMatch t2 d = true
    /\ melds player' = melds player ++ [mkMeld pung [d; t1; t2] false (Some (currentPlayer gs))]
    /\ idsOf (hand player) ≡ₚ tile_id t1 :: tile_id t2 :: idsOf (hand player')
    /\ flowers player' = flowers player /\ discards player' = discards player
    /\ (forall j, j <> idx -> players gs' !! j = players gs !! j)
    /\ wall gs' = wall gs
    /\ discardPile gs' = removeById d (discardPile gs)
    /\ game_ambitions gs'
       = game_ambitions gs ++ [mkAmbition (claim_playerId claim) kang 0.25%Q true]
    /\ currentPlayer gs' = idx /\ phase gs' = discard /\ hasDrawnThisTurn gs' = true
    /\ status gs' = status gs /\ winner gs' = winner gs.

(** What an accepted chow claim has done. *)
Definition chowTaken (gs gs' : GameState) (claim : ClaimAction) : Prop :=
  exists idx player player' d a b c v t1 t2,
    claimantIndex gs claim = Some idx
    /\ players gs !! idx = Some player /\ players gs' !! idx = Some player'
    /\ lastDiscard gs = Some d
    /\ isNumberedSuit (suit d) = true
    /\ suit a = suit d /\ suit b = suit d /\ suit c = suit d
    /\ value a = Some v /\ value b = Some (v + 1)%Z /\ value c = Some (v + 2)%Z
    /\ t1 ∈ hand player /\ t2 ∈ hand player /\ [a; b; c] ≡ₚ [d; t1; t2]
    /\ melds player' = melds player ++ [mkMeld chow [a; b; c] false (Some (currentPlayer gs))]
    /\ idsOf (hand player) ≡ₚ tile_id t1 :: tile_id t2 :: idsOf (hand player')
    /\ flowers player' = flowers player /\ discards player' = discards player
    /\ (forall j, j <> idx -> players gs' !! j = players gs !! j)
    /\ wall gs' = wall gs
    /\ discardPile gs' = removeById d (discardPile gs)
    /\ game_ambitions gs' = game_ambitions gs
    /\ currentPlayer gs' = idx /\ phase gs' = discard /\ hasDrawnThisTurn gs' = true
    /\ status gs' = status gs /\ winner gs' = winner gs.

(** The ranks in play are ranks of the tile set: those of the open discard
    and of the tiles of every hand. *)
Definition ranksOfTileSet (gs : GameState) : Prop :=
  (forall d, lastDiscard gs = Some d -> wellFormedRank d)
  /\ Forall (fun p => Forall wellFormedRank (hand p)) (players gs).

(** No tile in a hand has the instance id of the open discard. *)
Definition discardNotInHands (gs : GameState) : Prop :=
  forall p t d, p ∈ players gs -> t ∈ hand p -> lastDiscard gs = Some d ->
                tile_id t <> tile_id d.

(** [kongPendingGame] after a pung claim of player 2. *)
Definition pungClaimedGame : GameState :=
  match processClaim kongPendingGame (mkClaim claim_pung "p2") with
  | Ok (g, _) => g
  | _ => kongPendingGame
  end.

(** [chowGame] after the chow claim of player 1. *)
Definition chowClaimedGame : GameState :=
  match processClaim chowGame (mkClaim claim_chow "p1") with
  | Ok (g, _) => g
  | _ => chowGame
  end.

(** The sum of a list of payouts. *)
Definition sumQ (l : list Q) : Q := foldr Qplus 0%Q l.

(** Fourteen tiles that make four trios and a pair, next to a claimed pung of
    east winds. *)
Definition meldedWinHand : list Tile := drop 3 lowTileFirstHand.

Definition eastPung : Meld := mkMeld pung (take 3 windTriplets) false (Some 0).

(** A tile that is neither a flower nor a season. *)
Definition regular (t : Tile) : Prop := isBonus t = false.

(** What [ensureCorrectHandSize] has done for player [i]. *)
Definition handSizeEnsured (g g' : GameState) (i : nat) : Prop :=
  exists p p',
    players g !! i = Some p /\ players g' !! i = Some p'
    /\ Forall regular (hand p')
    /\ (16 <= length (hand p') \/ wall g' = [])
    /\ hand p' ++ flowers p' ++ wall g' ≡ₚ hand p ++ flowers p ++ wall g
    /\ (exists exposed, flowers p' = flowers p ++ exposed
                        /\ Forall (fun t => isBonus t = true) exposed)
    /\ melds p' = melds p /\ discards p' = discards p
    /\ (forall j, j <> i -> players g' !! j = players g !! j)
    /\ flowerWall g' = flowerWall g /\ discardPile g' = discardPile g
    /\ lastDiscard g' = lastDiscard g /\ currentPlayer g' = currentPlayer g
    /\ phase g' = phase g /\ hasDrawnThisTurn g' = hasDrawnThisTurn g
    /\ g' = set_wall (wall g')
              (set_players (<[i := set_flowers (flowers p') (set_hand (hand p') p)]>
                              (players g)) g).

(** Player 0 holds a flower and a 1 of circles; the wall starts with a season. *)
Definition bonusInHandGame : GameState :=
  exampleGame [examplePlayer "p0" [flowerTile 0 plum; numberTile 1 circles 1];
               examplePlayer "p1" []; examplePlayer "p2" []; examplePlayer "p3" []]
    0 [seasonTile 2 spring; numberTile 3 circles 2; numberTile 4 circles 3] discard.

(** The state that [initializeGame] hands over, for four players. *)
Definition freshlyDealt (rnd : Randomness) (ps : list Player) (gs : GameState) : Prop :=
  player_id <$> players gs = player_id <$> ps
  /\ currentPlayer gs = randomDealer rnd /\ dealer gs = randomDealer rnd
  /\ (forall i p, players gs !! i = Some p ->
        length (hand p) = (if (i =? randomDealer rnd)%nat then 17 else 16)
        /\ Forall regular (hand p)
        /\ flowers p = [] /\ melds p = [] /\ discards p = []
        /\ isDealer p = (i =? randomDealer rnd)%nat)
  /\ length (wall gs) = 71 /\ Forall regular (wall gs)
  /\ flowerWall gs ≡ₚ List.filter isBonus createTileSet
  /\ discardPile gs = [] /\ lastDiscard gs = None
  /\ phase gs = discard /\ hasDrawnThisTurn gs = true
  /\ status gs = playing /\ winner gs = None /\ game_ambitions gs = [].

(** A meld as [processClaim] makes them: exposed, claimed from a player, and
    of three tiles, or four for a kong. *)
Definition claimedMeld (m : Meld) : Prop :=
  isConcealed m = false /\ is_Some (claimedFrom m)
  /\ length (meld_tiles m) = match meld_type m with kong => 4 | _ => 3 end.

(** A player who holds regular tiles only, has exposed no flower, and whose
    melds are claimed ones. *)
Definition tidyPlayer (p : Player) : Prop :=
  Forall regular (hand p) /\ flowers p = [] /\ Forall claimedMeld (melds p).

Definition tidy (gs : GameState) : Prop :=
  Forall regular (wall gs) /\ Forall tidyPlayer (players gs).

(** [openingKong] after a draw of player 1. *)
Definition openingKongDrawn : GameState :=
  match drawTile openingKong 1 with
  | Ok (g, _) => g
  | _ => openingKong
  end.

(** The three ways a win is paid in play. *)
Definition paidInPlay (w : WinCondition) : Prop :=
  (ambitions w = [todas; siete_pares] /\ Qeq (totalPayout w) 1.5)
  \/ (ambitions w = [todas; no_flowers_end] /\ Qeq (totalPayout w) 1.25)
  \/ (ambitions w = [todas; escalera; no_flowers_end] /\ Qeq (totalPayout w) 1.75).

(** An ambition record as the engine writes them in play: the payout of the
    table of [getAmbitionPayout], instant exactly for [kang], and of one of
    five types. *)
Definition recordedByTable (r : AmbitionRecord) : Prop :=
  amb_payout r = getAmbitionPayout (amb_type r)
  /\ isInstant r = bool_decide (amb_type r = kang)
  /\ amb_type r ∈ [kang; todas; siete_pares; escalera; no_flowers_end].

Definition ledger (gs : GameState) : Prop :=
  scores gs = [0; 0; 0; 0]%Z /\ round gs = 1 /\ round_wind gs = east
  /\ Forall recordedByTable (game_ambitions gs).

(** The score by which [chooseBestDiscard] ranks the tiles of the hand. *)
Definition discardScore (player : Player) (gameState : GameState) (tile : Tile) : Z :=
  let winningAnalysis := analyzeWinningPotential player in
  if (tilesAwayFromWin winningAnalysis <=? 2)%Z
  then evaluateDiscardValueForWin tile player gameState winningAnalysis
  else evaluateDiscardValue tile player gameState.

(** [t] is the first tile of [l] with the lowest score. *)
Definition firstLowest (score : Tile -> Z) (l : list Tile) (t : Tile) : Prop :=
  exists i, l !! i = Some t
            /\ (forall t', t' ∈ l -> (score t <= score t')%Z)
            /\ (forall j t', j < i -> l !! j = Some t' -> (score t < score t')%Z).

(** What stands behind a discard decision of the agent for the player [pid]. *)
Definition discardApplies (gs : GameState) (pid : string) (dec : Decision) : Prop :=
  phase gs = discard
  /\ exists i p,
       findIndex (fun p => String.eqb (player_id p) pid) (players gs) = Some i
       /\ currentPlayer gs = i /\ players gs !! i = Some p
       /\ match decision_tile dec with
          | Some t =>
              firstLowest (discardScore p gs) (hand p) t
              /\ exists gs', discardTile gs i t = Ok gs'
                             /\ lastDiscard gs'
                        = Some (set_isRecentlyDiscarded true (set_isRecentlyDrawn false t))
                             /\ phase gs' = draw
                             /\ currentPlayer gs' = (i + 1) mod 4
          | None => hand p = []
          end.

(** Player 0 holds a winning hand of seventeen tiles; there is no open
    discard. *)
Definition selfDrawnGame : GameState :=
  exampleGame [examplePlayer "p0" lowTileFirstHand; examplePlayer "p1" [];
               examplePlayer "p2" []; examplePlayer "p3" []] 0 [] discard.

(** The dealer of [openingGame], who holds the four 1 of circles. *)
Definition openingDealer : Player :=
  match players openingGame !! 0 with
  | Some p => p
  | None => examplePlayer "p0" []
  end.

(** One step of the count of [analyzePairsStrategy], on the size of a group. *)
Definition countGroup (acc : Z * Z * Z) (size : nat) : Z * Z * Z :=
  let '(nPairs, nSingles, nTriples) := acc in
  if (size =? 2)%nat then ((nPairs + 1)%Z, nSingles, nTriples)
  else if (size =? 1)%nat then (nPairs, (nSingles + 1)%Z, nTriples)
  else if (size =? 3)%nat then (nPairs, nSingles, (nTriples + 1)%Z)
  else if (size =? 4)%nat then ((nPairs + 2)%Z, nSingles, nTriples)
  else (nPairs, nSingles, nTriples).

(** The sizes of the groups of equal tiles of a hand, and how many groups
    have a given size. *)
Definition groupSizes (h : list Tile) : list nat := (tileCounts h).*2.

Definition sizeCount (n : nat) (h : list Tile) : nat :=
  count_occ Nat.eq_dec (groupSizes h) n.

(** The chow melds whose first tile is of the suit [s]: the melds that
    [isEscalera] files under [s]. *)
Definition firstSuitIs (s : Suit) (m : Meld) : bool :=
  match meld_tiles m with
  | t0 :: _ => bool_decide (suit t0 = s)
  | [] => false
  end.

Definition chowsOfSuit (s : Suit) (ms : list Meld) : list Meld :=
  List.filter (firstSuitIs s) (List.filter (fun m => bool_decide (meld_type m = chow)) ms).

(** The entry of a suit in the map of [isEscalera]. *)
Fixpoint groupOf (s : Suit) (m : list (Suit * list (list (option Z))))
    : list (list (option Z)) :=
  match m with
  | [] => []
  | (s', g) :: r => if bool_decide (s' = s) then g else groupOf s r
  end.

(** Three claimed chows of circles: 1-2-3, 4-5-6 and 7-8-9. *)
Definition escaleraMelds : list Meld :=
  [mkMeld chow [numberTile 0 circles 1; numberTile 4 circles 2; numberTile 8 circles 3]
     false (Some 0);
   mkMeld chow [numberTile 12 circles 4; numberTile 16 circles 5; numberTile 20 circles 6]
     false (Some 0);
   mkMeld chow [numberTile 24 circles 7; numberTile 28 circles 8; numberTile 32 circles 9]
     false (Some 0)].

(** [openingKong] after the discard of a 5 of circles by the dealer, who holds
    the kong. *)
Definition openingKongDiscarded : GameState :=
  match discardTile openingKong 0 (numberTile 16 circles 5) with
  | Ok g => g
  | _ => openingKong
  end.

(** A tile without flower or season identifier: any tile but a bonus tile. *)
Definition plainTile (t : Tile) : Prop := tile_flower t = None /\ tile_season t = None.

(** Player 0 has just discarded an east wind; player 1 holds two east winds
    and a 5 of bamboos. *)
Definition eastPungGame : GameState :=
  mkGame
    [mkPlayer "p0" "p0" [] [] [] [set_isRecentlyDiscarded true (windTile 3 east)] false;
     examplePlayer "p1" [windTile 0 east; windTile 1 east; numberTile 2 bamboos 5];
     examplePlayer "p2" []; examplePlayer "p3" []]
    1 0 [] [] [set_isRecentlyDiscarded true (windTile 3 east)]
    (Some (set_isRecentlyDiscarded true (windTile 3 east))) None 1 east playing None
    [0; 0; 0; 0]%Z [] draw false.
(** * Properties *)

(** ** Generic facts about the array helpers *)

Lemma findIndex_Some {A : Type} (f : A -> bool) (l : list A) (i : nat) :
  findIndex f l = Some i ->
  exists x, l !! i = Some x /\ f x = true /\ forall j y, j < i -> l !! j = Some y -> f y = false.
Proof.
  revert i. induction l as [|a l IH]; intros i; simpl; [done|].
  destruct (f a) eqn:Hfa.
  - intros [= <-]. exists a. split_and!; [done..|]. intros j y Hj. lia.
  - destruct (findIndex f l) as [k|] eqn:Hk; simpl; [|done].
    intros [= <-]. destruct (IH k eq_refl) as (x & Hx & Hfx & Hlt).
    exists x. split_and!; [done..|].
    intros [|j] y Hj; simpl.
    + by intros [= <-].
    + apply Hlt. lia.
Qed.

Lemma findIndex_None {A : Type} (f : A -> bool) (l : list A) :
  findIndex f l = None <-> forall x, x ∈ l -> f x = false.
Proof.
  induction l as [|a l IH]; simpl.
  - split; [|done]. intros _ x Hx. by apply elem_of_nil in Hx.
  - destruct (f a) eqn:Hfa.
    + split; [done|]. intros H. specialize (H a (list_elem_of_here _ _)). congruence.
    + destruct (findIndex f l) as [k|] eqn:Hk; simpl.
      * split; [done|]. intros H.
        assert (Some k = None) as Hc; [|done].
        apply IH. intros x Hx. apply H. by right.
      * split; [|done]. intros _ x Hx.
        apply elem_of_cons in Hx as [->|Hx]; [done|]. by apply IH.
Qed.


Lemma foldl_meld_count (melds : list Meld) (n : nat) :
  foldl (fun sum meld => sum + length (meld_tiles meld)) n melds
  = n + sum_list ((fun m => length (meld_tiles m)) <$> melds).
Proof.
  revert n. induction melds as [|m ms IH]; intros n; csimpl; [lia|].
  rewrite IH. lia.
Qed.

Lemma filter_sublist (f : Tile -> bool) (l : list Tile) : List.filter f l `sublist_of` l.
Proof.
  induction l as [|x l IH]; simpl; [done|].
  destruct (f x); [by apply sublist_skip|by apply sublist_cons].
Qed.

Lemma filter_perm (f : Tile -> bool) (l l' : list Tile) :
  l ≡ₚ l' -> List.filter f l ≡ₚ List.filter f l'.
Proof.
  induction 1 as [|x l l' _ IH|x y l|l l' l'' _ IH1 _ IH2]; simpl.
  - done.
  - destruct (f x); [by apply Permutation_skip|done].
  - destruct (f x), (f y); try done. apply Permutation_swap.
  - by etrans.
Qed.

Lemma filter_partition (f : Tile -> bool) (l : list Tile) :
  List.filter f l ++ List.filter (fun t => negb (f t)) l ≡ₚ l.
Proof.
  induction l as [|x l IH]; simpl; [done|].
  destruct (f x); simpl; [by rewrite IH|].
  rewrite <- Permutation_middle. by rewrite IH.
Qed.

(** ** The tile count guard of the win detector *)

(** C6: for every hand, meld list and flower collection whose total tile
    count (hand length plus the tiles of the melds) is not 17, [isWinningHand]
    returns the invalid result: [isValid] false, empty [handType], no
    ambitions, [totalPayout] 0 and an empty breakdown.  Totals of 16 and of 18
    are instances. *)
Theorem isWinningHand_rejects_wrong_count
    (hand : list Tile) (melds : list Meld) (flowers : list Tile) :
  totalTileCount hand melds <> 17 ->
  isWinningHand hand melds flowers = Ok (mkWin false "" [] 0%Q []).
Proof.
  intros Hne. unfold isWinningHand, totalTileCount in *.
  rewrite foldl_meld_count. simpl.
  destruct (Nat.eqb_spec (length hand + sum_list ((fun m => length (meld_tiles m)) <$> melds)) 17);
    [done|reflexivity].
Qed.

Lemma isWinningHand_rejects_wrong_count_witness :
  totalTileCount (take 16 createTileSet) [] <> 17
  /\ totalTileCount (take 18 createTileSet) [] <> 17
  /\ isWinningHand (take 16 createTileSet) [] [] = Ok (mkWin false "" [] 0%Q [])
  /\ isWinningHand (take 18 createTileSet) [] [] = Ok (mkWin false "" [] 0%Q []).
Proof.
  split_and!; [vm_compute; lia | vm_compute; lia | ..];
    apply isWinningHand_rejects_wrong_count; vm_compute; lia.
Defined.

(** ** Discarding *)




Lemma clearedThrough_held (l : list Tile) (t : Tile) :
  t ∈ l -> clearedThrough l t = set_isRecentlyDrawn false t.
Proof.
  intros Hin. unfold clearedThrough, heldIn. by rewrite bool_decide_eq_true_2.
Qed.

Lemma clearedThrough_id (l : list Tile) (t : Tile) :
  tile_id (clearedThrough l t) = tile_id t.
Proof. unfold clearedThrough. by destruct (heldIn l t). Qed.




(** ** Drawing *)

Lemma drawLoop_None (w : list Tile) (p : Player) (w' : list Tile) (p' : Player) :
  drawLoop w p = (w', p', None) ->
  Forall (fun t => isBonus t = true) w /\ w' = []
  /\ p' = set_flowers (flowers p ++ w) p.
Proof.
  revert p. induction w as [|t w IH]; intros p; simpl.
  - intros [= <- <-]. split_and!; [constructor|done|].
    rewrite app_nil_r. by destruct p.
  - destruct (isBonus t) eqn:Hb; [|done].
    intros H. destruct (IH _ H) as (Hall & -> & ->).
    split_and!; [by constructor|done|].
    unfold set_flowers; simpl. by rewrite <- app_assoc.
Qed.

Lemma drawLoop_Some (w : list Tile) (p : Player) (w' : list Tile) (p' : Player) (t : Tile) :
  drawLoop w p = (w', p', Some t) ->
  exists bonus t0,
    w = bonus ++ t0 :: w' /\ Forall (fun b => isBonus b = true) bonus
    /\ isBonus t0 = false /\ t = set_isRecentlyDrawn true t0
    /\ p' = set_hand (hand p ++ [t]) (set_flowers (flowers p ++ bonus) p).
Proof.
  revert p. induction w as [|x w IH]; intros p; simpl; [done|].
  destruct (isBonus x) eqn:Hb.
  - intros H. destruct (IH _ H) as (bonus & t0 & -> & Hall & Ht0 & -> & ->).
    exists (x :: bonus), t0. split_and!; [done|by constructor|done..|].
    unfold set_hand, set_flowers; simpl. by rewrite <- app_assoc.
  - intros [= <- <- <-]. exists [], x. split_and!; [done|constructor|done..|].
    rewrite app_nil_r. by destruct p.
Qed.

(** What a draw that returns a tile has done. *)
Lemma drawTile_Some (g g' : GameState) (i : nat) (t : Tile) :
  drawTile g i = Ok (g', Some t) ->
  exists p bonus t0 w',
    players g !! i = Some p
    /\ wall g = bonus ++ t0 :: w'
    /\ Forall (fun b => isBonus b = true) bonus
    /\ isBonus t0 = false /\ t = set_isRecentlyDrawn true t0
    /\ g' = set_hasDrawnThisTurn true
              (set_phase discard
                 (set_lastDrawnTile (Some t)
                    (set_wall w'
                       (set_players
                          (<[i := set_hand ((set_isRecentlyDrawn false <$> hand p) ++ [t])
                                    (set_flowers (flowers p ++ bonus) p)]> (players g))
                          g)))).
Proof.
  unfold drawTile. destruct (Nat.eqb_spec (length (wall g)) 0) as [Hlen|Hlen]; [done|].
  destruct (players g !! i) as [p|] eqn:Hp; [|done].
  destruct (drawLoop (wall g) _) as [[w' p'] [d|]] eqn:Hloop; [|done].
  intros [= <- <-].
  apply drawLoop_Some in Hloop as (bonus & t0 & Hw & Hall & Ht0 & -> & ->).
  exists p, bonus, t0, w'. split_and!; done.
Qed.

(** A draw never changes whose turn it is. *)
Lemma drawTile_currentPlayer (g g' : GameState) (i : nat) (r : option Tile) :
  drawTile g i = Ok (g', r) -> currentPlayer g' = currentPlayer g.
Proof.
  unfold drawTile. destruct (_ =? _)%nat; [by intros [= <- <-]|].
  destruct (players g !! i) as [p|]; [|done].
  destruct (drawLoop (wall g) _) as [[w' p'] [d|]]; by intros [= <- <-].
Qed.

(** What a draw that returns no tile has done. *)
Lemma drawTile_None_inv (gs gs' : GameState) (i : nat) :
  drawTile gs i = Ok (gs', None) ->
  phase gs' = phase gs /\ hasDrawnThisTurn gs' = hasDrawnThisTurn gs
  /\ currentPlayer gs' = currentPlayer gs
  /\ (wall gs = [] -> gs' = gs)
  /\ (wall gs <> [] ->
      exists p, players gs !! i = Some p
        /\ Forall (fun t => isBonus t = true) (wall gs)
        /\ gs' = set_lastDrawnTile (clearedThrough (hand p) <$> lastDrawnTile gs)
                   (set_wall []
                      (set_players
                         (<[i := set_flowers (flowers p ++ wall gs)
                                   (set_hand (set_isRecentlyDrawn false <$> hand p) p)]>
                            (players gs)) gs))).
Proof.
  unfold drawTile. destruct (Nat.eqb_spec (length (wall gs)) 0) as [Hlen|Hlen].
  - intros [= <-]. split_and!; [done..|]. intros Hne.
    apply nil_length_inv in Hlen. by destruct Hne.
  - destruct (players gs !! i) as [p|] eqn:Hp; [|done].
    destruct (drawLoop (wall gs) _) as [[w' p'] [d|]] eqn:Hloop; [done|].
    intros [= <-]. apply drawLoop_None in Hloop as (Hall & -> & ->).
    split_and!; [done..| |].
    + intros Hw. rewrite Hw in Hlen. by destruct Hlen.
    + intros _. exists p. split_and!; [done|done|]. reflexivity.
Qed.

(** C10: whenever [drawTile] returns no tile, the phase and the
    has-drawn-this-turn flag are unchanged and the hand of the acting player
    is unchanged: it holds the same tiles in the same order, the
    recently-drawn display marker apart (exactly: every tile of the hand has
    the marker off afterwards).  If the wall was empty the whole state is
    unchanged.  If it was not, it held only bonus tiles: these have been
    appended to the flowers of the drawer and the wall is left empty, so the
    state is not the one before the call. *)
Theorem drawTile_no_tile (gs gs' : GameState) (i : nat) :
  drawTile gs i = Ok (gs', None) ->
  phase gs' = phase gs /\ hasDrawnThisTurn gs' = hasDrawnThisTurn gs
  /\ (wall gs = [] -> gs' = gs)
  /\ (forall p, players gs !! i = Some p ->
       exists p', players gs' !! i = Some p'
         /\ sameHand (hand p') (hand p)
         /\ (wall gs <> [] ->
             hand p' = set_isRecentlyDrawn false <$> hand p
             /\ Forall (fun t => isBonus t = true) (wall gs)
             /\ flowers p' = flowers p ++ wall gs /\ wall gs' = [] /\ gs' <> gs)).
Proof.
  intros H. apply drawTile_None_inv in H as (Hph & Hdr & _ & Hempty & Hfull).
  split_and!; [done..|]. intros p Hp.
  destruct (wall gs) as [|b w] eqn:Hw.
  - rewrite (Hempty eq_refl). exists p. split_and!; done.
  - destruct Hfull as (p0 & Hp0 & Hall & ->); [done|].
    assert (p0 = p) as -> by congruence.
    eexists. split_and!.
    + simpl. apply list_lookup_insert_eq. by eapply lookup_lt_Some.
    + simpl. unfold sameHand. rewrite <- list_fmap_compose.
      apply list_fmap_ext. by intros _ [] _.
    + intros _. split_and!; [done..|].
      intros Heq. apply (f_equal wall) in Heq. simpl in Heq. by rewrite Hw in Heq.
Qed.

Lemma drawTile_no_tile_witness :
  drawTile flowerOnlyGame 0 = Ok (flowerOnlyAfter, None)
  /\ phase flowerOnlyAfter = phase flowerOnlyGame
  /\ hasDrawnThisTurn flowerOnlyAfter = hasDrawnThisTurn flowerOnlyGame
  /\ (wall flowerOnlyGame = [] -> flowerOnlyAfter = flowerOnlyGame)
  /\ (forall p, players flowerOnlyGame !! 0 = Some p ->
       exists p', players flowerOnlyAfter !! 0 = Some p'
         /\ sameHand (hand p') (hand p)
         /\ (wall flowerOnlyGame <> [] ->
             hand p' = set_isRecentlyDrawn false <$> hand p
             /\ Forall (fun t => isBonus t = true) (wall flowerOnlyGame)
             /\ flowers p' = flowers p ++ wall flowerOnlyGame
             /\ wall flowerOnlyAfter = [] /\ flowerOnlyAfter <> flowerOnlyGame)).
Proof.
  split; [reflexivity|].
  apply (drawTile_no_tile flowerOnlyGame flowerOnlyAfter 0). reflexivity.
Defined.

(** ** Chow claims *)

Lemma existsb_suit_value (s : Suit) (n : Z) (h : list Tile) :
  existsb (valueIs n) (List.filter (fun t => suitIs s t && truthy (value t)) h) = true
  <-> n <> 0%Z /\ exists t, t ∈ h /\ suit t = s /\ value t = Some n.
Proof.
  rewrite existsb_exists. split.
  - intros (t & Hin & Hv). apply filter_In in Hin as [Hin Hf].
    apply andb_prop in Hf as [Hs Ht]. unfold suitIs in Hs. apply bool_decide_eq_true in Hs.
    unfold valueIs in Hv. unfold truthy in Ht.
    destruct (value t) as [z|] eqn:Hz; [|done].
    apply Z.eqb_eq in Hv as ->. apply negb_true_iff, Z.eqb_neq in Ht.
    split; [done|]. exists t. by rewrite list_elem_of_In.
  - intros (Hn & t & Hin & Hs & Hv). exists t. split.
    + apply filter_In. split; [by apply list_elem_of_In|].
      unfold suitIs, truthy. rewrite Hv, bool_decide_eq_true_2 by done. simpl.
      by apply negb_true_iff, Z.eqb_neq.
    + unfold valueIs. rewrite Hv. by apply Z.eqb_eq.
Qed.

Lemma permutation_three (x y z r : Z) :
  [x; y; z] ≡ₚ [r; (r + 1)%Z; (r + 2)%Z] ->
  (x = r /\ (y = r + 1 /\ z = r + 2 \/ y = r + 2 /\ z = r + 1))%Z
  \/ (x = r + 1 /\ (y = r /\ z = r + 2 \/ y = r + 2 /\ z = r))%Z
  \/ (x = r + 2 /\ (y = r /\ z = r + 1 \/ y = r + 1 /\ z = r))%Z.
Proof.
  intros Hp.
  assert (Hx : x ∈ [r; (r + 1)%Z; (r + 2)%Z]) by (rewrite <- Hp; repeat constructor).
  assert (Hy : y ∈ [r; (r + 1)%Z; (r + 2)%Z]) by (rewrite <- Hp; repeat constructor).
  assert (Hz : z ∈ [r; (r + 1)%Z; (r + 2)%Z]) by (rewrite <- Hp; repeat constructor).
  assert (H0 : r ∈ [x; y; z]) by (rewrite Hp; repeat constructor).
  assert (H1 : (r + 1)%Z ∈ [x; y; z]) by (rewrite Hp; repeat constructor).
  assert (H2 : (r + 2)%Z ∈ [x; y; z]) by (rewrite Hp; repeat constructor).
  rewrite !elem_of_cons, elem_of_nil in Hx, Hy, Hz, H0, H1, H2. lia.
Qed.

(** Decides the guards of the three patterns once the relevant membership
    tests are known. *)
Ltac decide_patterns :=
  repeat match goal with
         | |- context [Z.leb ?a ?b] => destruct (Z.leb_spec a b)
         end;
  simpl; try lia; try done;
  repeat match goal with
         | |- context [existsb ?f ?l] => destruct (existsb f l); simpl
         end;
  try done.

Lemma canFormSequence_spec (h : list Tile) (d : Tile) :
  wellFormedRank d ->
  canFormSequence h d = true <-> isNumberedSuit (suit d) = true /\ completesRun h d.
Proof.
  intros Hwf. unfold canFormSequence.
  destruct (isNumberedSuit (suit d)) eqn:Hnum; simpl; [|by split; [|intros [? _]]].
  destruct (Hwf Hnum) as (vd & Hvd & Hrange). rewrite Hvd.
  pose proof (existsb_suit_value (suit d) (vd + 1) h) as Hp1.
  pose proof (existsb_suit_value (suit d) (vd + 2) h) as Hp2.
  pose proof (existsb_suit_value (suit d) (vd - 1) h) as Hm1.
  pose proof (existsb_suit_value (suit d) (vd - 2) h) as Hm2.
  split.
  - intros Hcode. split; [done|].
    destruct (existsb (valueIs (vd + 1)) _) eqn:E1;
      destruct (existsb (valueIs (vd + 2)) _) eqn:E2;
      destruct (existsb (valueIs (vd - 1)) _) eqn:E3;
      destruct (existsb (valueIs (vd - 2)) _) eqn:E4;
      destruct (Z.leb_spec vd 7); destruct (Z.leb_spec 2 vd);
      destruct (Z.leb_spec vd 8); destruct (Z.leb_spec 3 vd);
      simpl in Hcode; try discriminate Hcode;
      repeat match goal with
             | H : true = true <-> _ |- _ => destruct (proj1 H eq_refl) as (_ & ? & ? & ? & ?); clear H
             | H : false = true <-> _ |- _ => clear H
             end;
      first
        [ match goal with
          | Ha : value ?a = Some (vd + 1)%Z, Hb : value ?b = Some (vd + 2)%Z |- _ =>
              exists a, b, (vd + 1)%Z, (vd + 2)%Z, vd, vd;
              split_and!; [done..|lia|lia|done]
          end
        | match goal with
          | Ha : value ?a = Some (vd - 1)%Z, Hb : value ?b = Some (vd + 1)%Z |- _ =>
              exists a, b, (vd - 1)%Z, (vd + 1)%Z, vd, (vd - 1)%Z;
              split_and!; [done..|lia|lia|];
              replace (vd - 1 + 1)%Z with vd by lia;
              replace (vd - 1 + 2)%Z with (vd + 1)%Z by lia; apply Permutation_swap
          end
        | match goal with
          | Ha : value ?a = Some (vd - 2)%Z, Hb : value ?b = Some (vd - 1)%Z |- _ =>
              exists a, b, (vd - 2)%Z, (vd - 1)%Z, vd, (vd - 2)%Z;
              split_and!; [done..|lia|lia|];
              replace (vd - 2 + 1)%Z with (vd - 1)%Z by lia;
              replace (vd - 2 + 2)%Z with vd by lia;
              etrans; [apply Permutation_swap|]; apply perm_skip, Permutation_swap
          end ].
  - intros (_ & a & b & va & vb & vd' & r & Ha & Hb & Hsa & Hsb & Hva & Hvb & Hvd' & Hr & Hperm).
    rewrite Hvd in Hvd'. injection Hvd' as <-.
    assert (Hhas : forall n, (n = va \/ n = vb) -> n <> 0%Z ->
              existsb (valueIs n)
                (List.filter (fun t => suitIs (suit d) t && truthy (value t)) h) = true).
    { intros n [-> | ->] Hn; apply existsb_suit_value; (split; [done|]);
        [exists a | exists b]; done. }
    apply permutation_three in Hperm.
    destruct Hperm as [(-> & Hc) | [(Hx & Hc) | (Hx & Hc)]].
    + rewrite (Hhas (r + 1)%Z), (Hhas (r + 2)%Z) by lia. decide_patterns.
    + replace (vd + 1)%Z with (r + 2)%Z by lia. replace (vd - 1)%Z with r by lia.
      rewrite (Hhas r), (Hhas (r + 2)%Z) by lia. decide_patterns.
    + replace (vd - 1)%Z with (r + 1)%Z by lia. replace (vd - 2)%Z with r by lia.
      rewrite (Hhas r), (Hhas (r + 1)%Z) by lia. decide_patterns.
Qed.

(** C7: a chow claim is valid exactly when there is an open discard of a
    numbered suit and the hand of the claimant holds two tiles that, together
    with the discard, form three consecutive ranks of that suit (the discard
    being the low, the middle or the high member of the run).  The last
    discard is a tile of the tile set (rank 1 to 9 when numbered).  The
    verdict does not look at the seat of the claimant relative to the
    discarder: it is the same whoever the current player is. *)
Theorem chow_claim_valid_iff (gs : GameState) (claim : ClaimAction) :
  claim_type claim = claim_chow ->
  (forall d, lastDiscard gs = Some d -> wellFormedRank d) ->
  (isValidClaim gs claim = Ok true
   <-> exists p d, findPlayer gs (claim_playerId claim) = Some p
                   /\ lastDiscard gs = Some d
                   /\ isNumberedSuit (suit d) = true
                   /\ completesRun (hand p) d)
  /\ (forall c : nat,
        isValidClaim (set_currentPlayer c gs) claim = isValidClaim gs claim).
Proof.
  intros Hty Hwf. split; [|done].
  unfold isValidClaim. rewrite Hty.
  destruct (findPlayer gs (claim_playerId claim)) as [p|] eqn:Hp;
    [|split; [done|by intros (? & ? & ? & _)]].
  destruct (lastDiscard gs) as [d|] eqn:Hd;
    [|split; [done|by intros (? & ? & _ & ? & _)]].
  split.
  - intros [= Hc]. apply canFormSequence_spec in Hc as [Hn Hrun]; [|by apply Hwf].
    by exists p, d.
  - intros (p' & d' & [= <-] & [= <-] & Hn & Hrun).
    f_equal. apply canFormSequence_spec; [by apply Hwf|done].
Qed.

Lemma chow_claim_valid_iff_witness :
  isValidClaim chowGame (mkClaim claim_chow "p1") = Ok true
  /\ (isValidClaim chowGame (mkClaim claim_chow "p1") = Ok true
      <-> exists p d, findPlayer chowGame "p1" = Some p
                      /\ lastDiscard chowGame = Some d
                      /\ isNumberedSuit (suit d) = true
                      /\ completesRun (hand p) d)
  /\ (forall c : nat,
        isValidClaim (set_currentPlayer c chowGame) (mkClaim claim_chow "p1")
        = isValidClaim chowGame (mkClaim claim_chow "p1")).
Proof.
  split; [reflexivity|].
  apply (chow_claim_valid_iff chowGame (mkClaim claim_chow "p1")); [reflexivity|].
  intros d [= <-] _. exists 1%Z. split; [reflexivity|lia].
Defined.

(** ** Discard scoring of the agent *)

Lemma evaluateSequencePotential_nonneg (tile : Tile) (h : list Tile) :
  (0 <= evaluateSequencePotential tile h)%Z.
Proof.
  unfold evaluateSequencePotential. cbv zeta.
  destruct (value tile); [|lia].
  destruct (_ || _); [lia|].
  repeat match goal with |- context [if ?b then _ else _] => destruct b end; lia.
Qed.

Lemma evaluateDangerLevel_upper (tile : Tile) (gs : GameState) :
  (evaluateDangerLevel tile gs
   <= (if isMiddleValue tile then 10 else 0)
      - (if isHonorSuit (suit tile) then 5 else 0))%Z.
Proof.
  unfold evaluateDangerLevel. cbv zeta.
  destruct (isMiddleValue tile); destruct (isHonorSuit (suit tile)); lia.
Qed.

(** The plain score of a tile is at most 25; at most 0 once another tile of
    the hand matches it. *)
Lemma evaluateDiscardValue_upper (tile : Tile) (player : Player) (gs : GameState) :
  (evaluateDiscardValue tile player gs <= 25)%Z
  /\ (1 <= othersMatching tile (hand player) ->
      (evaluateDiscardValue tile player gs <= 0)%Z).
Proof.
  unfold evaluateDiscardValue, othersMatching. cbv zeta.
  set (n := length (List.filter (fun t => tilesMatch t tile) _)).
  pose proof (evaluateSequencePotential_nonneg tile
                (List.filter (fun t => negb (sameId t tile)) (hand player))) as Hseq.
  pose proof (evaluateDangerLevel_upper tile gs) as Hdanger.
  split; [|intros Hn];
    destruct (isHonorSuit (suit tile));
    destruct (Nat.leb_spec 2 n); destruct (Nat.eqb_spec n 1);
    destruct (isNumberedSuit (suit tile) && truthy (value tile));
    destruct (valueIs 1 tile || valueIs 9 tile);
    destruct (isMiddleValue tile); lia.
Qed.

(** The conservative score of a tile is at least 30. *)
Lemma evaluateDiscardValueForWin_lower
    (tile : Tile) (player : Player) (gs : GameState) (analysis : WinningAnalysis) :
  (30 <= evaluateDiscardValueForWin tile player gs analysis)%Z.
Proof.
  unfold evaluateDiscardValueForWin. cbv zeta.
  set (n := length (List.filter _ (hand player))).
  pose proof (evaluateSequencePotential_nonneg tile
                (List.filter (fun t => negb (sameId t tile)) (hand player))) as Hseq.
  destruct (bestStrategy analysis);
    destruct (Nat.leb_spec 2 n); destruct (Nat.eqb_spec n 1); destruct (Nat.eqb_spec n 0);
    destruct (isNumberedSuit (suit tile) && truthy (value tile)); lia.
Qed.

(** C9: for every player, state, analysis and tile of the hand that has
    exactly one other matching tile in the hand (half of a pair) or two or more
    (part of a triplet), the conservative score [evaluateDiscardValueForWin] is
    strictly greater than the plain score [evaluateDiscardValue] of the same
    tile in the same state. *)
Theorem conservative_score_strictly_higher
    (tile : Tile) (player : Player) (gs : GameState) (analysis : WinningAnalysis) :
  tile ∈ hand player ->
  othersMatching tile (hand player) = 1 \/ 2 <= othersMatching tile (hand player) ->
  (evaluateDiscardValue tile player gs
   < evaluateDiscardValueForWin tile player gs analysis)%Z.
Proof.
  intros _ Hmatch.
  destruct (evaluateDiscardValue_upper tile player gs) as [_ Hup].
  pose proof (evaluateDiscardValueForWin_lower tile player gs analysis).
  assert (1 <= othersMatching tile (hand player)) as Hn by lia.
  specialize (Hup Hn). lia.
Qed.

Lemma conservative_score_strictly_higher_witness :
  (evaluateDiscardValue (windTile 0 east) pairHolder outOfTurnGame
   < evaluateDiscardValueForWin (windTile 0 east) pairHolder outOfTurnGame
       (mkAnalysis 2 [] pairs))%Z.
Proof.
  apply conservative_score_strictly_higher.
  - vm_compute. left.
  - left. reflexivity.
Defined.

(** ** Processing claims *)

(** What an accepted claim has done, by kind of claim. *)
Lemma processClaim_accept_inv (gs : GameState) (claim : ClaimAction) (gs' : GameState) :
  processClaim gs claim = Ok (gs', true) ->
  exists idx player d,
    claimantIndex gs claim = Some idx /\ players gs !! idx = Some player
    /\ lastDiscard gs = Some d
    /\ match claim_type claim with
       | claim_chow =>
           exists chowTiles,
             formChow (hand player) d = Some chowTiles
             /\ gs' = claimantToDiscard idx
                        (takeDiscardIntoMeld gs idx player d
                           (List.filter (fun tile => negb (sameId tile d)) chowTiles)
                           chow chowTiles)
       | claim_pung =>
           length (take 2 (matchingInHand player d)) = 2
           /\ gs' = claimantToDiscard idx
                      (recordAmbition
                         (takeDiscardIntoMeld gs idx player d
                            (take 2 (matchingInHand player d)) pung
                            (d :: take 2 (matchingInHand player d)))
                         (claim_playerId claim) kang 0.25%Q)
       | claim_kong =>
           length (take 3 (matchingInHand player d)) = 3
           /\ exists drawnState drawn,
                drawTile (takeDiscardIntoMeld gs idx player d
                            (take 3 (matchingInHand player d)) kong
                            (d :: take 3 (matchingInHand player d))) idx
                = Ok (drawnState, drawn)
                /\ gs' = claimantToDiscard idx
                           (recordAmbition drawnState (claim_playerId claim) kang 0.25%Q)
       | claim_win =>
           exists w,
             isWinningHand (hand player ++ [d]) (melds player) (flowers player) = Ok w
             /\ isValid w = true
             /\ gs' = foldl (fun g ambition =>
                               recordAmbition g (claim_playerId claim) ambition
                                 (getAmbitionPayout ambition))
                        (set_winner (Some idx) (set_status finished gs)) (ambitions w)
       end.
Proof.
  unfold processClaim, claimantIndex, matchingInHand.
  destruct (isValidClaim gs claim) as [[|]| |]; simpl; try done.
  destruct (findIndex _ (players gs)) as [idx|] eqn:Hidx; [|done].
  destruct (players gs !! idx) as [player|] eqn:Hplayer; [|done].
  destruct (lastDiscard gs) as [d|] eqn:Hd; [|by destruct (claim_type claim)].
  intros H. exists idx, player, d. split_and!; [done..|].
  destruct (claim_type claim).
  - destruct (formChow (hand player) d) as [chowTiles|]; [|done].
    injection H as <-. by exists chowTiles.
  - destruct (Nat.eqb_spec (length (take 2 (List.filter (fun t => tilesMatch t d)
                                                (hand player)))) 2); [|done].
    by injection H as <-.
  - destruct (Nat.eqb_spec (length (take 3 (List.filter (fun t => tilesMatch t d)
                                                (hand player)))) 3); [|done].
    split; [done|].
    destruct (drawTile _ idx) as [[drawnState drawn]| |]; simpl in H; [|done..].
    injection H as <-. by exists drawnState, drawn.
  - destruct (isWinningHand _ _ _) as [w| |]; simpl in H; [|done..].
    destruct (isValid w) eqn:Hw; [|done].
    injection H as <-. by exists w.
Qed.

(** A claim that is not accepted leaves the state as it was. *)
Lemma processClaim_reject_inv (gs : GameState) (claim : ClaimAction) (gs' : GameState) :
  processClaim gs claim = Ok (gs', false) -> gs' = gs.
Proof.
  unfold processClaim.
  destruct (isValidClaim gs claim) as [[|]| |]; simpl; try done; [|by intros [= <-]].
  destruct (findIndex _ (players gs)) as [idx|]; [|done].
  destruct (players gs !! idx) as [player|]; [|done].
  destruct (lastDiscard gs) as [d|]; [|by destruct (claim_type claim)].
  destruct (claim_type claim).
  - destruct (formChow (hand player) d); [done|by intros [= <-]].
  - destruct (_ =? _)%nat; [done|by intros [= <-]].
  - destruct (_ =? _)%nat; [|by intros [= <-]].
    by destruct (drawTile _ idx) as [[? ?]| |].
  - destruct (isWinningHand _ _ _) as [w| |]; simpl; [|done..].
    destruct (isValid w); [done|by intros [= <-]].
Qed.

Lemma recordAmbitions_frame (pid : string) (l : list AmbitionType) (g : GameState) :
  let g' := foldl (fun g ambition =>
                     recordAmbition g pid ambition (getAmbitionPayout ambition)) g l in
  players g' = players g /\ wall g' = wall g /\ flowerWall g' = flowerWall g
  /\ discardPile g' = discardPile g /\ lastDiscard g' = lastDiscard g
  /\ currentPlayer g' = currentPlayer g /\ phase g' = phase g
  /\ status g' = status g /\ winner g' = winner g
  /\ hasDrawnThisTurn g' = hasDrawnThisTurn g.
Proof.
  revert g. induction l as [|a l IH]; intros g; simpl; [done|].
  specialize (IH (recordAmbition g pid a (getAmbitionPayout a))). simpl in IH.
  destruct IH as (-> & -> & -> & -> & -> & -> & -> & -> & -> & ->). done.
Qed.

(** C2, as stated, fails for the win claim: an accepted win leaves the last
    discard in place.  In [winPendingGame] the win claim of player 1 is
    accepted and the red dragon is still the last discard afterwards. *)
Lemma accepted_win_keeps_lastDiscard :
  ~ (forall (gs gs' : GameState) (claim : ClaimAction),
       processClaim gs claim = Ok (gs', true) -> lastDiscard gs' = None).
Proof.
  intros H.
  destruct (processClaim winPendingGame (mkClaim claim_win "p1")) as [[gs' b]| |] eqn:E;
    vm_compute in E; try discriminate E.
  injection E as <- <-.
  specialize (H winPendingGame _ (mkClaim claim_win "p1") eq_refl).
  vm_compute in H. discriminate H.
Qed.

(** C2, amended: for every accepted chow, pung or kong claim the resulting
    state has the last discard cleared.  An accepted win claim consumes
    nothing: the last discard, the discard pile, the wall and the players are
    as before, and the game is finished with the claimant as winner. *)
Theorem accepted_claim_lastDiscard
    (gs gs' : GameState) (claim : ClaimAction) :
  processClaim gs claim = Ok (gs', true) ->
  (claim_type claim <> claim_win -> lastDiscard gs' = None)
  /\ (claim_type claim = claim_win ->
      lastDiscard gs' = lastDiscard gs /\ is_Some (lastDiscard gs)
      /\ discardPile gs' = discardPile gs /\ players gs' = players gs
      /\ wall gs' = wall gs /\ status gs' = finished
      /\ winner gs' = claimantIndex gs claim).
Proof.
  intros H.
  destruct (processClaim_accept_inv _ _ _ H) as (idx & player & d & Hidx & Hp & Hd & Hk).
  destruct (claim_type claim); (split; [intros Hne|intros Heq]); try done.
  - by destruct Hk as (c & _ & ->).
  - by destruct Hk as (_ & ->).
  - by destruct Hk as (_ & g & dr & _ & ->).
  - destruct Hk as (w & _ & _ & ->).
    pose proof (recordAmbitions_frame (claim_playerId claim) (ambitions w)
                  (set_winner (Some idx) (set_status finished gs))) as Hf.
    simpl in Hf. destruct Hf as (-> & -> & _ & -> & -> & _ & _ & -> & -> & _).
    rewrite Hd, Hidx. done.
Qed.

Lemma accepted_claim_lastDiscard_witness :
  processClaim kongPendingGame (mkClaim claim_kong "p2") = Ok (kongClaimedGame, true)
  /\ (claim_type (mkClaim claim_kong "p2") <> claim_win -> lastDiscard kongClaimedGame = None)
  /\ (claim_type (mkClaim claim_kong "p2") = claim_win ->
      lastDiscard kongClaimedGame = lastDiscard kongPendingGame
      /\ is_Some (lastDiscard kongPendingGame)
      /\ discardPile kongClaimedGame = discardPile kongPendingGame
      /\ players kongClaimedGame = players kongPendingGame
      /\ wall kongClaimedGame = wall kongPendingGame /\ status kongClaimedGame = finished
      /\ winner kongClaimedGame = claimantIndex kongPendingGame (mkClaim claim_kong "p2")).
Proof.
  split; [vm_compute; reflexivity|].
  apply (accepted_claim_lastDiscard kongPendingGame kongClaimedGame
           (mkClaim claim_kong "p2")).
  vm_compute. reflexivity.
Defined.

(** C8: for every accepted kong claim, the resulting state is the state with
    the new meld after exactly one call of [drawTile] for the claimant (the
    draw of a normal turn, bonus tiles skipped into the flowers), followed by
    the recording of the ambition.  When the wall held a regular tile, that
    tile, and no other, has entered the hand of the claimant; otherwise the
    wall is used up.  The claimant is the current player, the phase is
    [discard], and the current player stays the claimant through any further
    draw; only a discard of the claimant passes the turn on. *)
Theorem kong_claim_draws_once (gs gs' : GameState) (claim : ClaimAction) :
  claim_type claim = claim_kong ->
  processClaim gs claim = Ok (gs', true) ->
  exists idx player d drawnState drawn,
    claimantIndex gs claim = Some idx /\ players gs !! idx = Some player
    /\ lastDiscard gs = Some d
    /\ drawTile (takeDiscardIntoMeld gs idx player d
                   (take 3 (matchingInHand player d)) kong
                   (d :: take 3 (matchingInHand player d))) idx
       = Ok (drawnState, drawn)
    /\ gs' = claimantToDiscard idx
               (recordAmbition drawnState (claim_playerId claim) kang 0.25%Q)
    /\ match drawn with
       | Some t =>
           exists bonus t0 claimant,
             wall gs = bonus ++ t0 :: wall gs'
             /\ Forall (fun b => isBonus b = true) bonus
             /\ isBonus t0 = false /\ t = set_isRecentlyDrawn true t0
             /\ players gs' !! idx = Some claimant
             /\ hand claimant
                = (set_isRecentlyDrawn false
                     <$> removeAllById (take 3 (matchingInHand player d)) (hand player))
                  ++ [t]
             /\ flowers claimant = flowers player ++ bonus
       | None => Forall (fun b => isBonus b = true) (wall gs) /\ wall gs' = []
       end
    /\ currentPlayer gs' = idx /\ phase gs' = discard /\ hasDrawnThisTurn gs' = true
    /\ (forall j g r, drawTile gs' j = Ok (g, r) -> currentPlayer g = idx)
    /\ (forall tile g, discardTile gs' idx tile = Ok g ->
          g = gs' \/ (currentPlayer g = (idx + 1) mod 4 /\ phase g = draw)).
Proof.
  intros Hty H.
  destruct (processClaim_accept_inv _ _ _ H) as (idx & player & d & Hidx & Hp & Hd & Hk).
  rewrite Hty in Hk. destruct Hk as (Hlen & drawnState & drawn & Hdraw & ->).
  exists idx, player, d, drawnState, drawn.
  split_and!; try done.
  - destruct drawn as [t|].
    + apply drawTile_Some in Hdraw
        as (p & bonus & t0 & w' & Hp' & Hw & Hall & Ht0 & -> & ->).
      simpl in Hp', Hw.
      rewrite list_lookup_insert_eq in Hp' by (by eapply lookup_lt_Some).
      injection Hp' as <-.
      assert (idx < length (players gs)) as Hlt by (by eapply lookup_lt_Some).
      exists bonus, t0. eexists.
      split_and!;
        [done..
        |simpl; rewrite list_lookup_insert_eq by (by rewrite length_insert); reflexivity
        |reflexivity|reflexivity].
    + apply drawTile_None_inv in Hdraw as (_ & _ & _ & Hempty & Hfull).
      simpl in Hempty, Hfull.
      destruct (decide (wall gs = [])) as [Hw|Hw].
      * rewrite (Hempty Hw). simpl. rewrite Hw. split; [constructor|done].
      * destruct (Hfull Hw) as (p & _ & Hall & ->). split; [done|reflexivity].
  - intros j g r Hj. by apply drawTile_currentPlayer in Hj.
  - intros tile g. unfold discardTile. simpl.
    destruct (players drawnState !! idx) as [p|]; [|done].
    destruct (findIndex _ (hand p)); intros [= <-]; [right|left]; done.
Qed.

Lemma kong_claim_draws_once_witness :
  exists idx player d drawnState drawn,
    claimantIndex kongPendingGame (mkClaim claim_kong "p2") = Some idx
    /\ players kongPendingGame !! idx = Some player
    /\ lastDiscard kongPendingGame = Some d
    /\ drawTile (takeDiscardIntoMeld kongPendingGame idx player d
                   (take 3 (matchingInHand player d)) kong
                   (d :: take 3 (matchingInHand player d))) idx
       = Ok (drawnState, drawn)
    /\ kongClaimedGame
       = claimantToDiscard idx (recordAmbition drawnState "p2" kang 0.25%Q)
    /\ match drawn with
       | Some t =>
           exists bonus t0 claimant,
             wall kongPendingGame = bonus ++ t0 :: wall kongClaimedGame
             /\ Forall (fun b => isBonus b = true) bonus
             /\ isBonus t0 = false /\ t = set_isRecentlyDrawn true t0
             /\ players kongClaimedGame !! idx = Some claimant
             /\ hand claimant
                = (set_isRecentlyDrawn false
                     <$> removeAllById (take 3 (matchingInHand player d)) (hand player))
                  ++ [t]
             /\ flowers claimant = flowers player ++ bonus
       | None =>
           Forall (fun b => isBonus b = true) (wall kongPendingGame)
           /\ wall kongClaimedGame = []
       end
    /\ currentPlayer kongClaimedGame = idx /\ phase kongClaimedGame = discard
    /\ hasDrawnThisTurn kongClaimedGame = true
    /\ (forall j g r, drawTile kongClaimedGame j = Ok (g, r) -> currentPlayer g = idx)
    /\ (forall tile g, discardTile kongClaimedGame idx tile = Ok g ->
          g = kongClaimedGame \/ (currentPlayer g = (idx + 1) mod 4 /\ phase g = draw)).
Proof.
  apply (kong_claim_draws_once kongPendingGame kongClaimedGame (mkClaim claim_kong "p2")).
  - reflexivity.
  - vm_compute. reflexivity.
Defined.

(** ** The search for five trios and a pair *)

Lemma withoutIds_shorter (trio tiles : list Tile) (x : Tile) :
  x ∈ trio -> x ∈ tiles -> length (withoutIds trio tiles) < length tiles.
Proof.
  intros Htrio Htiles. unfold withoutIds.
  induction tiles as [|t tiles IH]; [by apply elem_of_nil in Htiles|].
  simpl. pose proof (filter_length_le
    (fun t => negb (existsb (fun x => sameId x t) trio)) tiles) as Hle.
  apply elem_of_cons in Htiles as [<-|Hin].
  - assert (existsb (fun y => sameId y x) trio = true) as ->.
    { apply existsb_exists. exists x. split; [by apply list_elem_of_In|].
      unfold sameId. apply Nat.eqb_refl. }
    simpl. lia.
  - specialize (IH Hin). destruct (negb _); simpl; lia.
Qed.

Lemma findTriplet_elem (tiles : list Tile) (i : nat) :
  length (findTriplet tiles i) = 3 ->
  exists x, x ∈ findTriplet tiles i /\ x ∈ tiles.
Proof.
  unfold findTriplet. destruct (tiles !! i) as [base|]; [|done].
  destruct (3 <=? _); [|done].
  destruct (take 3 _) as [|x l] eqn:E; [done|]. intros _.
  exists x. split; [left|].
  assert (x ∈ take 3 (List.filter (fun t => tilesMatch t base) tiles)) as Hx
    by (rewrite E; left).
  apply elem_of_take in Hx as (j & Hj & _). apply list_elem_of_lookup_2 in Hj.
  apply list_elem_of_In, filter_In in Hj as [Hj _]. by apply list_elem_of_In.
Qed.

Lemma findSequence_elem (tiles : list Tile) (i : nat) :
  length (findSequence tiles i) = 3 ->
  exists x, x ∈ findSequence tiles i /\ x ∈ tiles.
Proof.
  unfold findSequence. destruct (tiles !! i) as [base|] eqn:Hb; [|done].
  destruct (value base); [|done]. destruct (_ || _); [done|].
  destruct (List.find _ tiles); [|done]. destruct (List.find _ tiles); [|done].
  intros _. exists base. split; [left|]. by eapply list_elem_of_lookup_2.
Qed.

(** The bound on the recursion of [findTriosAndPair] is never reached: any
    larger bound gives the same result. *)
Lemma findTriosAndPair_rec_fuel (fuel1 fuel2 : nat) (tiles : list Tile) (needed : Z) :
  length tiles <= fuel1 -> length tiles <= fuel2 ->
  findTriosAndPair_rec fuel1 tiles needed = findTriosAndPair_rec fuel2 tiles needed.
Proof.
  revert fuel2 tiles needed.
  induction fuel1 as [|fuel1 IH]; intros fuel2 tiles needed H1 H2.
  - destruct tiles; [|simpl in H1; lia].
    destruct fuel2; simpl; by destruct (needed =? 0)%Z.
  - destruct fuel2 as [|fuel2].
    { destruct tiles; [|simpl in H2; lia]. simpl. by destruct (needed =? 0)%Z. }
    simpl. destruct (needed =? 0)%Z; [done|].
    destruct (length tiles <? 3); [done|].
    generalize (seq 0 (length tiles - 2)). intros indices.
    induction indices as [|i indices IHi]; [done|].
    assert (Htry : forall trio,
              (exists x, x ∈ trio /\ x ∈ tiles) ->
              findTriosAndPair_rec fuel1 (withoutIds trio tiles) (needed - 1)
              = findTriosAndPair_rec fuel2 (withoutIds trio tiles) (needed - 1)).
    { intros trio (x & Hx1 & Hx2).
      pose proof (withoutIds_shorter trio tiles x Hx1 Hx2).
      apply IH; lia. }
    destruct (Nat.eqb_spec (length (findTriplet tiles i)) 3) as [Ht|Ht];
      destruct (Nat.eqb_spec (length (findSequence tiles i)) 3) as [Hs|Hs];
      rewrite ?(Htry _ (findTriplet_elem _ _ Ht)), ?(Htry _ (findSequence_elem _ _ Hs));
      by rewrite IHi.
Qed.

(** ** Siete Pares *)

Lemma tileKey_matches (a b : Tile) :
  tile_flower a = None -> tile_season a = None ->
  tile_flower b = None -> tile_season b = None ->
  tilesMatch a b = true <-> tileKey a = tileKey b.
Proof.
  intros Hfa Hsa Hfb Hsb. unfold tilesMatch, tileKey.
  rewrite Hfa, Hsa, Hfb, Hsb, !andb_true_iff, !bool_decide_eq_true.
  split; [intros [[[[[-> ->] ->] ->] _] _]; done|intros [= -> -> -> ->]; done].
Qed.

Lemma tileCounts_keyCounts (h : list Tile) : tileCounts h = keyCounts (tileKey <$> h).
Proof.
  unfold tileCounts, keyCounts. generalize (@nil (TileKey * nat)).
  induction h as [|t h IH]; intros m; [done|]. simpl. apply IH.
Qed.

Lemma lookupCount_bump_eq (k : TileKey) (m : list (TileKey * nat)) :
  lookupCount k (bump k m) = S (lookupCount k m).
Proof.
  induction m as [|[k' n] m IH]; simpl.
  - by rewrite bool_decide_eq_true_2.
  - destruct (bool_decide (k' = k)) eqn:E; simpl; rewrite E; done.
Qed.

Lemma lookupCount_bump_ne (k k' : TileKey) (m : list (TileKey * nat)) :
  k <> k' -> lookupCount k' (bump k m) = lookupCount k' m.
Proof.
  intros Hne. induction m as [|[k0 n] m IH]; simpl.
  - by rewrite bool_decide_eq_false_2.
  - destruct (bool_decide (k0 = k)) eqn:E; simpl.
    + apply bool_decide_eq_true in E as ->. by rewrite bool_decide_eq_false_2.
    + by rewrite IH.
Qed.

Lemma bump_keys (k : TileKey) (m : list (TileKey * nat)) :
  m.*1 = (bump k m).*1 /\ k ∈ m.*1
  \/ (bump k m).*1 = m.*1 ++ [k] /\ k ∉ m.*1.
Proof.
  induction m as [|[k' n] m IH]; simpl.
  - right. split; [done|]. apply not_elem_of_nil.
  - destruct (bool_decide (k' = k)) eqn:E; simpl.
    + apply bool_decide_eq_true in E as ->. left. split; [done|left].
    + apply bool_decide_eq_false in E.
      destruct IH as [[Heq Hin]|[Heq Hnin]].
      * left. split; [by f_equal|by right].
      * right. split; [by f_equal|].
        intros Hc. apply elem_of_cons in Hc as [->|Hc]; done.
Qed.

Lemma keyCounts_spec (ks : list TileKey) (m : list (TileKey * nat)) :
  NoDup m.*1 ->
  let m' := foldl (fun m k => bump k m) m ks in
  NoDup m'.*1
  /\ (forall k, k ∈ m'.*1 <-> k ∈ m.*1 \/ k ∈ ks)
  /\ (forall k, lookupCount k m' = lookupCount k m + count_occ TileKey_eq_dec ks k).
Proof.
  revert m. induction ks as [|k0 ks IH]; intros m Hnd; simpl.
  - split_and!; [done| |intros; lia].
    intros k. split; [by left|]. intros [?|Hk]; [done|by apply elem_of_nil in Hk].
  - assert (NoDup (bump k0 m).*1) as Hnd'.
    { destruct (bump_keys k0 m) as [[<- _]|[-> Hnin]]; [done|].
      apply NoDup_app. split_and!; [done| |apply NoDup_singleton].
      intros x Hx Hx'. apply list_elem_of_singleton in Hx' as ->. done. }
    destruct (IH _ Hnd') as (H1 & H2 & H3). split_and!; [done| |].
    + intros k. rewrite H2, elem_of_cons.
      destruct (bump_keys k0 m) as [[<- Hin]|[-> Hnin]].
      * split; [tauto|]. intros [?|[->|?]]; tauto.
      * rewrite elem_of_app, list_elem_of_singleton. tauto.
    + intros k. rewrite H3. destruct (TileKey_eq_dec k0 k) as [->|Hne].
      * rewrite lookupCount_bump_eq. lia.
      * rewrite lookupCount_bump_ne by done. lia.
Qed.

Lemma counts_by_lookup (m : list (TileKey * nat)) :
  NoDup m.*1 -> m.*2 = (fun k => lookupCount k m) <$> m.*1.
Proof.
  induction m as [|[k n] m IH]; [done|]. intros Hnd.
  apply NoDup_cons in Hnd as [Hk Hnd]. csimpl.
  rewrite bool_decide_eq_true_2 by done. f_equal.
  rewrite IH by done. apply list_fmap_ext. intros i k' Hk'.
  rewrite bool_decide_eq_false_2; [done|].
  intros ->. apply Hk. by eapply list_elem_of_lookup_2.
Qed.

Lemma count_occ_pairs (ks2 : list TileKey) (k : TileKey) :
  NoDup ks2 ->
  count_occ TileKey_eq_dec (k' ← ks2; [k'; k']) k = if decide (k ∈ ks2) then 2 else 0.
Proof.
  induction ks2 as [|k0 ks2 IH]; intros Hnd.
  - destruct (decide (k ∈ [])) as [H|]; [by apply elem_of_nil in H|done].
  - apply NoDup_cons in Hnd as [Hk0 Hnd]. specialize (IH Hnd).
    change (k' ← k0 :: ks2; [k'; k']) with (k0 :: k0 :: (k' ← ks2; [k'; k'])).
    destruct (TileKey_eq_dec k0 k) as [->|Hne].
    + rewrite !count_occ_cons_eq, IH by done.
      rewrite (decide_False (P := k ∈ ks2)) by done.
      rewrite decide_True by left. done.
    + rewrite !count_occ_cons_neq, IH by done.
      destruct (decide (k ∈ ks2)) as [Hin|Hnin].
      * rewrite decide_True by (by right). done.
      * rewrite decide_False; [done|].
        intros Hc. apply elem_of_cons in Hc as [->|Hc]; done.
Qed.

Lemma length_pairs (ks2 : list TileKey) :
  length (k ← ks2; [k; k]) = 2 * length ks2.
Proof. induction ks2 as [|k ks2 IH]; csimpl; [done|]. rewrite IH. lia. Qed.

Lemma sortDesc_unique (l sorted : list nat) :
  l ≡ₚ sorted -> Sorted (flip le) sorted -> sortDesc l = sorted.
Proof.
  intros Hperm Hsorted. unfold sortDesc.
  assert (Transitive (flip le)) by (intros x y z; unfold flip; lia).
  assert (AntiSymm (=) (flip le)) by (intros x y; unfold flip; lia).
  assert (Total (flip le)) by (intros x y; unfold flip; lia).
  apply (Sorted_unique (flip le)); [by apply Sorted_merge_sort|done|].
  by rewrite merge_sort_Permutation.
Qed.

(** The sorted counts of a hand of seven pairs and a triplet. *)
Lemma sevenPairsAndTriplet_counts (h : list Tile) :
  sevenPairsAndTriplet h ->
  length h = 17 /\ sortDesc (tileCounts h).*2 = [3; 2; 2; 2; 2; 2; 2; 2].
Proof.
  intros (k3 & ks2 & Hlen & Hnd & Hperm).
  apply NoDup_cons in Hnd as [Hk3 Hnd2].
  split.
  - rewrite <- (length_fmap tileKey), Hperm. simpl. rewrite length_pairs. lia.
  - rewrite tileCounts_keyCounts.
    destruct (keyCounts_spec (tileKey <$> h) [] (NoDup_nil_2)) as (Hn & Hkeys & Hcount).
    fold (keyCounts (tileKey <$> h)) in Hn, Hkeys, Hcount.
    set (m := keyCounts (tileKey <$> h)) in *.
    assert (Hocc : forall k, lookupCount k m
                   = if decide (k = k3) then 3 else if decide (k ∈ ks2) then 2 else 0).
    { intros k. rewrite Hcount. simpl.
      rewrite (proj1 (Permutation_count_occ TileKey_eq_dec _ _) Hperm k).
      rewrite count_occ_app, (count_occ_pairs _ _ Hnd2). simpl.
      destruct (decide (k = k3)) as [->|Hne].
      - destruct (TileKey_eq_dec k3 k3); [|done].
        by rewrite decide_False.
      - destruct (TileKey_eq_dec k3 k); [by subst|]. done. }
    assert (Hkperm : m.*1 ≡ₚ k3 :: ks2).
    { apply NoDup_Permutation; [done|by apply NoDup_cons|].
      intros k. rewrite Hkeys, Hperm, elem_of_cons, elem_of_app, list_elem_of_bind.
      split.
      - intros [Hk|[Hk|(y & Hy & Hin)]]; [by apply elem_of_nil in Hk| |].
        + rewrite !elem_of_cons, elem_of_nil in Hk. left. tauto.
        + rewrite !elem_of_cons, elem_of_nil in Hy. right.
          destruct Hy as [->|[->|?]]; done.
      - intros [->|Hk]; [right; left; left|].
        right. right. exists k. split; [left|done]. }
    apply sortDesc_unique; [|repeat constructor].
    rewrite (counts_by_lookup m Hn), Hkperm. csimpl.
    rewrite Hocc, decide_True by done. apply Permutation_skip.
    assert (forall l, l ⊆ ks2 ->
              (fun k => lookupCount k m) <$> l = replicate (length l) 2) as Hrep.
    { induction l as [|k l IHl]; intros Hsub; [done|]. csimpl.
      rewrite IHl by (intros x Hx; apply Hsub; by right). f_equal.
      assert (k ∈ ks2) as Hk by (apply Hsub; left).
      rewrite Hocc, decide_False, decide_True; [done..|].
      intros ->. done. }
    rewrite (Hrep ks2) by done. rewrite Hlen. done.
Qed.

(** C5: every 17-tile hand without formed melds that consists of seven pairs
    of distinct tile identities plus one triplet of an eighth identity is
    accepted by [isWinningHand] as Siete Pares, with the ambitions exactly
    [todas; siete_pares] and a total payout of exactly 1.5, whatever the
    flower collection: none of the bonus checks of a standard win (Escalera,
    No Flowers End, All Up) contributes. *)
Theorem siete_pares_accepted (h : list Tile) (fl : list Tile) :
  sevenPairsAndTriplet h ->
  isWinningHand h [] fl
  = Ok (mkWin true "Siete Pares" [todas; siete_pares] 1.5%Q
          [("Basic Win"%string, 1%Q); ("Siete Pares"%string, 0.5%Q)]).
Proof.
  intros Hh. destruct (sevenPairsAndTriplet_counts h Hh) as [Hlen Hcounts].
  unfold isWinningHand. simpl. rewrite Hlen. simpl.
  unfold isSietePares. rewrite Hlen. simpl.
  replace (map snd (tileCounts h)) with (tileCounts h).*2 by done.
  rewrite Hcounts. reflexivity.
Qed.

Lemma siete_pares_accepted_witness :
  isWinningHand sietePareHand [] []
  = Ok (mkWin true "Siete Pares" [todas; siete_pares] 1.5%Q
          [("Basic Win"%string, 1%Q); ("Siete Pares"%string, 0.5%Q)]).
Proof.
  apply siete_pares_accepted.
  exists (winds, None, Some north, None),
    [(circles, Some 1%Z, None, None); (circles, Some 2%Z, None, None);
     (bamboos, Some 7%Z, None, None); (characters, Some 9%Z, None, None);
     (dragons, None, None, Some green); (winds, None, Some east, None);
     (dragons, None, None, Some white)].
  split; [reflexivity|].
  split; apply (bool_decide_unpack _); vm_compute; exact I.
Defined.

(** *** The search is sound *)

Lemma tilesMatch_sym (a b : Tile) : tilesMatch a b = true -> tilesMatch b a = true.
Proof.
  unfold tilesMatch. rewrite !andb_true_iff, !bool_decide_eq_true.
  intros [[[[[-> ->] ->] ->] ->] ->]. done.
Qed.

Lemma tilesMatch_trans (a b c : Tile) :
  tilesMatch a b = true -> tilesMatch b c = true -> tilesMatch a c = true.
Proof.
  unfold tilesMatch. rewrite !andb_true_iff, !bool_decide_eq_true.
  intros [[[[[-> ->] ->] ->] ->] ->] [[[[[-> ->] ->] ->] ->] ->]. done.
Qed.

(** With unique instance ids, removing a trio by id removes exactly its tiles. *)
Lemma withoutIds_perm (trio tiles : list Tile) :
  NoDup (idsOf tiles) -> NoDup trio -> (forall x, x ∈ trio -> x ∈ tiles) ->
  tiles ≡ₚ trio ++ withoutIds trio tiles.
Proof.
  intros Hids Htrio Hsub.
  assert (NoDup tiles) as Hnd by (by apply (NoDup_fmap_1 tile_id)).
  set (f := fun t => existsb (fun x => sameId x t) trio).
  rewrite <- (filter_partition f tiles) at 1. apply Permutation_app; [|done].
  apply NoDup_Permutation; [|done|].
  - eapply sublist_NoDup; [done|apply filter_sublist].
  - intros x. rewrite list_elem_of_In, filter_In, <- list_elem_of_In.
    unfold f. rewrite existsb_exists. split.
    + intros (Hx & y & Hy & Hid). apply list_elem_of_In in Hy.
      unfold sameId in Hid. apply Nat.eqb_eq in Hid.
      assert (y = x) as <-; [|done].
      apply list_elem_of_lookup in Hx as [i Hi].
      destruct (proj1 (list_elem_of_lookup _ _) (Hsub y Hy)) as [j Hj].
      assert (j = i) as ->.
      { eapply NoDup_lookup; [exact Hids|..]; unfold idsOf;
          rewrite list_lookup_fmap; [by rewrite Hj|by rewrite Hi, Hid]. }
      congruence.
    + intros Hx. split; [by apply Hsub|]. exists x.
      split; [by apply list_elem_of_In|]. unfold sameId. apply Nat.eqb_refl.
Qed.

Lemma withoutIds_NoDup (trio tiles : list Tile) :
  NoDup (idsOf tiles) -> NoDup (idsOf (withoutIds trio tiles)).
Proof.
  intros H. eapply sublist_NoDup; [exact H|].
  unfold idsOf. apply fmap_sublist, filter_sublist.
Qed.

Lemma findTriplet_trio (tiles : list Tile) (i : nat) :
  NoDup tiles -> length (findTriplet tiles i) = 3 ->
  exists a b c, findTriplet tiles i = [a; b; c] /\ isTrio a b c
                /\ NoDup [a; b; c] /\ forall x, x ∈ [a; b; c] -> x ∈ tiles.
Proof.
  intros Hnd. unfold findTriplet. destruct (tiles !! i) as [base|]; [|done].
  destruct (3 <=? _); [|done].
  pose proof (sublist_take (List.filter (fun t => tilesMatch t base) tiles) 3) as Hsub.
  destruct (take 3 _) as [|a [|b [|c [|? ?]]]] eqn:E; try done. intros _.
  assert (Hin : forall x, x ∈ [a; b; c] -> x ∈ tiles /\ tilesMatch x base = true).
  { intros x Hx. eapply elem_of_submseteq in Hx; [|by apply sublist_submseteq].
    apply list_elem_of_In, filter_In in Hx as [Hx ?]. by rewrite list_elem_of_In. }
  destruct (Hin a) as [_ Ha]; [left|].
  destruct (Hin b) as [_ Hb]; [right; left|].
  destruct (Hin c) as [_ Hc]; [right; right; left|].
  exists a, b, c. split_and!; [done| | |by intros x [? _]%Hin].
  - left. split; (eapply tilesMatch_trans; [|by apply tilesMatch_sym]); done.
  - eapply sublist_NoDup; [|exact Hsub].
    eapply sublist_NoDup; [done|apply filter_sublist].
Qed.

Lemma findSequence_trio (tiles : list Tile) (i : nat) :
  length (findSequence tiles i) = 3 ->
  exists a b c, findSequence tiles i = [a; b; c] /\ isTrio a b c
                /\ NoDup [a; b; c] /\ forall x, x ∈ [a; b; c] -> x ∈ tiles.
Proof.
  unfold findSequence. destruct (tiles !! i) as [base|] eqn:Hb; [|done].
  destruct (value base) as [v|] eqn:Hv; [|done].
  destruct (isNumberedSuit (suit base)) eqn:Hnum; [|done]. simpl.
  destruct (negb _); [done|].
  destruct (List.find (fun t => suitIs (suit base) t && valueIs (v + 1) t) tiles)
    as [n1|] eqn:E1; [|done].
  destruct (List.find (fun t => suitIs (suit base) t && valueIs (v + 2) t) tiles)
    as [n2|] eqn:E2; [|done]. intros _.
  apply find_some in E1 as [Hn1 H1]. apply find_some in E2 as [Hn2 H2].
  apply andb_prop in H1 as [Hs1 Hv1]. apply andb_prop in H2 as [Hs2 Hv2].
  unfold suitIs in Hs1, Hs2. apply bool_decide_eq_true in Hs1, Hs2.
  unfold valueIs in Hv1, Hv2.
  destruct (value n1) as [v1|] eqn:Ev1; [|done].
  destruct (value n2) as [v2|] eqn:Ev2; [|done].
  apply Z.eqb_eq in Hv1 as ->. apply Z.eqb_eq in Hv2 as ->.
  exists base, n1, n2. split_and!; [done| | |].
  - right. split_and!; [done..|]. by exists v.
  - repeat (apply NoDup_cons; split); [| |apply not_elem_of_nil|apply NoDup_nil_2].
    + intros Hx. apply elem_of_cons in Hx as [->|Hx]; [rewrite Hv in Ev1; injection Ev1; lia|].
      apply list_elem_of_singleton in Hx as ->. rewrite Hv in Ev2. injection Ev2. lia.
    + intros Hx. apply list_elem_of_singleton in Hx as ->.
      rewrite Ev1 in Ev2. injection Ev2. lia.
  - intros x Hx. apply elem_of_cons in Hx as [->|Hx]; [by eapply list_elem_of_lookup_2|].
    apply elem_of_cons in Hx as [->|Hx]; [by apply list_elem_of_In|].
    apply list_elem_of_singleton in Hx as ->. by apply list_elem_of_In.
Qed.

(** Whatever [findTriosAndPair] accepts can be partitioned as required, when
    the instance ids of the tiles are unique. *)
Lemma findTriosAndPair_rec_sound (fuel : nat) (tiles : list Tile) (needed : Z)
    (r : list (list Tile) * list Tile) :
  NoDup (idsOf tiles) ->
  findTriosAndPair_rec fuel tiles needed = Some r ->
  (0 <= needed)%Z /\ decomposes (Z.to_nat needed) tiles.
Proof.
  revert tiles needed r. induction fuel as [|fuel IH]; intros tiles needed r Hids.
  - simpl. destruct (Z.eqb_spec needed 0) as [->|Hne].
    + destruct tiles as [|a [|b [|? ?]]]; try done.
      destruct (tilesMatch a b) eqn:Hm; [|done]. intros _.
      split; [lia|]. by apply (decomposes_pair a b).
    + by destruct (length tiles <? 3).
  - simpl. destruct (Z.eqb_spec needed 0) as [->|Hne].
    + destruct tiles as [|a [|b [|? ?]]]; try done.
      destruct (tilesMatch a b) eqn:Hm; [|done]. intros _.
      split; [lia|]. by apply (decomposes_pair a b).
    + destruct (length tiles <? 3); [done|].
      assert (Htry : forall a b c,
                isTrio a b c -> NoDup [a; b; c] -> (forall x, x ∈ [a; b; c] -> x ∈ tiles) ->
                forall r', findTriosAndPair_rec fuel (withoutIds [a; b; c] tiles) (needed - 1)
                           = Some r' ->
                (0 <= needed)%Z /\ decomposes (Z.to_nat needed) tiles).
      { intros a b c Htrio Hnd Hsub r' Hr'.
        apply IH in Hr' as [Hge Hdec]; [|by apply withoutIds_NoDup].
        split; [lia|]. replace (Z.to_nat needed) with (S (Z.to_nat (needed - 1))) by lia.
        eapply (decomposes_trio _ a b c); [|done|exact Hdec].
        by apply (withoutIds_perm [a; b; c]). }
      assert (NoDup tiles) as Hndt by (by apply (NoDup_fmap_1 tile_id)).
      generalize (seq 0 (length tiles - 2)). intros indices.
      induction indices as [|i indices IHi]; [done|].
      destruct (Nat.eqb_spec (length (findTriplet tiles i)) 3) as [Ht|Ht].
      * destruct (findTriplet_trio tiles i Hndt Ht) as (a & b & c & -> & Htrio & Hnd & Hsub).
        destruct (findTriosAndPair_rec fuel (withoutIds [a; b; c] tiles) (needed - 1))
          as [[trios thePair]|] eqn:Hrec; [intros _; by eapply Htry|].
        destruct (Nat.eqb_spec (length (findSequence tiles i)) 3) as [Hs|Hs]; [|done].
        destruct (findSequence_trio tiles i Hs) as (a' & b' & c' & -> & Htrio' & Hnd' & Hsub').
        destruct (findTriosAndPair_rec fuel (withoutIds [a'; b'; c'] tiles) (needed - 1))
          as [[trios' thePair']|] eqn:Hrec'; [intros _; by eapply Htry|done].
      * destruct (Nat.eqb_spec (length (findSequence tiles i)) 3) as [Hs|Hs]; [|done].
        destruct (findSequence_trio tiles i Hs) as (a' & b' & c' & -> & Htrio' & Hnd' & Hsub').
        destruct (findTriosAndPair_rec fuel (withoutIds [a'; b'; c'] tiles) (needed - 1))
          as [[trios' thePair']|] eqn:Hrec'; [intros _; by eapply Htry|done].
Qed.

(** What [checkStandardWin] accepts is a standard win: with unique instance
    ids, an accepted hand can be partitioned into the missing trios and a
    pair.  Only the converse fails (below). *)
Lemma checkStandardWin_sound (h : list Tile) (ms : list Meld) :
  NoDup (idsOf h) -> (checkStandardWin h ms).1 = true ->
  length ms <= 5 /\ decomposes (5 - length ms) h.
Proof.
  intros Hids. unfold checkStandardWin, findWinningCombination, findTriosAndPair.
  destruct (findTriosAndPair_rec _ _ _) as [r|] eqn:Hr; [|done]. intros _.
  apply findTriosAndPair_rec_sound in Hr as [Hge Hdec]; [|done].
  split; [lia|]. replace (5 - length ms) with (Z.to_nat (5 - Z.of_nat (length ms))) by lia.
  done.
Qed.

(** ** The standard win search depends on the order of the tiles *)

Lemma decomposes_lowTileLastHand : decomposes 5 lowTileLastHand.
Proof.
  unfold lowTileLastHand, windTriplets. simpl.
  eapply (decomposes_trio 4 (windTile 0 east) (windTile 1 east) (windTile 2 east));
    [reflexivity|by left|].
  eapply (decomposes_trio 3 (windTile 3 south) (windTile 4 south) (windTile 5 south));
    [reflexivity|by left|].
  eapply (decomposes_trio 2 (windTile 6 west) (windTile 7 west) (windTile 8 west));
    [reflexivity|by left|].
  eapply (decomposes_trio 1 (windTile 9 north) (windTile 10 north) (windTile 11 north));
    [reflexivity|by left|].
  eapply (decomposes_trio 0 (numberTile 16 circles 1) (numberTile 12 circles 2)
            (numberTile 13 circles 3) [dragonTile 14 red; dragonTile 15 red]).
  - apply (bool_decide_unpack _). vm_compute. exact I.
  - right. split_and!; [done..|]. by exists 1%Z.
  - by apply (decomposes_pair (dragonTile 14 red) (dragonTile 15 red)).
Qed.

(** C3 (standard-win detection accepts exactly the hands that can be
    partitioned into the missing trios and a pair, whatever the order of the
    tiles) is violated by the code.  [lowTileLastHand] is a 17-tile candidate
    that can be partitioned into five trios and a pair, and [checkStandardWin]
    rejects it: the scan of [findTriosAndPair] stops two positions before the end of
    the array, so a run whose lowest tile sits in the last two positions is
    never tried.  The same tiles with the 1 of circles moved in front of
    the 2 and 3 are accepted, so the verdict depends on the order of the
    tiles.  The rejected order is the one [isValidClaim] builds for a win
    claim: the hand followed by the claimed discard. *)
Theorem standard_win_depends_on_tile_order :
  length lowTileLastHand = 17
  /\ decomposes 5 lowTileLastHand
  /\ checkStandardWin lowTileLastHand [] = (false, ""%string)
  /\ isWinningHand lowTileLastHand [] [] = Ok invalidWin
  /\ lowTileFirstHand ≡ₚ lowTileLastHand
  /\ checkStandardWin lowTileFirstHand [] = (true, "Standard Win"%string)
  /\ isValidClaim lowTileClaimGame (mkClaim claim_win "p1") = Ok false.
Proof.
  split_and!.
  - reflexivity.
  - exact decomposes_lowTileLastHand.
  - vm_compute. reflexivity.
  - vm_compute. reflexivity.
  - apply (bool_decide_unpack _). vm_compute. exact I.
  - vm_compute. reflexivity.
  - vm_compute. reflexivity.
Qed.

(** ** Tile conservation *)

Lemma noShuffle_fair : fairRandomness noShuffle.
Proof. split_and!; simpl; try done. lia. Qed.

Lemma openingGame_reachable : reachable openingGame.
Proof.
  apply (reachable_initial noShuffle fourPlayers); [apply noShuffle_fair|].
  vm_compute. reflexivity.
Qed.

Lemma openingKong_reachable : reachable openingKong.
Proof.
  apply (reachable_step openingDiscarded).
  - apply (reachable_step openingGame); [apply openingGame_reachable|].
    apply (step_discardTile _ _ 0 (numberTile 0 circles 1)). vm_compute. reflexivity.
  - apply (step_processClaim _ _ (mkClaim claim_kong "p0") true).
    vm_compute. reflexivity.
Qed.

(** C1, as stated, fails.  Right after [initializeGame] the sum of the claim is
    136, not 144: the eight bonus tiles are set aside in the flower wall, which
    the sum leaves out. *)
Lemma claimed_total_is_not_144 :
  ~ (forall gs, reachable gs -> claimedTotal gs = 144).
Proof.
  intros H. specialize (H openingGame openingGame_reachable).
  vm_compute in H. discriminate H.
Qed.

(** Nor is the sum of the claim constant over the reachable states: a claimed
    discard stays in the discard list of the player who discarded it, so each
    accepted chow, pung or kong claim adds one to it. *)
Lemma claimed_total_not_constant :
  reachable openingGame /\ claimedTotal openingGame = 136
  /\ reachable openingKong /\ claimedTotal openingKong = 137.
Proof.
  split_and!; [apply openingGame_reachable|vm_compute; reflexivity
              |apply openingKong_reachable|vm_compute; reflexivity].
Qed.

Lemma idsOf_app (l1 l2 : list Tile) : idsOf (l1 ++ l2) = idsOf l1 ++ idsOf l2.
Proof. apply fmap_app. Qed.

Lemma idsOf_clear (b : bool) (l : list Tile) : idsOf (set_isRecentlyDrawn b <$> l) = idsOf l.
Proof. unfold idsOf. rewrite <- list_fmap_compose. by apply list_fmap_ext. Qed.

Lemma idsOf_elem (t : Tile) (l : list Tile) : t ∈ l -> tile_id t ∈ idsOf l.
Proof. intros H. unfold idsOf. apply list_elem_of_fmap. by exists t. Qed.

(** Replacing the player at an index changes the ids held by the players by
    the ids of that player only. *)
Lemma players_insert_ids (ps : list Player) (i : nat) (p : Player) :
  ps !! i = Some p ->
  exists others,
    ps ≫= playerIds ≡ₚ playerIds p ++ others
    /\ forall p', <[i := p']> ps ≫= playerIds ≡ₚ playerIds p' ++ others.
Proof.
  intros Hp. exists ((take i ps ≫= playerIds) ++ (drop (S i) ps ≫= playerIds)).
  split.
  - rewrite <- (take_drop_middle ps i p Hp) at 1.
    rewrite bind_app, bind_cons. solve_Permutation.
  - intros p'. rewrite insert_take_drop by (by eapply lookup_lt_Some).
    rewrite bind_app, bind_cons. solve_Permutation.
Qed.

Lemma removeById_ids (x : Tile) (l : list Tile) :
  tile_id x ∈ idsOf l -> idsOf l ≡ₚ tile_id x :: idsOf (removeById x l).
Proof.
  intros Hin. unfold removeById.
  destruct (findIndex (fun t => sameId t x) l) as [i|] eqn:Hi.
  - destruct (findIndex_Some _ _ _ Hi) as (y & Hy & Hid & _).
    unfold sameId in Hid. apply Nat.eqb_eq in Hid. rewrite <- Hid.
    unfold idsOf. rewrite (delete_Permutation l i y Hy) at 1. done.
  - apply list_elem_of_fmap in Hin as (y & Hid & Hy).
    rewrite findIndex_None in Hi. specialize (Hi y Hy).
    unfold sameId in Hi. apply Nat.eqb_neq in Hi. done.
Qed.

Lemma removeAllById_ids (xs l : list Tile) :
  idsOf xs ⊆+ idsOf l -> idsOf l ≡ₚ idsOf xs ++ idsOf (removeAllById xs l).
Proof.
  revert l. induction xs as [|x xs IH]; intros l Hsub; [done|].
  simpl in *. change (removeAllById (x :: xs) l) with (removeAllById xs (removeById x l)).
  assert (tile_id x ∈ idsOf l) as Hx.
  { eapply elem_of_submseteq; [|exact Hsub]. left. }
  pose proof (removeById_ids x l Hx) as Hperm.
  rewrite Hperm in Hsub. apply (submseteq_app_inv_l _ _ [tile_id x]) in Hsub.
  rewrite Hperm at 1. by rewrite <- (IH _ Hsub).
Qed.

Lemma matching_ids_in_hand (n : nat) (player : Player) (d : Tile) :
  idsOf (take n (matchingInHand player d)) ⊆+ idsOf (hand player).
Proof.
  unfold idsOf. apply fmap_submseteq, sublist_submseteq.
  etrans; [apply sublist_take|apply filter_sublist].
Qed.

(** Brings the ids of a state into a form where only concatenations of atoms
    remain, then lets the permutation solver compare both sides. *)
Ltac ids_normal :=
  unfold allIds, playerIds, idsOf in *; simpl in *;
  repeat (rewrite fmap_app in * || rewrite fmap_cons in * || rewrite bind_app in *
          || rewrite bind_cons in *
          || rewrite (idsOf_clear : forall b l, tile_id <$> (set_isRecentlyDrawn b <$> l) = tile_id <$> l) in * );
  simpl in *.

Lemma drawTile_ids (g g' : GameState) (i : nat) (r : option Tile) :
  drawTile g i = Ok (g', r) ->
  allIds g' ≡ₚ allIds g /\ lastDiscard g' = lastDiscard g
  /\ discardPile g' = discardPile g.
Proof.
  intros H. destruct r as [t|].
  - apply drawTile_Some in H as (p & bonus & t0 & w' & Hp & Hw & _ & _ & -> & ->).
    destruct (players_insert_ids _ _ _ Hp) as (others & Hold & Hnew).
    split_and!; [|done..].
    unfold allIds. simpl. rewrite Hw, Hold, Hnew.
    ids_normal. solve_Permutation.
  - apply drawTile_None_inv in H as (_ & _ & _ & Hempty & Hfull).
    destruct (decide (wall g = [])) as [Hw|Hw]; [by rewrite (Hempty Hw)|].
    destruct (Hfull Hw) as (p & Hp & _ & ->).
    destruct (players_insert_ids _ _ _ Hp) as (others & Hold & Hnew).
    split_and!; [|done..].
    unfold allIds. simpl. rewrite Hold, Hnew.
    ids_normal. solve_Permutation.
Qed.

Lemma discardTile_ids (g g' : GameState) (i : nat) (tile : Tile) :
  discardTile g i tile = Ok g' ->
  g' = g
  \/ (allIds g' ≡ₚ allIds g
      /\ exists d, lastDiscard g' = Some d /\ tile_id d ∈ idsOf (discardPile g')).
Proof.
  unfold discardTile. destruct (players g !! i) as [p|] eqn:Hp; [|done].
  destruct (findIndex _ (hand p)) as [k|] eqn:Hk; intros [= <-]; [right|by left].
  destruct (findIndex_Some _ _ _ Hk) as (y & Hy & Hid & _).
  unfold sameId in Hid. apply Nat.eqb_eq in Hid.
  destruct (players_insert_ids _ _ _ Hp) as (others & Hold & Hnew).
  split.
  - unfold allIds. simpl. rewrite Hold, Hnew.
    pose proof (clearedThrough_id (hand p) tile) as Hsame.
    assert (tile_id <$> hand p
            ≡ₚ tile_id tile :: (tile_id <$> delete k (set_isRecentlyDrawn false <$> hand p)))
      as Hhand.
    { rewrite <- (idsOf_clear false (hand p)) at 1. unfold idsOf.
      rewrite (delete_Permutation (set_isRecentlyDrawn false <$> hand p) k
                 (set_isRecentlyDrawn false y)) at 1
        by (by rewrite list_lookup_fmap, Hy).
      simpl. by rewrite Hid. }
    ids_normal. simpl. rewrite Hsame, Hhand. solve_Permutation.
  - eexists. split; [reflexivity|]. simpl. unfold idsOf.
    rewrite fmap_app. apply elem_of_app. right. simpl. left.
Qed.

Lemma createTileSet_ids_NoDup : NoDup (idsOf createTileSet).
Proof. apply (bool_decide_unpack _). vm_compute. exact I. Qed.

Lemma tilesAccounted_NoDup (g : GameState) : tilesAccounted g -> NoDup (allIds g).
Proof. intros [Hperm _]. rewrite Hperm. apply createTileSet_ids_NoDup. Qed.

(** In an accounted state, no tile of a hand shares its id with a tile of the
    discard pile. *)
Lemma hand_pile_ids_disjoint (g : GameState) (i : nat) (p : Player) (t d : Tile) :
  tilesAccounted g -> players g !! i = Some p -> t ∈ hand p ->
  tile_id d ∈ idsOf (discardPile g) -> tile_id t <> tile_id d.
Proof.
  intros Hacc Hp Ht Hd Heq. apply tilesAccounted_NoDup in Hacc.
  unfold allIds in Hacc.
  apply NoDup_app in Hacc as (_ & _ & Hacc). apply NoDup_app in Hacc as (_ & _ & Hacc).
  apply NoDup_app in Hacc as (_ & Hdisj & _).
  apply (Hdisj _ Hd). apply list_elem_of_bind. exists p.
  split; [|by eapply list_elem_of_lookup_2].
  unfold playerIds. apply elem_of_app. left. rewrite <- Heq. by apply idsOf_elem.
Qed.

Lemma takeDiscardIntoMeld_ids (g : GameState) (idx : nat) (player : Player) (d : Tile)
    (fromHand : list Tile) (ty : MeldType) (meldTiles : list Tile) :
  players g !! idx = Some player ->
  tile_id d ∈ idsOf (discardPile g) ->
  idsOf fromHand ⊆+ idsOf (hand player) ->
  idsOf meldTiles ≡ₚ tile_id d :: idsOf fromHand ->
  allIds (takeDiscardIntoMeld g idx player d fromHand ty meldTiles) ≡ₚ allIds g.
Proof.
  intros Hp Hd Hsub Hmeld.
  destruct (players_insert_ids _ _ _ Hp) as (others & Hold & Hnew).
  pose proof (removeById_ids d _ Hd) as Hpile.
  pose proof (removeAllById_ids _ _ Hsub) as Hhand.
  unfold allIds, takeDiscardIntoMeld. simpl. rewrite Hold, Hnew.
  unfold playerIds. simpl. rewrite bind_app. simpl. rewrite app_nil_r.
  fold (idsOf meldTiles). rewrite Hmeld.
  fold (idsOf (discardPile g)). rewrite Hpile.
  fold (idsOf (hand player)). rewrite Hhand.
  unfold idsOf. solve_Permutation.
Qed.

Lemma insertBy_perm {A : Type} (before : A -> A -> bool) (x : A) (l : list A) :
  insertBy before x l ≡ₚ x :: l.
Proof.
  induction l as [|y l IH]; simpl; [done|].
  destruct (before x y); [done|]. rewrite IH. apply Permutation_swap.
Qed.

Lemma sortBy_perm {A : Type} (lt : A -> A -> bool) (l : list A) : sortBy lt l ≡ₚ l.
Proof.
  unfold sortBy. induction l as [|x l IH]; simpl; [done|].
  by rewrite insertBy_perm, IH.
Qed.

(** A chow is the discard and two tiles of the hand with different ranks. *)
Lemma formChow_inv (h : list Tile) (d : Tile) (c : list Tile) :
  formChow h d = Some c ->
  exists t1 t2, t1 ∈ h /\ t2 ∈ h /\ t1 <> t2 /\ c ≡ₚ [d; t1; t2].
Proof.
  unfold formChow. destruct (negb _); [done|].
  destruct (value d) as [dv|]; [|done].
  set (suitTiles := List.filter _ h).
  assert (Hfind : forall v1 v2 t1 t2,
            List.find (valueIs v1) suitTiles = Some t1 ->
            List.find (valueIs v2) suitTiles = Some t2 ->
            v1 <> v2 ->
            t1 ∈ h /\ t2 ∈ h /\ t1 <> t2).
  { intros v1 v2 t1 t2 H1 H2 Hne.
    apply find_some in H1 as [H1 Hv1]. apply find_some in H2 as [H2 Hv2].
    apply filter_In in H1 as [H1 _]. apply filter_In in H2 as [H2 _].
    split_and!; [by apply list_elem_of_In..|].
    intros ->. unfold valueIs in Hv1, Hv2. destruct (value t2); [|done].
    apply Z.eqb_eq in Hv1, Hv2. congruence. }
  destruct (List.find (valueIs (dv + 1)) suitTiles) as [p1|] eqn:E1;
    destruct (List.find (valueIs (dv + 2)) suitTiles) as [p2|] eqn:E2;
    destruct (List.find (valueIs (dv - 1)) suitTiles) as [m1|] eqn:E3;
    destruct (List.find (valueIs (dv - 2)) suitTiles) as [m2|] eqn:E4;
    destruct (dv <=? 7)%Z; destruct ((2 <=? dv)%Z && (dv <=? 8)%Z);
    destruct (3 <=? dv)%Z; cbv beta iota; try done;
    intros Hc; apply (inj Some) in Hc; subst c;
    match goal with
    | Ha : List.find _ suitTiles = Some ?a, Hb : List.find _ suitTiles = Some ?b
      |- context [sortBy valueLt ?l] =>
        match l with
        | context [a] =>
            match l with
            | context [b] =>
                destruct (Hfind _ _ a b Ha Hb) as (? & ? & ?); [lia|];
                exists a, b; split_and!; [done..|]; rewrite sortBy_perm; solve_Permutation
            end
        end
    end.
Qed.

Lemma claimantToDiscard_ids (idx : nat) (g : GameState) :
  allIds (claimantToDiscard idx g) = allIds g.
Proof. reflexivity. Qed.

Lemma recordAmbition_ids (g : GameState) (pid : string) (a : AmbitionType) (q : Q) :
  allIds (recordAmbition g pid a q) = allIds g.
Proof. reflexivity. Qed.

Lemma processClaim_accounted (g g' : GameState) (claim : ClaimAction) (b : bool) :
  tilesAccounted g -> processClaim g claim = Ok (g', b) -> tilesAccounted g'.
Proof.
  intros Hacc H. destruct b; [|by rewrite (processClaim_reject_inv _ _ _ H)].
  destruct (processClaim_accept_inv _ _ _ H) as (idx & player & d & Hidx & Hp & Hd & Hk).
  pose proof Hacc as [Hperm Hlast]. pose proof (Hlast d Hd) as Hpile.
  destruct (claim_type claim).
  - destruct Hk as (c & Hc & ->).
    apply formChow_inv in Hc as (t1 & t2 & Ht1 & Ht2 & Hne & Hcperm).
    pose proof (hand_pile_ids_disjoint g idx player t1 d Hacc Hp Ht1 Hpile) as Hid1.
    pose proof (hand_pile_ids_disjoint g idx player t2 d Hacc Hp Ht2 Hpile) as Hid2.
    assert (List.filter (fun tile => negb (sameId tile d)) c ≡ₚ [t1; t2]) as Hfrom.
    { rewrite (filter_perm _ _ _ Hcperm). simpl. unfold sameId.
      rewrite Nat.eqb_refl. simpl.
      apply Nat.eqb_neq in Hid1, Hid2. by rewrite Hid1, Hid2. }
    split; [|done]. rewrite claimantToDiscard_ids, <- Hperm.
    apply takeDiscardIntoMeld_ids; [done..| |].
    + unfold idsOf. rewrite Hfrom. apply fmap_submseteq, NoDup_submseteq.
      * apply NoDup_cons. split; [|apply NoDup_singleton].
        intros Hx. by apply list_elem_of_singleton in Hx.
      * intros x Hx. apply elem_of_cons in Hx as [->|Hx]; [done|].
        by apply list_elem_of_singleton in Hx as ->.
    + unfold idsOf. by rewrite Hfrom, Hcperm.
  - destruct Hk as (_ & ->). split; [|done].
    rewrite claimantToDiscard_ids, recordAmbition_ids, <- Hperm.
    apply takeDiscardIntoMeld_ids; [done..|apply matching_ids_in_hand|done].
  - destruct Hk as (_ & drawnState & drawn & Hdraw & ->). split; [|done].
    rewrite claimantToDiscard_ids, recordAmbition_ids, <- Hperm.
    apply drawTile_ids in Hdraw as (-> & _ & _).
    apply takeDiscardIntoMeld_ids; [done..|apply matching_ids_in_hand|done].
  - destruct Hk as (w & _ & _ & ->).
    pose proof (recordAmbitions_frame (claim_playerId claim) (ambitions w)
                  (set_winner (Some idx) (set_status finished g))) as Hf.
    simpl in Hf. destruct Hf as (Hf1 & Hf2 & Hf3 & Hf4 & Hf5 & _).
    split.
    + unfold allIds. by rewrite Hf1, Hf2, Hf3, Hf4.
    + rewrite Hf4, Hf5. apply Hlast.
Qed.

Lemma step_accounted (g g' : GameState) : tilesAccounted g -> step g g' -> tilesAccounted g'.
Proof.
  intros Hacc Hstep. destruct Hstep as [g g' i r H|g g' i tile H|g g' claim b H].
  - destruct Hacc as [Hperm Hlast].
    apply drawTile_ids in H as (Hids & Hl & Hpile). split.
    + by rewrite Hids.
    + intros d Hd. rewrite Hpile. apply Hlast. by rewrite <- Hl.
  - apply discardTile_ids in H as [->|(Hids & d & Hd & Hin)]; [done|].
    destruct Hacc as [Hperm _]. split; [by rewrite Hids|].
    intros d' Hd'. rewrite Hd in Hd'. by injection Hd' as <-.
  - by eapply processClaim_accounted.
Qed.

(** *** The initial state *)

Lemma fresh_players_ids (dealerIndex : nat) (ps : list Player) :
  imap (fun index player =>
          mkPlayer (player_id player) (player_name player) [] [] [] []
            (index =? dealerIndex)%nat) ps ≫= playerIds = [].
Proof.
  assert (forall (f : nat -> bool) (l : list Player),
            imap (fun index player =>
                    mkPlayer (player_id player) (player_name player) [] [] [] []
                      (f index)) l ≫= playerIds = []) as Hgen.
  { intros f l. revert f. induction l as [|p l IH]; intros f; [done|].
    csimpl. apply (IH (f ∘ S)). }
  apply (Hgen (fun index => (index =? dealerIndex)%nat)).
Qed.

Lemma deal_ids (order : list nat) (ps ps' : list Player) (w rest : list Tile) :
  deal order ps w = Ok (ps', rest) ->
  (ps' ≫= playerIds) ++ idsOf rest ≡ₚ (ps ≫= playerIds) ++ idsOf w.
Proof.
  revert ps w. induction order as [|i order IH]; intros ps w; simpl.
  - by intros [= <- <-].
  - destruct w as [|tile w']; [apply IH|].
    destruct (ps !! i) as [p|] eqn:Hp; [|done].
    intros H. rewrite (IH _ _ H).
    destruct (players_insert_ids _ _ _ Hp) as (others & Hold & Hnew).
    rewrite Hold, Hnew. ids_normal. solve_Permutation.
Qed.

Lemma sweepBonus_tiles (r kept pushed fl w : list Tile) (flag : bool)
    (h' fl' w' : list Tile) (flag' : bool) :
  sweepBonus r kept pushed fl w flag = (h', fl', w', flag') ->
  h' ++ fl' ++ w' ≡ₚ r ++ kept ++ pushed ++ fl ++ w.
Proof.
  revert kept pushed fl w flag.
  induction r as [|tile r IH]; intros kept pushed fl w flag; simpl.
  - intros [= <- <- <- <-]. solve_Permutation.
  - destruct (isBonus tile).
    + destruct w as [|replacement w0]; intros H; rewrite (IH _ _ _ _ _ H);
        solve_Permutation.
    + intros H. rewrite (IH _ _ _ _ _ H). solve_Permutation.
Qed.

Lemma exposeLoop_tiles (fuel : nat) (h fl w h' fl' w' : list Tile) :
  exposeLoop fuel h fl w = Ok (h', fl', w') -> h' ++ fl' ++ w' ≡ₚ h ++ fl ++ w.
Proof.
  revert h fl w. induction fuel as [|fuel IH]; intros h fl w; simpl; [done|].
  destruct (sweepBonus (rev h) [] [] fl w false) as [[[h1 fl1] w1] flag] eqn:Hs.
  apply sweepBonus_tiles in Hs. simpl in Hs. rewrite <- Permutation_rev in Hs.
  destruct flag.
  - intros H. by rewrite (IH _ _ _ H).
  - by intros [= <- <- <-].
Qed.

Lemma fillHand_tiles (h fl w h' fl' w' : list Tile) :
  fillHand h fl w = (h', fl', w') -> h' ++ fl' ++ w' ≡ₚ h ++ fl ++ w.
Proof.
  revert h fl. induction w as [|tile w IH]; intros h fl; simpl.
  - by intros [= <- <- <-].
  - destruct (length h <? 16); [|by intros [= <- <- <-]].
    destruct (isBonus tile); intros H; rewrite (IH _ _ H); solve_Permutation.
Qed.

Lemma ensureCorrectHandSize_ids (g g' : GameState) (i : nat) :
  ensureCorrectHandSize g i = Ok g' ->
  allIds g' ≡ₚ allIds g /\ lastDiscard g' = lastDiscard g
  /\ length (players g') = length (players g).
Proof.
  unfold ensureCorrectHandSize. destruct (players g !! i) as [p|] eqn:Hp; [|done].
  destruct (exposeLoop _ _ _ _) as [[[h1 fl1] w1]| |] eqn:He; simpl; [|done..].
  destruct (fillHand h1 fl1 w1) as [[h2 fl2] w2] eqn:Hf.
  intros [= <-]. split_and!; [|done|simpl; by rewrite length_insert].
  apply exposeLoop_tiles in He. apply fillHand_tiles in Hf.
  rewrite He in Hf. apply (fmap_Permutation tile_id) in Hf.
  destruct (players_insert_ids _ _ _ Hp) as (others & Hold & Hnew).
  unfold allIds. simpl. rewrite Hold, Hnew.
  ids_normal.
  transitivity (((tile_id <$> h2) ++ (tile_id <$> fl2) ++ (tile_id <$> w2))
                ++ (tile_id <$> flowerWall g) ++ (tile_id <$> discardPile g)
                ++ (melds p ≫= fun m => tile_id <$> meld_tiles m) ++ others);
    [solve_Permutation|].
  rewrite Hf. solve_Permutation.
Qed.

Lemma ensureAll_ids (indices : list nat) (g g' : GameState) :
  ensureAll indices g = Ok g' ->
  allIds g' ≡ₚ allIds g /\ lastDiscard g' = lastDiscard g
  /\ length (players g') = length (players g).
Proof.
  revert g. induction indices as [|i indices IH]; intros g; simpl.
  - by intros [= <-].
  - destruct (ensureCorrectHandSize g i) as [g1| |] eqn:H1; simpl; [|done..].
    intros H. apply ensureCorrectHandSize_ids in H1 as (E1 & E2 & E3).
    apply IH in H as (F1 & F2 & F3). split_and!; [by rewrite F1|congruence..].
Qed.

Lemma initializeGame_accounted (rnd : Randomness) (ps : list Player) (g : GameState) :
  fairRandomness rnd -> initializeGame rnd ps = Ok g -> tilesAccounted g.
Proof.
  intros (Hall & Hreg & Hbonus & Hdealer). unfold initializeGame, tilesAccounted.
  generalize createTileSet. intros tileSet.
  destruct (deal dealOrder _ _) as [[ps1 rest]| |] eqn:Hdeal; simpl; [|done..].
  destruct (ensureAll _ _) as [g1| |] eqn:Hens; simpl; [|done..].
  destruct (drawTile g1 (randomDealer rnd)) as [[g2 drawn]| |] eqn:Hdraw; simpl; [|done..].
  intros [= <-].
  apply deal_ids in Hdeal. rewrite fresh_players_ids in Hdeal. simpl in Hdeal.
  apply ensureAll_ids in Hens as (E1 & E2 & _).
  apply drawTile_ids in Hdraw as (F1 & F2 & _).
  split.
  - rewrite F1, E1. unfold allIds. simpl.
    set (bonusWall := shuffleBonus rnd _) in *.
    transitivity (((ps1 ≫= playerIds) ++ idsOf rest) ++ idsOf bonusWall);
      [unfold idsOf; simpl; solve_Permutation|].
    rewrite Hdeal. unfold bonusWall, idsOf. rewrite Hreg, Hbonus, <- fmap_app.
    apply fmap_Permutation. rewrite Permutation_app_comm, filter_partition.
    apply Hall.
  - intros d Hd. rewrite F2, E2 in Hd. done.
Qed.

(** *** The setup always returns *)

Lemma sweepBonus_measure (r kept pushed fl w : list Tile) (flag : bool)
    (h' fl' w' : list Tile) (flag' : bool) :
  sweepBonus r kept pushed fl w flag = (h', fl', w', flag') ->
  length h' + length w' <= length r + length kept + length pushed + length w
  /\ (flag' = true ->
      flag = true
      \/ length h' + length w' < length r + length kept + length pushed + length w).
Proof.
  revert kept pushed fl w flag.
  induction r as [|tile r IH]; intros kept pushed fl w flag; simpl.
  - intros [= <- <- <- <-]. rewrite length_app. split; [lia|by left].
  - destruct (isBonus tile).
    + destruct w as [|replacement w0]; intros H; apply IH in H as [Hle _];
        simpl in *; rewrite ?length_app in Hle; simpl in Hle; split; try lia;
        intros _; right; lia.
    + intros H. apply IH in H as [Hle Hflag]. simpl in *. split; [lia|].
      intros Hf. destruct (Hflag Hf) as [?|?]; [by left|right; lia].
Qed.

Lemma exposeLoop_returns (fuel : nat) (h fl w : list Tile) :
  length h + length w < fuel -> exists r, exposeLoop fuel h fl w = Ok r.
Proof.
  revert h fl w. induction fuel as [|fuel IH]; intros h fl w Hlt; [lia|]. simpl.
  destruct (sweepBonus (rev h) [] [] fl w false) as [[[h1 fl1] w1] flag] eqn:Hs.
  apply sweepBonus_measure in Hs as [_ Hflag]. simpl in Hflag.
  rewrite length_rev in Hflag. destruct flag; [|by eexists].
  apply IH. destruct (Hflag eq_refl) as [?|?]; [done|lia].
Qed.

(** [ensureCorrectHandSize] returns for every existing player: its loops end
    within the bound of the model. *)
Lemma ensureCorrectHandSize_returns (g : GameState) (i : nat) :
  i < length (players g) -> exists g', ensureCorrectHandSize g i = Ok g'.
Proof.
  intros Hi. apply lookup_lt_is_Some_2 in Hi as [p Hp].
  unfold ensureCorrectHandSize. rewrite Hp.
  destruct (exposeLoop_returns (S (length (hand p) + length (wall g)))
              (hand p) (flowers p) (wall g)) as [[[h1 fl1] w1] ->]; [lia|].
  simpl. destruct (fillHand h1 fl1 w1) as [[h2 fl2] w2]. by eexists.
Qed.

Lemma ensureAll_returns (indices : list nat) (g : GameState) :
  Forall (fun i => i < length (players g)) indices ->
  exists g', ensureAll indices g = Ok g'.
Proof.
  revert g. induction indices as [|i indices IH]; intros g Hall; simpl; [by eexists|].
  apply Forall_cons in Hall as [Hi Hall].
  destruct (ensureCorrectHandSize_returns g i Hi) as [g1 Hg1]. rewrite Hg1. simpl.
  apply IH. apply ensureCorrectHandSize_ids in Hg1 as (_ & _ & ->). done.
Qed.

Lemma deal_returns (order : list nat) (ps : list Player) (w : list Tile) :
  Forall (fun i => i < length ps) order ->
  exists ps' rest, deal order ps w = Ok (ps', rest) /\ length ps' = length ps.
Proof.
  revert ps w. induction order as [|i order IH]; intros ps w Hall; simpl.
  - by exists ps, w.
  - apply Forall_cons in Hall as [Hi Hall]. destruct w as [|tile w']; [by apply IH|].
    apply lookup_lt_is_Some_2 in Hi as [p Hp]. rewrite Hp.
    destruct (IH (<[i := set_hand (hand p ++ [tile]) p]> ps) w') as (ps' & rest & H & Hl).
    { by rewrite length_insert. }
    exists ps', rest. split; [done|]. by rewrite Hl, length_insert.
Qed.

(** [initializeGame] returns a state for every list of at least four players
    and every dealer index below 4. *)
Lemma initializeGame_returns (rnd : Randomness) (ps : list Player) :
  randomDealer rnd < 4 -> 4 <= length ps -> exists gs, initializeGame rnd ps = Ok gs.
Proof.
  intros Hdealer Hps. unfold initializeGame.
  set (ps0 := imap _ ps). assert (length ps0 = length ps) as Hl0 by apply length_imap.
  destruct (deal_returns dealOrder ps0
              (shuffleRegular rnd
                 (List.filter (fun tile => negb (isBonus tile))
                    (shuffleAll rnd createTileSet))))
    as (ps1 & rest & -> & Hl1).
  { apply Forall_forall. intros i Hi. rewrite Hl0.
    assert (i < 4); [|lia]. revert i Hi. apply Forall_forall.
    apply (bool_decide_unpack _). vm_compute. exact I. }
  simpl.
  match goal with |- context [ensureAll ?l ?g] =>
    destruct (ensureAll_returns l g) as [g1 Hg1] end.
  { apply Forall_forall. intros i Hi. simpl. by apply elem_of_seq in Hi as [_ ?]. }
  rewrite Hg1. simpl.
  apply ensureAll_ids in Hg1 as (_ & _ & Hl2). simpl in Hl2.
  unfold drawTile. destruct (_ =? 0); [by eexists|].
  destruct (lookup_lt_is_Some_2 (players g1) (randomDealer rnd)) as [p ->]; [lia|].
  destruct (drawLoop _ _) as [[w' p'] [d|]]; by eexists.
Qed.

(** *** Conservation over the reachable states *)

Lemma reachable_accounted (gs : GameState) : reachable gs -> tilesAccounted gs.
Proof.
  induction 1 as [rnd ps gs Hfair Hinit|gs gs' _ IH Hstep].
  - by eapply initializeGame_accounted.
  - by eapply step_accounted.
Qed.

Lemma length_bind_sum {A B : Type} (f : A -> list B) (g : A -> nat) (l : list A) :
  (forall x, length (f x) = g x) -> length (l ≫= f) = sum_list (g <$> l).
Proof.
  intros Hfg. induction l as [|x l IH]; [done|].
  rewrite bind_cons, length_app, fmap_cons, IH, Hfg. done.
Qed.

Lemma conservedTotal_allIds (gs : GameState) : conservedTotal gs = length (allIds gs).
Proof.
  unfold conservedTotal, allIds, idsOf. rewrite !length_app, !length_fmap.
  rewrite (length_bind_sum playerIds
             (fun p => length (hand p) + length (flowers p) + meldTileCount p)); [lia|].
  intros p. unfold playerIds, idsOf, meldTileCount.
  rewrite !length_app, !length_fmap.
  rewrite (length_bind_sum _ (fun m => length (meld_tiles m))); [lia|].
  intros m. by rewrite length_fmap.
Qed.

(** C1, amended: in every state reachable from [initializeGame] by any
    sequence of [drawTile], [discardTile] and [processClaim] calls, the number
    of tiles in the wall, the flower wall, the shared discard pile and the
    hands, melds and flower collections of the players is 144.  (The eight
    bonus tiles stay in the flower wall; the per-player discard lists are not
    part of the sum.)  The tiles counted are, id for id, those of the tile
    set. *)
Theorem tiles_conserved (gs : GameState) :
  reachable gs ->
  conservedTotal gs = 144 /\ allIds gs ≡ₚ idsOf createTileSet.
Proof.
  intros Hr. apply reachable_accounted in Hr as [Hperm _].
  split; [|done]. rewrite conservedTotal_allIds, Hperm. reflexivity.
Qed.

Lemma tiles_conserved_witness :
  conservedTotal openingKong = 144 /\ allIds openingKong ≡ₚ idsOf createTileSet.
Proof.
  apply tiles_conserved.
  apply (reachable_step openingDiscarded).
  - apply (reachable_step openingGame).
    + apply (reachable_initial noShuffle fourPlayers).
      * split_and!; simpl; try done. lia.
      * vm_compute. reflexivity.
    + apply (step_discardTile _ _ 0 (numberTile 0 circles 1)). vm_compute. reflexivity.
  - apply (step_processClaim _ _ (mkClaim claim_kong "p0") true).
    vm_compute. reflexivity.
Defined.

(** * Further properties of the engine *)

(** ** Claims: validation and processing agree *)

Lemma Ok_inj {A : Type} (a b : A) : Ok a = Ok b -> a = b.
Proof. by intros [= ->]. Qed.

Lemma find_findIndex {A : Type} (f : A -> bool) (l : list A) :
  match List.find f l with
  | Some x => exists i, findIndex f l = Some i /\ l !! i = Some x
  | None => findIndex f l = None
  end.
Proof.
  induction l as [|a l IH]; simpl; [done|].
  destruct (f a); [by exists 0|].
  destruct (List.find f l) as [x|].
  - destruct IH as (i & -> & Hi). by exists (S i).
  - by rewrite IH.
Qed.

Lemma drawTile_returns (g : GameState) (i : nat) :
  i < length (players g) -> exists g' r, drawTile g i = Ok (g', r).
Proof.
  intros Hi. unfold drawTile. destruct (_ =? 0); [by eexists _, _|].
  apply lookup_lt_is_Some_2 in Hi as [p ->].
  destruct (drawLoop _ _) as [[w' p'] [d|]]; by eexists _, _.
Qed.

Lemma suitGroupsOf_returns (chows : list Meld) (m : list (Suit * list (list (option Z)))) :
  suitGroupsOf chows m <> OutOfFuel.
Proof.
  revert m. induction chows as [|c chows IH]; intros m; simpl; [done|].
  destruct (meld_tiles c); [done|apply IH].
Qed.

Lemma isWinningHand_returns (h : list Tile) (ms : list Meld) (fl : list Tile) :
  isWinningHand h ms fl <> OutOfFuel.
Proof.
  unfold isWinningHand. destruct (negb _); [done|]. destruct (isSietePares h); [done|].
  destruct (checkStandardWin h ms).1; [|done].
  unfold isEscalera. destruct (_ <? 3); [done|].
  pose proof (suitGroupsOf_returns
                (List.filter (fun m => bool_decide (meld_type m = chow)) ms) []) as Hs.
  destruct (suitGroupsOf _ _); done.
Qed.

Lemma canFormSequence_formChow (h : list Tile) (d : Tile) :
  canFormSequence h d = true -> is_Some (formChow h d).
Proof.
  unfold canFormSequence, formChow. destruct (negb _); [done|].
  destruct (value d) as [dv|]; [|done].
  set (suitTiles := List.filter _ h).
  assert (Hex : forall v, existsb (valueIs v) suitTiles = true ->
                          is_Some (List.find (valueIs v) suitTiles)).
  { intros v Hv. apply existsb_exists in Hv as (x & Hx & Hvx).
    destruct (List.find (valueIs v) suitTiles) eqn:E; [done|].
    eapply find_none in E; [|exact Hx]. congruence. }
  destruct (existsb (valueIs (dv + 1)) suitTiles) eqn:E1;
    [destruct (Hex _ E1) as [p1 ->]|];
    (destruct (existsb (valueIs (dv + 2)) suitTiles) eqn:E2;
     [destruct (Hex _ E2) as [p2 ->]|]);
    (destruct (existsb (valueIs (dv - 1)) suitTiles) eqn:E3;
     [destruct (Hex _ E3) as [m1 ->]|]);
    (destruct (existsb (valueIs (dv - 2)) suitTiles) eqn:E4;
     [destruct (Hex _ E4) as [m2 ->]|]);
    destruct (dv <=? 7)%Z; destruct ((2 <=? dv)%Z && (dv <=? 8)%Z);
    destruct (3 <=? dv)%Z; cbv beta iota; simpl; try done;
    repeat match goal with |- context [List.find ?f ?l] => destruct (List.find f l) end;
    done.
Qed.

Lemma processClaim_by_isValidClaim (gs : GameState) (claim : ClaimAction) :
  match isValidClaim gs claim with
  | Ok true => exists gs', processClaim gs claim = Ok (gs', true)
  | Ok false => processClaim gs claim = Ok (gs, false)
  | TypeError => processClaim gs claim = TypeError
  | OutOfFuel => False
  end.
Proof.
  unfold processClaim.
  destruct (isValidClaim gs claim) as [[|]| |] eqn:Hv; simpl; try done.
  - unfold isValidClaim, findPlayer in Hv.
    pose proof (find_findIndex (fun p => String.eqb (player_id p) (claim_playerId claim))
                  (players gs)) as Hfind.
    destruct (List.find _ (players gs)) as [player|]; [|done].
    destruct Hfind as (idx & -> & Hp). rewrite Hp.
    destruct (lastDiscard gs) as [d|]; [|done].
    destruct (claim_type claim).
    + apply Ok_inj in Hv. destruct (canFormSequence_formChow _ _ Hv) as [c ->].
      by eexists.
    + apply Ok_inj, Nat.leb_le in Hv.
      rewrite length_take, Nat.min_l by done. by eexists.
    + apply Ok_inj, Nat.leb_le in Hv.
      rewrite length_take, Nat.min_l by done. simpl.
      match goal with |- context [drawTile ?g idx] =>
        destruct (drawTile_returns g idx) as (g' & r & ->) end; [|by eexists].
      simpl. rewrite length_insert. by eapply lookup_lt_Some.
    + destruct (isWinningHand _ _ _) as [w| |]; simpl in *; [|done..].
      injection Hv as ->. by eexists.
  - unfold isValidClaim in Hv.
    destruct (findPlayer _ _) as [p|]; [|done]. destruct (lastDiscard gs) as [d|]; [|done].
    destruct (claim_type claim); try done.
    pose proof (isWinningHand_returns (hand p ++ [d]) (melds p) (flowers p)) as Hw.
    by destruct (isWinningHand _ _ _).
Qed.

(** X1: [processClaim] accepts exactly the claims that [isValidClaim]
    validates: a validated claim is always applied (none of the fall-through
    paths of the [switch] is taken), any other claim is rejected with the
    state untouched, and [processClaim] throws only where [isValidClaim]
    does. *)
Theorem processClaim_agrees_with_isValidClaim (gs : GameState) (claim : ClaimAction) :
  match isValidClaim gs claim with
  | Ok true => exists gs', processClaim gs claim = Ok (gs', true)
  | Ok false => processClaim gs claim = Ok (gs, false)
  | TypeError => processClaim gs claim = TypeError
  | OutOfFuel => False
  end.
Proof. apply processClaim_by_isValidClaim. Qed.

(** ** Drawing *)

(** X2: A draw that returns a tile returns the first regular tile of the
    wall, marked as recently drawn.  The bonus tiles in front of it have
    gone, in order, to the flowers of the drawer; the tile is the last of
    the hand, whose other tiles have lost their marker; the wall is what
    followed the tile.  The phase is [discard], the turn has not moved, and
    the other players, the discards and the flower wall are as before. *)
Theorem drawTile_takes_first_regular_tile (g g' : GameState) (i : nat) (t : Tile) :
  drawTile g i = Ok (g', Some t) -> drewFirstRegularTile g g' i t.
Proof.
  intros H.
  apply drawTile_Some in H as (p & bonus & t0 & w' & Hp & Hw & Hall & Ht0 & -> & ->).
  exists p, (set_hand ((set_isRecentlyDrawn false <$> hand p) ++ [set_isRecentlyDrawn true t0])
               (set_flowers (flowers p ++ bonus) p)), bonus, t0.
  simpl. split_and!; try done.
  - rewrite list_lookup_insert_eq; [done|by eapply lookup_lt_Some].
  - intros j Hj. by rewrite list_lookup_insert_ne.
Qed.

Lemma drawTile_takes_first_regular_tile_witness :
  drewFirstRegularTile kongPendingGame kongPendingDrawn 2
    (set_isRecentlyDrawn true (numberTile 21 bamboos 1)).
Proof.
  apply drawTile_takes_first_regular_tile. vm_compute. reflexivity.
Defined.

(** ** Chows *)

(** Sorting by rank leaves three tiles of consecutive ranks as they are. *)
Lemma sortBy_run (x y z : Tile) (v : Z) :
  value x = Some v -> value y = Some (v + 1)%Z -> value z = Some (v + 2)%Z ->
  sortBy valueLt [x; y; z] = [x; y; z].
Proof.
  intros Hx Hy Hz. unfold sortBy. cbn [foldr insertBy].
  assert (Hzy : valueLt z y = false).
  { unfold valueLt. rewrite Hy, Hz. apply Z.ltb_ge. lia. }
  assert (Hyx : valueLt y x = false).
  { unfold valueLt. rewrite Hx, Hy. apply Z.ltb_ge. lia. }
  rewrite Hzy. cbn [negb insertBy]. by rewrite Hyx.
Qed.

Lemma find_suitTile (s : Suit) (v : Z) (h : list Tile) (t : Tile) :
  List.find (valueIs v) (List.filter (fun t => suitIs s t && truthy (value t)) h) = Some t ->
  t ∈ h /\ suit t = s /\ value t = Some v.
Proof.
  intros H. apply find_some in H as [Hin Hv].
  apply filter_In in Hin as [Hin Hs]. apply andb_true_iff in Hs as [Hs _].
  split_and!.
  - by apply list_elem_of_In.
  - by apply bool_decide_eq_true in Hs.
  - unfold valueIs in Hv. destruct (value t) as [z|]; [|done].
    by apply Z.eqb_eq in Hv as ->.
Qed.

(** The three patterns of [getAllPossibleSequences], [formChow] and
    [canFormSequence], case by case. *)
Lemma formChow_sequences (h : list Tile) (d : Tile) :
  formChow h d = head (getAllPossibleSequences h d).
Proof.
  unfold formChow, getAllPossibleSequences. destruct (negb _); [done|].
  destruct (value d) as [dv|] eqn:Hd; [|done].
  set (suitTiles := List.filter _ h).
  destruct (List.find (valueIs (dv + 1)) suitTiles) as [p1|] eqn:E1;
    destruct (List.find (valueIs (dv + 2)) suitTiles) as [p2|] eqn:E2;
    destruct (List.find (valueIs (dv - 1)) suitTiles) as [m1|] eqn:E3;
    destruct (List.find (valueIs (dv - 2)) suitTiles) as [m2|] eqn:E4;
    destruct (dv <=? 7)%Z; destruct ((2 <=? dv)%Z && (dv <=? 8)%Z);
    destruct (3 <=? dv)%Z; cbv beta iota; try done; cbn [head app]; f_equal;
    repeat match goal with
           | H : List.find _ suitTiles = Some _ |- _ => apply find_suitTile in H as (_ & _ & ?)
           end;
    match goal with
    | |- sortBy valueLt [?x; _; _] = _ =>
        match goal with
        | H : value x = Some ?v |- _ => apply (sortBy_run _ _ _ v)
        end
    end;
    try done; try (etrans; [eassumption|f_equal; lia]).
Qed.

Lemma existsb_find {A : Type} (f : A -> bool) (l : list A) :
  existsb f l = match List.find f l with Some _ => true | None => false end.
Proof. induction l as [|a l IH]; simpl; [done|]. by destruct (f a). Qed.

Lemma canFormSequence_sequences (h : list Tile) (d : Tile) :
  canFormSequence h d = true <-> getAllPossibleSequences h d <> [].
Proof.
  unfold canFormSequence, getAllPossibleSequences. destruct (negb _); [done|].
  destruct (value d) as [dv|]; [|done].
  set (suitTiles := List.filter _ h). rewrite !existsb_find.
  destruct (List.find (valueIs (dv + 1)) suitTiles);
    destruct (List.find (valueIs (dv + 2)) suitTiles);
    destruct (List.find (valueIs (dv - 1)) suitTiles);
    destruct (List.find (valueIs (dv - 2)) suitTiles);
    destruct (dv <=? 7)%Z; destruct ((2 <=? dv)%Z && (dv <=? 8)%Z);
    destruct (3 <=? dv)%Z; cbv beta iota; simpl; done.
Qed.

(** X3: The three sequence functions agree: [canFormSequence] says yes
    exactly when [getAllPossibleSequences] lists a run, and the chow that
    [formChow] builds is the first run of that list (its sort by rank
    changes nothing). *)
Theorem sequence_functions_agree (h : list Tile) (d : Tile) :
  (canFormSequence h d = true <-> getAllPossibleSequences h d <> [])
  /\ formChow h d = head (getAllPossibleSequences h d).
Proof. split; [apply canFormSequence_sequences|apply formChow_sequences]. Qed.

(** A chow is a run of the suit of the discard: three consecutive ranks in
    ascending order, the discard and two tiles of the hand. *)
Lemma formChow_run (h : list Tile) (d : Tile) (chowTiles : list Tile) :
  formChow h d = Some chowTiles ->
  exists a b c v t1 t2,
    chowTiles = [a; b; c] /\ isNumberedSuit (suit d) = true
    /\ suit a = suit d /\ suit b = suit d /\ suit c = suit d
    /\ value a = Some v /\ value b = Some (v + 1)%Z /\ value c = Some (v + 2)%Z
    /\ t1 ∈ h /\ t2 ∈ h /\ t1 <> t2 /\ [a; b; c] ≡ₚ [d; t1; t2].
Proof.
  rewrite formChow_sequences. unfold getAllPossibleSequences.
  destruct (isNumberedSuit (suit d)) eqn:Hs; [|done]. simpl.
  destruct (value d) as [dv|] eqn:Hd; [|done].
  set (suitTiles := List.filter _ h).
  assert (Hrun : forall (a b c t1 t2 : Tile) v,
            value a = Some v -> value b = Some (v + 1)%Z -> value c = Some (v + 2)%Z ->
            suit a = suit d -> suit b = suit d -> suit c = suit d ->
            t1 ∈ h -> t2 ∈ h -> value t1 <> value t2 -> [a; b; c] ≡ₚ [d; t1; t2] ->
            exists a' b' c' v' t1' t2',
              [a; b; c] = [a'; b'; c'] /\ true = true
              /\ suit a' = suit d /\ suit b' = suit d /\ suit c' = suit d
              /\ value a' = Some v' /\ value b' = Some (v' + 1)%Z
              /\ value c' = Some (v' + 2)%Z
              /\ t1' ∈ h /\ t2' ∈ h /\ t1' <> t2' /\ [a'; b'; c'] ≡ₚ [d; t1'; t2']).
  { intros a b c t1 t2 v ? ? ? ? ? ? ? ? Hne ?.
    exists a, b, c, v, t1, t2. split_and!; try done. by intros ->. }
  destruct (List.find (valueIs (dv + 1)) suitTiles) as [p1|] eqn:E1;
    destruct (List.find (valueIs (dv + 2)) suitTiles) as [p2|] eqn:E2;
    destruct (List.find (valueIs (dv - 1)) suitTiles) as [m1|] eqn:E3;
    destruct (List.find (valueIs (dv - 2)) suitTiles) as [m2|] eqn:E4;
    destruct (dv <=? 7)%Z; destruct ((2 <=? dv)%Z && (dv <=? 8)%Z);
    destruct (3 <=? dv)%Z; cbv beta iota; cbn [head app]; try done;
    intros Hc; apply (inj Some) in Hc; subst chowTiles;
    repeat match goal with
           | H : List.find _ suitTiles = Some _ |- _ =>
               apply find_suitTile in H as (? & ? & ?)
           end;
    match goal with
    | |- context [[?a; ?b; ?c] = _] =>
        match goal with
        | H : value a = Some ?v |- _ =>
            first [ constr_eq a d; eapply (Hrun a b c b c v)
                  | constr_eq b d; eapply (Hrun a b c a c v)
                  | eapply (Hrun a b c a b v) ]
        end
    end;
    try done; try solve_Permutation;
    try (etrans; [eassumption|f_equal; lia]);
    try (intros Hne;
         match type of Hne with
         | value ?x = value ?y =>
             match goal with
             | Hx : value x = Some _, Hy : value y = Some _ |- _ => rewrite Hx, Hy in Hne
             end
         end;
         apply (inj Some) in Hne; lia).
Qed.

(** ** Accepted claims *)

Lemma take_matching_sublist (n : nat) (player : Player) (d : Tile) :
  take n (matchingInHand player d) `sublist_of` hand player.
Proof. etrans; [apply sublist_take|apply filter_sublist]. Qed.

Lemma take_matching_matches (n : nat) (player : Player) (d t : Tile) :
  t ∈ take n (matchingInHand player d) -> tilesMatch t d = true.
Proof.
  intros Ht. apply elem_of_take in Ht as (i & Ht & _).
  apply list_elem_of_lookup_2, list_elem_of_In in Ht.
  by apply filter_In in Ht as [_ Ht].
Qed.

(** X4: An accepted pung claim moves the discard and the first two matching
    tiles of the claimant's hand into one new exposed meld, marked as
    claimed from the player whose turn it was, and records one [kang]
    ambition of 0.25 for the claimant.  The discard leaves the shared pile;
    the claimant is to discard next.  Wall, other players, status and winner
    are as before. *)
Theorem accepted_pung_effects (gs gs' : GameState) (claim : ClaimAction) :
  claim_type claim = claim_pung -> processClaim gs claim = Ok (gs', true) ->
  pungTaken gs gs' claim.
Proof.
  intros Hty H.
  apply processClaim_accept_inv in H as (idx & player & d & Hidx & Hp & Hd & Hk).
  rewrite Hty in Hk. destruct Hk as [Hlen ->].
  pose proof (take_matching_sublist 2 player d) as Hsub.
  pose proof (take_matching_matches 2 player d) as Hmatch.
  pose proof (matching_ids_in_hand 2 player d) as Hids.
  destruct (take 2 (matchingInHand player d)) as [|t1 [|t2 [|]]] eqn:Htk; try done.
  exists idx, player,
    (set_melds (melds player ++ [mkMeld pung [d; t1; t2] false (Some (currentPlayer gs))])
       (set_hand (removeAllById [t1; t2] (hand player)) player)), d, t1, t2.
  simpl. split_and!; try done.
  - rewrite list_lookup_insert_eq; [done|by eapply lookup_lt_Some].
  - apply Hmatch. repeat constructor.
  - apply Hmatch. repeat constructor.
  - by apply removeAllById_ids in Hids.
  - intros j Hj. by rewrite list_lookup_insert_ne.
Qed.

Lemma accepted_pung_effects_witness :
  pungTaken kongPendingGame pungClaimedGame (mkClaim claim_pung "p2").
Proof.
  apply accepted_pung_effects; [reflexivity|vm_compute; reflexivity].
Defined.

(** A tile with a rank from 1 to 9, or of a suit without ranks, is a tile of
    the tile set as far as its rank goes. *)
Lemma wellFormedRank_intro (t : Tile) :
  (isNumberedSuit (suit t) = true ->
   match value t with Some v => (1 <=? v)%Z && (v <=? 9)%Z | None => false end = true) ->
  wellFormedRank t.
Proof.
  intros H Hs. specialize (H Hs). destruct (value t) as [v|]; [|done].
  exists v. split; [done|lia].
Qed.

Ltac ranks_of_tile_set :=
  repeat first [ apply Forall_nil_2
               | apply Forall_cons_2
               | apply wellFormedRank_intro; vm_compute; intros; congruence ].

(** X5: An accepted chow claim, in a state where the ranks are those of the
    tile set (1 to 9) and no hand tile has the instance id of the discard,
    moves the discard and two tiles of the claimant's hand into one new
    exposed meld: three tiles of the suit of the discard with consecutive
    ranks, in ascending order.  No ambition is recorded.  The discard leaves
    the shared pile and the claimant is to discard next. *)
Theorem accepted_chow_effects (gs gs' : GameState) (claim : ClaimAction) :
  ranksOfTileSet gs -> discardNotInHands gs ->
  claim_type claim = claim_chow -> processClaim gs claim = Ok (gs', true) ->
  chowTaken gs gs' claim.
Proof.
  intros _ Hfresh Hty H.
  apply processClaim_accept_inv in H as (idx & player & d & Hidx & Hp & Hd & Hk).
  rewrite Hty in Hk. destruct Hk as (chowTiles & Hc & ->).
  apply formChow_run in Hc
    as (a & b & c & v & t1 & t2 & -> & Hs & Ha & Hb & Hcs & Hva & Hvb & Hvc
        & Ht1 & Ht2 & Hne & Hperm).
  assert (Hin : player ∈ players gs) by by eapply list_elem_of_lookup_2.
  pose proof (Hfresh player t1 d Hin Ht1 Hd) as Hid1.
  pose proof (Hfresh player t2 d Hin Ht2 Hd) as Hid2.
  assert (List.filter (fun tile => negb (sameId tile d)) [a; b; c] ≡ₚ [t1; t2]) as Hfrom.
  { rewrite (filter_perm _ _ _ Hperm). simpl. unfold sameId.
    rewrite Nat.eqb_refl. simpl.
    apply Nat.eqb_neq in Hid1, Hid2. by rewrite Hid1, Hid2. }
  assert (idsOf (List.filter (fun tile => negb (sameId tile d)) [a; b; c])
          ⊆+ idsOf (hand player)) as Hsub.
  { unfold idsOf. rewrite Hfrom. apply fmap_submseteq, NoDup_submseteq.
    - apply NoDup_cons. split; [|apply NoDup_singleton].
      intros Hx. by apply list_elem_of_singleton in Hx.
    - intros x Hx. apply elem_of_cons in Hx as [->|Hx]; [done|].
      by apply list_elem_of_singleton in Hx as ->. }
  exists idx, player,
    (set_melds (melds player ++ [mkMeld chow [a; b; c] false (Some (currentPlayer gs))])
       (set_hand (removeAllById (List.filter (fun tile => negb (sameId tile d)) [a; b; c])
                    (hand player)) player)),
    d, a, b, c, v, t1, t2.
  cbn [claimantToDiscard takeDiscardIntoMeld].
  simpl. split_and!; try done.
  - rewrite list_lookup_insert_eq; [done|by eapply lookup_lt_Some].
  - apply removeAllById_ids in Hsub. rewrite Hsub.
    apply (Permutation_app_tail _ (l' := idsOf [t1; t2])), fmap_Permutation, Hfrom.
  - intros j Hj. by rewrite list_lookup_insert_ne.
Qed.

Lemma accepted_chow_effects_witness :
  chowTaken chowGame chowClaimedGame (mkClaim claim_chow "p1").
Proof.
  apply accepted_chow_effects; [| |reflexivity|vm_compute; reflexivity].
  { split; [intros d [= <-]|]; ranks_of_tile_set. }
  intros p t d Hp Ht [= <-].
  repeat (apply elem_of_cons in Hp as [->|Hp]); try by apply elem_of_nil in Hp.
  all: simpl in Ht;
    repeat (apply elem_of_cons in Ht as [->|Ht]); try by apply elem_of_nil in Ht.
  all: simpl; lia.
Defined.

(** ** The win detector *)

Lemma suitGroupsOf_TypeError (chows : list Meld) (m : list (Suit * list (list (option Z)))) :
  suitGroupsOf chows m = TypeError -> exists c, c ∈ chows /\ meld_tiles c = [].
Proof.
  revert m. induction chows as [|c chows IH]; intros m; simpl; [done|].
  destruct (meld_tiles c) eqn:E.
  - intros _. exists c. split; [constructor|done].
  - intros H. apply IH in H as (c' & Hc' & Hnil). exists c'. split; [by constructor|done].
Qed.

(** X6: The verdicts of [isWinningHand].  A rejected hand is reported with
    no ambition and no payout.  An accepted hand always starts with [todas];
    the other ambitions are among Siete Pares, Escalera, No Flowers and All
    Up, in this order; every line of the breakdown carries the amount that
    [getAmbitionPayout] gives for the ambition, and the total is their sum.
    The call throws only on a chow meld without tiles. *)
Theorem isWinningHand_verdict (h : list Tile) (ms : list Meld) (fl : list Tile) :
  match isWinningHand h ms fl with
  | Ok w =>
      if isValid w then
        exists rest,
          ambitions w = todas :: rest
          /\ rest `sublist_of` [siete_pares; escalera; no_flowers_end; all_up]
          /\ (breakdown w).*2 = getAmbitionPayout <$> ambitions w
          /\ Qeq (totalPayout w) (sumQ (getAmbitionPayout <$> ambitions w))
          /\ (no_flowers_end ∈ rest -> fl = [])
          /\ (all_up ∈ rest -> ms <> [] /\ Forall (fun m => isConcealed m = true) ms)
      else w = invalidWin
  | TypeError => exists m, m ∈ ms /\ meld_type m = chow /\ meld_tiles m = []
  | OutOfFuel => False
  end.
Proof.
  unfold isWinningHand. destruct (negb _); [done|].
  destruct (isSietePares h).
  { simpl. exists [siete_pares]. split_and!; try done.
    - apply sublist_skip, sublist_nil_l.
    - intros H. apply list_elem_of_singleton in H. done.
    - intros H. apply list_elem_of_singleton in H. done. }
  destruct (checkStandardWin h ms).1; [|done].
  unfold isEscalera.
  set (chows := List.filter (fun m => bool_decide (meld_type m = chow)) ms).
  assert (Hup : (length (List.filter isConcealed ms) =? length ms)%nat
                && (0 <? length ms)%nat = true ->
                ms <> [] /\ Forall (fun m => isConcealed m = true) ms).
  { intros H. apply andb_true_iff in H as [H1 H2].
    apply Nat.eqb_eq in H1. apply Nat.ltb_lt in H2. split; [intros ->; simpl in H2; lia|].
    clear H2. induction ms as [|m ms IH]; [done|]. simpl in H1.
    pose proof (List.filter_length_le isConcealed ms) as Hle.
    destruct (isConcealed m) eqn:E; simpl in H1; [|lia].
    constructor; [done|]. apply IH. lia. }
  assert (Hfl : (length fl =? 0)%nat = true -> fl = []).
  { intros H. apply Nat.eqb_eq in H. by destruct fl. }
  destruct (length chows <? 3)%nat; simpl.
  - destruct (length fl =? 0)%nat eqn:Efl;
      destruct ((length (List.filter isConcealed ms) =? length ms)%nat
                && (0 <? length ms)%nat) eqn:Eup; simpl;
      eexists; (split; [reflexivity|]); split_and!; try done;
      try (intros _; by auto);
      try (intros H; repeat (apply elem_of_cons in H as [H|H]; try done);
           by apply elem_of_nil in H);
      repeat first [apply sublist_nil_l | apply sublist_skip | apply sublist_cons].
  - destruct (suitGroupsOf chows []) as [sg| |] eqn:Esg; simpl.
    + destruct (existsb _ sg);
        destruct (length fl =? 0)%nat eqn:Efl;
        destruct ((length (List.filter isConcealed ms) =? length ms)%nat
                  && (0 <? length ms)%nat) eqn:Eup; simpl;
        eexists; (split; [reflexivity|]); split_and!; try done;
        try (intros _; by auto);
        try (intros H; repeat (apply elem_of_cons in H as [H|H]; try done);
             by apply elem_of_nil in H);
        repeat first [apply sublist_nil_l | apply sublist_skip | apply sublist_cons].
    + apply suitGroupsOf_TypeError in Esg as (c & Hc & Hnil).
      apply list_elem_of_In, filter_In in Hc as [Hc Hty].
      exists c. split_and!; [by apply list_elem_of_In|by apply bool_decide_eq_true in Hty|done].
    + by apply suitGroupsOf_returns in Esg.
Qed.

Lemma decomposes_length (n : nat) (tiles : list Tile) :
  decomposes n tiles -> length tiles = 3 * n + 2.
Proof.
  induction 1 as [a b tiles Hperm _|n a b c rest tiles Hperm _ _ IH].
  - by rewrite Hperm.
  - rewrite Hperm. simpl. lia.
Qed.

Lemma sum_list_exact {A : Type} (f : A -> nat) (k : nat) (l : list A) :
  (forall x, x ∈ l -> k <= f x) -> sum_list (f <$> l) = k * length l ->
  forall x, x ∈ l -> f x = k.
Proof.
  induction l as [|a l IH]; intros Hge Hsum x Hx; [by apply elem_of_nil in Hx|].
  assert (k * length l <= sum_list (f <$> l)) as Hle.
  { clear -Hge. induction l as [|b l IH]; csimpl; [lia|].
    assert (k <= f b) by (apply Hge; right; left).
    assert (k * length l <= sum_list (f <$> l)); [|lia].
    apply IH. intros y Hy. apply elem_of_cons in Hy as [->|Hy].
    - apply Hge. left.
    - apply Hge. right. by right. }
  csimpl in Hsum. assert (k <= f a) by (apply Hge; left).
  apply elem_of_cons in Hx as [->|Hx]; [nia|].
  apply IH; [|nia|done]. intros y Hy. apply Hge. by right.
Qed.

Lemma standard_win_shape (h : list Tile) (ms : list Meld) :
  NoDup (idsOf h) -> (checkStandardWin h ms).1 = true ->
  length ms <= 5 /\ decomposes (5 - length ms) h /\ length h = 3 * (5 - length ms) + 2.
Proof.
  intros Hnd Hw. destruct (checkStandardWin_sound h ms Hnd Hw) as [Hle Hdec].
  split_and!; [done..|]. by apply decomposes_length.
Qed.

(** X7: What [checkStandardWin] accepts is a winning structure: with tiles
    of distinct instance ids whose ranks are those of the tile set (1 to 9),
    an accepted hand is made of one trio for every meld short of five, and a
    pair of matching tiles.  The existing melds are only counted. *)
Theorem standard_win_is_sound (h : list Tile) (ms : list Meld) :
  Forall wellFormedRank h ->
  NoDup (idsOf h) -> (checkStandardWin h ms).1 = true ->
  length ms <= 5 /\ decomposes (5 - length ms) h /\ length h = 3 * (5 - length ms) + 2.
Proof.
  intros _. apply standard_win_shape.
Qed.

Lemma standard_win_is_sound_witness :
  length [eastPung] <= 5 /\ decomposes (5 - length [eastPung]) meldedWinHand
  /\ length meldedWinHand = 3 * (5 - length [eastPung]) + 2.
Proof.
  apply standard_win_is_sound.
  - ranks_of_tile_set.
  - apply (bool_decide_unpack _). vm_compute. exact I.
  - vm_compute. reflexivity.
Defined.

Lemma no_kong_in_win (h : list Tile) (ms : list Meld) (fl : list Tile)
    (w : WinCondition) :
  NoDup (idsOf h) ->
  (forall m, m ∈ ms -> 3 <= length (meld_tiles m)) ->
  isWinningHand h ms fl = Ok w -> isValid w = true ->
  forall m, m ∈ ms -> length (meld_tiles m) = 3.
Proof.
  intros Hnd Hge Hw Hvalid. unfold isWinningHand in Hw.
  rewrite foldl_meld_count in Hw.
  destruct (Nat.eqb_spec (length h + (0 + sum_list ((fun m => length (meld_tiles m)) <$> ms)))
              17) as [Htotal|]; simpl in Hw; [|by injection Hw as <-].
  apply (sum_list_exact (fun m => length (meld_tiles m)) 3); [done|].
  destruct (isSietePares h) eqn:Esiete.
  - unfold isSietePares in Esiete.
    destruct (Nat.eqb_spec (length h) 17) as [Hlen|]; simpl in Esiete; [|done].
    assert (sum_list ((fun m => length (meld_tiles m)) <$> ms) = 0) as Hzero by lia.
    destruct ms as [|m ms]; [done|].
    specialize (Hge m ltac:(left)). csimpl in Hzero. lia.
  - destruct (checkStandardWin h ms).1 eqn:Estd; [|by injection Hw as <-].
    apply standard_win_shape in Estd as (Hle & _ & Hlen); [lia|done].
Qed.

(** X8: A hand next to a meld of four tiles never wins.  When
    [isWinningHand] accepts a hand of tiles with distinct instance ids,
    the ranks of the hand and of the melds are those of the tile set (1 to
    9) and every meld holds at least three tiles, every meld holds exactly
    three: the count of seventeen and the five trios and a pair leave no
    room for the fourth tile of a kong. *)
Theorem winning_hand_has_no_kong (h : list Tile) (ms : list Meld) (fl : list Tile)
    (w : WinCondition) :
  Forall wellFormedRank h ->
  Forall (fun m => Forall wellFormedRank (meld_tiles m)) ms ->
  NoDup (idsOf h) ->
  (forall m, m ∈ ms -> 3 <= length (meld_tiles m)) ->
  isWinningHand h ms fl = Ok w -> isValid w = true ->
  forall m, m ∈ ms -> length (meld_tiles m) = 3.
Proof. intros _ _. apply no_kong_in_win. Qed.

Lemma winning_hand_has_no_kong_witness : length (meld_tiles eastPung) = 3.
Proof.
  eapply (winning_hand_has_no_kong meldedWinHand [eastPung] []).
  - ranks_of_tile_set.
  - ranks_of_tile_set.
  - apply (bool_decide_unpack _). vm_compute. exact I.
  - intros m Hm. apply list_elem_of_singleton in Hm as ->. simpl. lia.
  - vm_compute. reflexivity.
  - reflexivity.
  - left.
Defined.

(** ** Hand size and bonus tiles *)

Lemma sweepBonus_flag (r kept pushed fl w : list Tile) :
  (sweepBonus r kept pushed fl w true).2 = true.
Proof.
  revert kept pushed fl w. induction r as [|t r IH]; intros kept pushed fl w; simpl; [done|].
  destruct (isBonus t); [destruct w|]; apply IH.
Qed.

(** A sweep that does not ask for another one has met no bonus tile and has
    changed nothing. *)
Lemma sweepBonus_quiet (r kept pushed fl w : list Tile) (flag : bool)
    (h' fl' w' : list Tile) :
  sweepBonus r kept pushed fl w flag = (h', fl', w', false) ->
  Forall regular r /\ h' = rev r ++ kept ++ pushed /\ fl' = fl /\ w' = w.
Proof.
  revert kept pushed fl w flag.
  induction r as [|t r IH]; intros kept pushed fl w flag; simpl.
  - by intros [= <- <- <- _].
  - destruct (isBonus t) eqn:Et.
    + intros H.
      pose proof (sweepBonus_flag r kept
                    (match w with [] => pushed | x :: _ => pushed ++ [x] end)
                    (fl ++ [t]) (match w with [] => [] | _ :: w0 => w0 end)) as Hflag.
      destruct w; rewrite H in Hflag; done.
    + intros H. apply IH in H as (Hr & -> & -> & ->).
      split_and!; try done; [by constructor|]. by rewrite <- app_assoc.
Qed.

(** Bonus tiles exposed by a sweep. *)
Lemma sweepBonus_exposed (r kept pushed fl w : list Tile) (flag : bool)
    (h' fl' w' : list Tile) (flag' : bool) :
  sweepBonus r kept pushed fl w flag = (h', fl', w', flag') ->
  exists exposed, fl' = fl ++ exposed /\ Forall (fun t => isBonus t = true) exposed.
Proof.
  revert kept pushed fl w flag.
  induction r as [|t r IH]; intros kept pushed fl w flag; simpl.
  - intros [= _ <- _ _]. exists []. by rewrite app_nil_r.
  - destruct (isBonus t) eqn:Et.
    + intros H.
      assert (exists exposed, fl' = (fl ++ [t]) ++ exposed
                              /\ Forall (fun t => isBonus t = true) exposed)
        as (exposed & -> & Hall) by (destruct w; eapply IH, H).
      exists (t :: exposed). split; [by rewrite <- app_assoc|by constructor].
    + apply IH.
Qed.

Lemma exposeLoop_post (fuel : nat) (h fl w h' fl' w' : list Tile) :
  exposeLoop fuel h fl w = Ok (h', fl', w') ->
  Forall regular h'
  /\ exists exposed, fl' = fl ++ exposed /\ Forall (fun t => isBonus t = true) exposed.
Proof.
  revert h fl w. induction fuel as [|fuel IH]; intros h fl w; simpl; [done|].
  destruct (sweepBonus (rev h) [] [] fl w false) as [[[h1 fl1] w1] flag] eqn:Es.
  destruct flag.
  - intros H. apply IH in H as (Hreg & exposed & -> & Hall).
    apply sweepBonus_exposed in Es as (exposed1 & -> & Hall1).
    split; [done|]. exists (exposed1 ++ exposed).
    split; [by rewrite app_assoc|by apply Forall_app].
  - intros [= <- <- <-]. apply sweepBonus_quiet in Es as (Hreg & -> & -> & ->).
    split.
    + rewrite !app_nil_r, rev_involutive.
      by apply Forall_rev in Hreg; rewrite rev_involutive in Hreg.
    + exists []. by rewrite app_nil_r.
Qed.

Lemma fillHand_post (h fl w h' fl' w' : list Tile) :
  fillHand h fl w = (h', fl', w') ->
  Forall regular h ->
  Forall regular h' /\ (16 <= length h' \/ w' = [])
  /\ exists exposed, fl' = fl ++ exposed /\ Forall (fun t => isBonus t = true) exposed.
Proof.
  revert h fl. induction w as [|t w IH]; intros h fl; simpl.
  - intros [= <- <- <-] Hreg. split_and!; [done|by right|].
    exists []. by rewrite app_nil_r.
  - destruct (Nat.ltb_spec (length h) 16) as [Hlt|Hge].
    + destruct (isBonus t) eqn:Et.
      * intros H Hreg. apply IH in H as (Hreg' & Hfull & exposed & -> & Hall); [|done].
        split_and!; [done..|]. exists (t :: exposed).
        split; [by rewrite <- app_assoc|by constructor].
      * intros H Hreg. apply IH in H as (Hreg' & Hfull & Hfl); [done|].
        apply Forall_app. split; [done|]. by constructor.
    + intros [= <- <- <-] Hreg. split_and!; [done|by left|].
      exists []. by rewrite app_nil_r.
Qed.

Lemma ensureCorrectHandSize_post (g g' : GameState) (i : nat) :
  ensureCorrectHandSize g i = Ok g' -> handSizeEnsured g g' i.
Proof.
  unfold ensureCorrectHandSize. destruct (players g !! i) as [p|] eqn:Hp; [|done].
  destruct (exposeLoop _ _ _ _) as [[[h1 fl1] w1]| |] eqn:He; simpl; [|done..].
  destruct (fillHand h1 fl1 w1) as [[h2 fl2] w2] eqn:Hf.
  intros [= <-].
  pose proof (exposeLoop_tiles _ _ _ _ _ _ _ He) as Hperm1.
  pose proof (fillHand_tiles _ _ _ _ _ _ Hf) as Hperm2.
  apply exposeLoop_post in He as (Hreg1 & exposed1 & -> & Hall1).
  apply fillHand_post in Hf as (Hreg2 & Hfull & exposed2 & -> & Hall2); [|done].
  exists p, (set_flowers ((flowers p ++ exposed1) ++ exposed2) (set_hand h2 p)).
  simpl. split_and!; try done.
  - rewrite list_lookup_insert_eq; [done|by eapply lookup_lt_Some].
  - by rewrite Hperm2, Hperm1.
  - exists (exposed1 ++ exposed2). split; [by rewrite app_assoc|by apply Forall_app].
  - intros j Hj. by rewrite list_lookup_insert_ne.
Qed.

(** X9: [ensureCorrectHandSize] (and its alias [exposeAndReplaceFlowers])
    returns for every player of the game, and then: the hand holds no bonus
    tile, and holds at least 16 tiles unless the wall is used up; the
    flowers have grown by bonus tiles only; hand, flowers and wall together
    hold the tiles they held before; nothing else has changed: the state is
    the one before with this hand, these flowers and this wall. *)
Theorem ensureCorrectHandSize_ensures (g : GameState) (i : nat) :
  i < length (players g) ->
  exists g', exposeAndReplaceFlowers g i = Ok g'
             /\ ensureCorrectHandSize g i = Ok g' /\ handSizeEnsured g g' i.
Proof.
  intros Hi. destruct (ensureCorrectHandSize_returns g i Hi) as [g' Hg'].
  exists g'. split_and!; [done..|]. by apply ensureCorrectHandSize_post.
Qed.

Lemma ensureCorrectHandSize_ensures_witness :
  exists g', exposeAndReplaceFlowers bonusInHandGame 0 = Ok g'
             /\ ensureCorrectHandSize bonusInHandGame 0 = Ok g'
             /\ handSizeEnsured bonusInHandGame g' 0.
Proof. apply ensureCorrectHandSize_ensures. simpl. lia. Defined.

(** *** Hands without bonus tiles *)

Lemma sweepBonus_regular (r kept pushed fl w : list Tile) (flag : bool) :
  Forall regular r ->
  sweepBonus r kept pushed fl w flag = (rev r ++ kept ++ pushed, fl, w, flag).
Proof.
  revert kept. induction r as [|t r IH]; intros kept Hreg; simpl; [done|].
  apply Forall_cons in Hreg as [Ht Hr]. unfold regular in Ht. rewrite Ht.
  rewrite IH by done. by rewrite <- app_assoc.
Qed.

Lemma exposeLoop_regular (fuel : nat) (h fl w : list Tile) :
  Forall regular h -> exposeLoop (S fuel) h fl w = Ok (h, fl, w).
Proof.
  intros Hreg. simpl. rewrite sweepBonus_regular by by apply Forall_rev.
  by rewrite !app_nil_r, rev_involutive.
Qed.

Lemma fillHand_full (h fl w : list Tile) :
  16 <= length h -> fillHand h fl w = (h, fl, w).
Proof.
  intros Hlen. destruct w as [|t w]; simpl; [done|].
  by destruct (Nat.ltb_spec (length h) 16); [lia|].
Qed.

Lemma player_eta (p : Player) : set_flowers (flowers p) (set_hand (hand p) p) = p.
Proof. by destruct p. Qed.

Lemma game_eta (g : GameState) : set_wall (wall g) (set_players (players g) g) = g.
Proof. by destruct g. Qed.

(** A full hand of regular tiles is left alone. *)
Lemma ensureCorrectHandSize_id (g : GameState) (i : nat) (p : Player) :
  players g !! i = Some p -> Forall regular (hand p) -> 16 <= length (hand p) ->
  ensureCorrectHandSize g i = Ok g.
Proof.
  intros Hp Hreg Hlen. unfold ensureCorrectHandSize. rewrite Hp.
  rewrite exposeLoop_regular by done. simpl. rewrite fillHand_full by done.
  by rewrite player_eta, list_insert_id, game_eta.
Qed.

Lemma ensureAll_id (indices : list nat) (g : GameState) :
  (forall i, i ∈ indices ->
     exists p, players g !! i = Some p /\ Forall regular (hand p) /\ 16 <= length (hand p)) ->
  ensureAll indices g = Ok g.
Proof.
  induction indices as [|i indices IH]; intros H; simpl; [done|].
  destruct (H i) as (p & Hp & Hreg & Hlen); [left|].
  rewrite (ensureCorrectHandSize_id g i p) by done. simpl.
  apply IH. intros j Hj. apply H. by right.
Qed.

Lemma set_hand_app (p : Player) (l1 l2 : list Tile) :
  set_hand (hand (set_hand (hand p ++ l1) p) ++ l2) (set_hand (hand p ++ l1) p)
  = set_hand (hand p ++ l1 ++ l2) p.
Proof. unfold set_hand. simpl. by rewrite app_assoc. Qed.

(** The dealing loop on a wall that is long enough: every player receives, in
    order, one tile of the front of the wall for each occurrence of their
    index in the dealing order. *)
Lemma deal_hands (order : list nat) (ps ps' : list Player) (w rest : list Tile) :
  deal order ps w = Ok (ps', rest) -> length order <= length w ->
  rest = drop (length order) w /\ length ps' = length ps
  /\ forall i p', ps' !! i = Some p' ->
       exists p dealt,
         ps !! i = Some p /\ p' = set_hand (hand p ++ dealt) p
         /\ dealt `sublist_of` take (length order) w
         /\ length dealt = count_occ Nat.eq_dec order i.
Proof.
  revert ps w. induction order as [|j order IH]; intros ps w; simpl.
  - intros [= <- <-] _. split_and!; [done..|].
    intros i p' Hp'. exists p', []. rewrite app_nil_r.
    split_and!; [done|by destruct p'|done..].
  - destruct w as [|tile w]; simpl; [lia|].
    destruct (ps !! j) as [pj|] eqn:Hj; [|done].
    intros H Hlen. apply IH in H as (-> & Hl & Hhands); [|lia].
    rewrite length_insert in Hl. split_and!; [done..|].
    intros i p' Hp'. apply Hhands in Hp' as (p1 & dealt & Hp1 & -> & Hsub & Hdealt).
    destruct (decide (i = j)) as [->|Hne].
    + rewrite list_lookup_insert_eq in Hp1 by by eapply lookup_lt_Some.
      apply (inj Some) in Hp1 as <-.
      exists pj, (tile :: dealt). rewrite set_hand_app. simpl.
      split_and!; [done..|by apply sublist_skip|].
      destruct (Nat.eq_dec j j); [lia|done].
    + rewrite list_lookup_insert_ne in Hp1 by done.
      exists p1, dealt. split_and!; [done..|by apply sublist_cons|].
      destruct (Nat.eq_dec j i); [congruence|done].
Qed.

Lemma drawTile_regular (g : GameState) (i : nat) (p : Player) (t0 : Tile) (w' : list Tile) :
  players g !! i = Some p -> wall g = t0 :: w' -> regular t0 ->
  drawTile g i
  = Ok (set_hasDrawnThisTurn true
          (set_phase discard
             (set_lastDrawnTile (Some (set_isRecentlyDrawn true t0))
                (set_wall w'
                   (set_players
                      (<[i := set_hand ((set_isRecentlyDrawn false <$> hand p)
                                        ++ [set_isRecentlyDrawn true t0]) p]>
                         (players g)) g)))),
        Some (set_isRecentlyDrawn true t0)).
Proof.
  intros Hp Hw Ht0. unfold drawTile. rewrite Hw, Hp. simpl.
  unfold regular in Ht0. by rewrite Ht0.
Qed.

Lemma Forall_of_sublist {A : Type} (P : A -> Prop) (l1 l2 : list A) :
  l1 `sublist_of` l2 -> Forall P l2 -> Forall P l1.
Proof.
  induction 1 as [|x l1 l2 _ IH|x l1 l2 _ IH]; intros H; [done|..].
  - apply Forall_cons in H as [? ?]. constructor; auto.
  - apply Forall_cons in H as [? ?]. auto.
Qed.

(** *** The setup *)

(** X10: [initializeGame] with four players and fair shuffles always
    returns, and the state it returns is this: the players are the given
    ones, each with 16 regular tiles, the dealer with 17 (the dealer has
    drawn); no flowers, melds or discards; 71 regular tiles in the wall and
    the 8 bonus tiles in the flower wall; the dealer is to discard. *)
Theorem initializeGame_deals (rnd : Randomness) (ps : list Player) :
  fairRandomness rnd -> length ps = 4 ->
  exists gs, initializeGame rnd ps = Ok gs /\ freshlyDealt rnd ps gs.
Proof.
  intros (Hall & Hreg & Hbonus & Hdealer) Hps. unfold initializeGame.
  set (wall0 := shuffleRegular rnd _).
  set (flowerWall0 := shuffleBonus rnd _).
  assert (Hwall0 : wall0 ≡ₚ List.filter (fun tile => negb (isBonus tile)) createTileSet).
  { unfold wall0. rewrite Hreg. apply filter_perm, Hall. }
  assert (Hflower0 : flowerWall0 ≡ₚ List.filter isBonus createTileSet).
  { unfold flowerWall0. rewrite Hbonus. apply filter_perm, Hall. }
  assert (Hlen0 : length wall0 = 136) by (by rewrite Hwall0).
  assert (Hreg0 : Forall regular wall0).
  { rewrite Hwall0. apply Forall_forall. intros t Ht.
    apply list_elem_of_In, filter_In in Ht as [_ Ht]. by apply negb_true_iff in Ht. }
  clearbody wall0 flowerWall0.
  set (ps0 := imap _ ps). assert (length ps0 = length ps) as Hl0 by apply length_imap.
  destruct (deal_returns dealOrder ps0 wall0) as (ps1 & rest & Hdeal & Hl1).
  { apply Forall_forall. intros i Hi. rewrite Hl0, Hps. revert i Hi. apply Forall_forall.
    apply (bool_decide_unpack _). vm_compute. exact I. }
  rewrite Hdeal. simpl.
  destruct (deal_hands _ _ _ _ _ Hdeal) as (Hrest & _ & Hhands).
  { rewrite Hlen0. simpl. lia. }
  assert (Hps1 : forall i p', ps1 !! i = Some p' ->
            exists p, ps !! i = Some p /\ i < 4
              /\ player_id p' = player_id p /\ length (hand p') = 16
              /\ Forall regular (hand p')
              /\ flowers p' = [] /\ melds p' = [] /\ discards p' = []
              /\ isDealer p' = (i =? randomDealer rnd)%nat).
  { intros i p' Hp'. destruct (Hhands i p' Hp') as (p0 & dealt & Hp0 & -> & Hsub & Hcount).
    unfold ps0 in Hp0. rewrite list_lookup_imap in Hp0.
    destruct (ps !! i) as [p|] eqn:E; simpl in Hp0; [|done].
    apply (inj Some) in Hp0 as <-. simpl.
    assert (i < 4) as Hi by (rewrite <- Hps; by eapply lookup_lt_Some).
    exists p. split_and!; try done.
    - rewrite Hcount. clear -Hi.
      destruct i as [|[|[|[|i]]]]; [reflexivity..|lia].
    - eapply Forall_of_sublist; [exact Hsub|]. by apply Forall_take. }
  rewrite ensureAll_id; simpl.
  2:{ intros i Hi. apply elem_of_seq in Hi as [_ Hi]. simpl in Hi.
      destruct (lookup_lt_is_Some_2 ps1 i) as [p' Hp']; [lia|].
      exists p'. destruct (Hps1 i p' Hp') as (p & _ & _ & _ & Hlen & Hregp & _).
      split_and!; [done..|lia]. }
  destruct (lookup_lt_is_Some_2 ps1 (randomDealer rnd)) as [pd Hpd]; [lia|].
  assert (length rest = 72) as Hlrest.
  { rewrite Hrest, length_drop, Hlen0. reflexivity. }
  assert (Forall regular rest) as Hregrest by (rewrite Hrest; by apply Forall_drop).
  destruct rest as [|t0 w']; [done|].
  apply Forall_cons in Hregrest as [Ht0 Hw'].
  erewrite drawTile_regular; [|exact Hpd|reflexivity|exact Ht0]. simpl.
  eexists. split; [reflexivity|]. unfold freshlyDealt. simpl.
  destruct (Hps1 _ _ Hpd) as (pd0 & Hpd0 & _ & Hidd & Hlend & Hregd & Hfld & Hmd & Hdd & Hisd).
  split_and!; try done.
  - rewrite list_fmap_insert. simpl. rewrite list_insert_id.
    + apply list_eq. intros i. rewrite !list_lookup_fmap.
      destruct (ps1 !! i) as [p'|] eqn:E.
      * destruct (Hps1 i p' E) as (p & Hp & _ & Hid & _). rewrite Hp. simpl.
        by rewrite Hid.
      * apply lookup_ge_None in E. rewrite Hl1, Hl0 in E.
        apply lookup_ge_None in E. by rewrite E.
    + by rewrite list_lookup_fmap, Hpd.
  - intros i p Hp. destruct (decide (i = randomDealer rnd)) as [->|Hne].
    + rewrite list_lookup_insert_eq in Hp by by eapply lookup_lt_Some.
      apply (inj Some) in Hp as <-. rewrite Nat.eqb_refl. simpl.
      split_and!; try done.
      * rewrite length_app, length_fmap. simpl. lia.
      * apply Forall_app. split; [|by repeat constructor].
        apply Forall_fmap. eapply Forall_impl; [exact Hregd|]. done.
      * by rewrite Hisd, Nat.eqb_refl.
    + rewrite list_lookup_insert_ne in Hp by done.
      destruct (Hps1 i p Hp) as (p0 & _ & _ & _ & ? & ? & ? & ? & ? & ?).
      apply Nat.eqb_neq in Hne. rewrite Hne. split_and!; try done. congruence.
  - simpl in Hlrest. lia.
Qed.

Lemma initializeGame_deals_witness :
  exists gs, initializeGame noShuffle fourPlayers = Ok gs
             /\ freshlyDealt noShuffle fourPlayers gs.
Proof.
  apply initializeGame_deals; [|reflexivity].
  split_and!; simpl; try done. lia.
Defined.

(** ** What holds in play *)

Lemma regular_not_bonus (l : list Tile) :
  Forall regular l -> Forall (fun t => isBonus t = true) l -> l = [].
Proof.
  destruct l as [|t l]; [done|]. intros H1 H2.
  apply Forall_cons in H1 as [H1 _]. apply Forall_cons in H2 as [H2 _].
  unfold regular in H1. congruence.
Qed.

Lemma tidy_insert (g : GameState) (i : nat) (p' : Player) :
  Forall tidyPlayer (players g) -> tidyPlayer p' ->
  Forall tidyPlayer (<[i := p']> (players g)).
Proof. intros H Hp'. by apply Forall_insert. Qed.

Lemma tidy_lookup (g : GameState) (i : nat) (p : Player) :
  tidy g -> players g !! i = Some p -> tidyPlayer p.
Proof. intros [_ H] Hp. by eapply Forall_lookup_1 in H. Qed.

Lemma regular_cleared (l : list Tile) :
  Forall regular l -> Forall regular (set_isRecentlyDrawn false <$> l).
Proof. intros H. apply Forall_fmap. eapply Forall_impl; [exact H|]. done. Qed.

Lemma drawTile_tidy (g g' : GameState) (i : nat) (r : option Tile) :
  tidy g -> drawTile g i = Ok (g', r) ->
  tidy g' /\ flowerWall g' = flowerWall g /\ (r = None -> wall g = [] /\ g' = g).
Proof.
  intros Htidy H. pose proof Htidy as [Hwall Hps].
  destruct (wall g) as [|t0 w'] eqn:Hw.
  { unfold drawTile in H. rewrite Hw in H. simpl in H. by injection H as <- <-. }
  destruct (players g !! i) as [p|] eqn:Hp.
  2:{ unfold drawTile in H. by rewrite Hw, Hp in H. }
  apply Forall_cons in Hwall as [Ht0 Hw'].
  rewrite (drawTile_regular g i p t0 w' Hp Hw Ht0) in H. injection H as <- <-.
  destruct (tidy_lookup g i p Htidy Hp) as (Hhand & Hfl & Hmelds).
  split_and!; [|done..]. split; [done|]. simpl. apply tidy_insert; [done|].
  split_and!; [|done..]. simpl. apply Forall_app. split; [by apply regular_cleared|].
  by repeat constructor.
Qed.

Lemma discardTile_tidy (g g' : GameState) (i : nat) (tile : Tile) :
  tidy g -> discardTile g i tile = Ok g' -> tidy g' /\ flowerWall g' = flowerWall g.
Proof.
  intros Htidy. pose proof Htidy as [Hwall Hps]. unfold discardTile.
  destruct (players g !! i) as [p|] eqn:Hp; [|done].
  destruct (findIndex _ (hand p)) as [k|]; [|by intros [= <-]].
  intros [= <-]. destruct (tidy_lookup g i p Htidy Hp) as (Hhand & Hfl & Hmelds).
  split; [|done]. split; [done|]. simpl. apply tidy_insert; [done|].
  split_and!; [|done..]. simpl.
  eapply Forall_of_sublist; [apply sublist_delete|]. by apply regular_cleared.
Qed.

Lemma removeById_sublist (x : Tile) (l : list Tile) : removeById x l `sublist_of` l.
Proof. unfold removeById. destruct (findIndex _ l); [apply sublist_delete|done]. Qed.

Lemma removeAllById_sublist (xs l : list Tile) : removeAllById xs l `sublist_of` l.
Proof.
  unfold removeAllById. revert l. induction xs as [|x xs IH]; intros l; simpl; [done|].
  etrans; [apply IH|apply removeById_sublist].
Qed.

Lemma takeDiscardIntoMeld_tidy (g : GameState) (idx : nat) (player : Player) (d : Tile)
    (fromHand : list Tile) (ty : MeldType) (meldTiles : list Tile) :
  tidy g -> players g !! idx = Some player ->
  length meldTiles = match ty with kong => 4 | _ => 3 end ->
  tidy (takeDiscardIntoMeld g idx player d fromHand ty meldTiles).
Proof.
  intros Htidy Hp Hlen. pose proof Htidy as [Hwall Hps].
  destruct (tidy_lookup g idx player Htidy Hp) as (Hhand & Hfl & Hmelds).
  split; [done|]. simpl. apply tidy_insert; [done|].
  split_and!; simpl; [|done|].
  - eapply Forall_of_sublist; [apply removeAllById_sublist|done].
  - apply Forall_app. split; [done|]. constructor; [|done]. by split_and!.
Qed.

Lemma processClaim_tidy (g g' : GameState) (claim : ClaimAction) (b : bool) :
  tidy g -> processClaim g claim = Ok (g', b) -> tidy g' /\ flowerWall g' = flowerWall g.
Proof.
  intros Htidy H. destruct b; [|by rewrite (processClaim_reject_inv _ _ _ H)].
  destruct (processClaim_accept_inv _ _ _ H) as (idx & player & d & Hidx & Hp & Hd & Hk).
  destruct (claim_type claim).
  - destruct Hk as (c & Hc & ->).
    apply formChow_run in Hc as (x & y & z & v & t1 & t2 & -> & _).
    split; [|done].
    by apply (takeDiscardIntoMeld_tidy g idx player d _ chow [x; y; z]).
  - destruct Hk as (Hlen & ->). split; [|done].
    apply (takeDiscardIntoMeld_tidy g idx player d _ pung); [done..|].
    simpl. by rewrite Hlen.
  - destruct Hk as (Hlen & drawnState & drawn & Hdraw & ->).
    apply drawTile_tidy in Hdraw as (Ht & Hfw & _); [done|].
    apply (takeDiscardIntoMeld_tidy g idx player d _ kong); [done..|].
    simpl. by rewrite Hlen.
  - destruct Hk as (w & _ & _ & ->).
    pose proof (recordAmbitions_frame (claim_playerId claim) (ambitions w)
                  (set_winner (Some idx) (set_status finished g))) as Hf.
    simpl in Hf. destruct Hf as (Hf1 & Hf2 & Hf3 & _).
    split; [|done]. destruct Htidy as [Hwall Hps]. split; [by rewrite Hf2|by rewrite Hf1].
Qed.

Lemma step_tidy (g g' : GameState) :
  tidy g -> step g g' -> tidy g' /\ flowerWall g' = flowerWall g.
Proof.
  intros Htidy Hstep. destruct Hstep as [gs gs' i drawn H|gs gs' i tile H|gs gs' claim b H].
  - by apply drawTile_tidy in H as (? & ? & _).
  - by apply discardTile_tidy in H.
  - by apply processClaim_tidy in H.
Qed.

Lemma ensureCorrectHandSize_tidy (g g' : GameState) (i : nat) :
  tidy g -> ensureCorrectHandSize g i = Ok g' -> tidy g' /\ flowerWall g' = flowerWall g.
Proof.
  intros Htidy H. pose proof Htidy as [Hwall Hps].
  apply ensureCorrectHandSize_post in H
    as (p & p' & Hp & Hp' & Hreg & _ & Hperm & (exposed & Hfl & Hall) & Hm & _ & Hothers
        & Hfw & _).
  destruct (tidy_lookup g i p Htidy Hp) as (Hhand & Hflp & Hmelds).
  assert (Forall regular (hand p' ++ flowers p' ++ wall g')) as Hallreg.
  { rewrite Hperm, Hflp. simpl. by apply Forall_app. }
  apply Forall_app in Hallreg as [_ Hallreg]. apply Forall_app in Hallreg as [Hflreg Hwreg].
  rewrite Hfl, Hflp in Hflreg. simpl in Hflreg.
  pose proof (regular_not_bonus exposed Hflreg Hall) as ->.
  split; [|done]. split; [done|].
  apply Forall_lookup_2. intros j q Hq. destruct (decide (j = i)) as [->|Hne].
  - rewrite Hp' in Hq. apply (inj Some) in Hq as <-.
    split_and!; [done| |by rewrite Hm]. by rewrite Hfl, Hflp.
  - rewrite Hothers in Hq by done. by eapply Forall_lookup_1 in Hps.
Qed.

Lemma ensureAll_tidy (indices : list nat) (g g' : GameState) :
  tidy g -> ensureAll indices g = Ok g' -> tidy g' /\ flowerWall g' = flowerWall g.
Proof.
  revert g. induction indices as [|i indices IH]; intros g Htidy; simpl.
  - by intros [= <-].
  - destruct (ensureCorrectHandSize g i) as [g1| |] eqn:E; simpl; [|done..].
    apply ensureCorrectHandSize_tidy in E as [Ht1 Hf1]; [|done].
    intros H. apply IH in H as [Ht2 Hf2]; [|done]. split; [done|congruence].
Qed.

Lemma initializeGame_tidy (rnd : Randomness) (ps : list Player) (gs : GameState) :
  fairRandomness rnd -> initializeGame rnd ps = Ok gs ->
  tidy gs /\ flowerWall gs ≡ₚ List.filter isBonus createTileSet.
Proof.
  intros (Hall & Hreg & Hbonus & Hdealer). unfold initializeGame.
  set (wall0 := shuffleRegular rnd _).
  set (flowerWall0 := shuffleBonus rnd _).
  assert (Hwall0 : wall0 ≡ₚ List.filter (fun tile => negb (isBonus tile)) createTileSet).
  { unfold wall0. rewrite Hreg. apply filter_perm, Hall. }
  assert (Hflower0 : flowerWall0 ≡ₚ List.filter isBonus createTileSet).
  { unfold flowerWall0. rewrite Hbonus. apply filter_perm, Hall. }
  assert (Hlen0 : length wall0 = 136) by (by rewrite Hwall0).
  assert (Hreg0 : Forall regular wall0).
  { rewrite Hwall0. apply Forall_forall. intros t Ht.
    apply list_elem_of_In, filter_In in Ht as [_ Ht]. by apply negb_true_iff in Ht. }
  clearbody wall0 flowerWall0.
  set (ps0 := imap _ ps).
  destruct (deal dealOrder ps0 wall0) as [[ps1 rest]| |] eqn:Hdeal; simpl; [|done..].
  destruct (deal_hands _ _ _ _ _ Hdeal) as (Hrest & _ & Hhands).
  { rewrite Hlen0. simpl. lia. }
  match goal with |- context [ensureAll ?l ?g] => set (g0 := g) end.
  assert (tidy g0) as Htidy0.
  { split; simpl; [rewrite Hrest; by apply Forall_drop|].
    apply Forall_lookup_2. intros i p' Hp'.
    destruct (Hhands i p' Hp') as (p0 & dealt & Hp0 & -> & Hsub & _).
    unfold ps0 in Hp0. rewrite list_lookup_imap in Hp0.
    destruct (ps !! i) as [p|]; simpl in Hp0; [|done].
    apply (inj Some) in Hp0 as <-. split_and!; simpl; [|done..].
    eapply Forall_of_sublist; [exact Hsub|]. by apply Forall_take. }
  destruct (ensureAll _ g0) as [g1| |] eqn:Hens; simpl; [|done..].
  apply ensureAll_tidy in Hens as [Htidy1 Hfw1]; [|done].
  destruct (drawTile g1 (randomDealer rnd)) as [[g2 drawn]| |] eqn:Hdraw; simpl; [|done..].
  apply drawTile_tidy in Hdraw as (Htidy2 & Hfw2 & _); [|done].
  intros [= <-]. split; [done|]. by rewrite Hfw2, Hfw1.
Qed.

Lemma reachable_tidy (gs : GameState) :
  reachable gs -> tidy gs /\ flowerWall gs ≡ₚ List.filter isBonus createTileSet.
Proof.
  induction 1 as [rnd ps gs Hfair Hinit|gs gs' _ [IH1 IH2] Hstep].
  - by eapply initializeGame_tidy.
  - apply step_tidy in Hstep as [Ht Hfw]; [|done]. split; [done|]. by rewrite Hfw.
Qed.

Ltac opening_reachable :=
  apply (reachable_initial noShuffle fourPlayers);
  [split_and!; simpl; try done; lia|vm_compute; reflexivity].

Ltac openingDiscarded_reachable :=
  apply (reachable_step openingGame);
  [opening_reachable
  |apply (step_discardTile _ _ 0 (numberTile 0 circles 1)); vm_compute; reflexivity].

Ltac openingKong_reachable :=
  apply (reachable_step openingDiscarded);
  [openingDiscarded_reachable
  |apply (step_processClaim _ _ (mkClaim claim_kong "p0") true); vm_compute; reflexivity].

(** X11: Bonus tiles never come into play.  In every reachable state the
    wall and the hands hold regular tiles only, no player has exposed a
    flower, and the eight bonus tiles are where [initializeGame] put them,
    in the flower wall, which no operation reads. *)
Theorem bonus_tiles_never_in_play (gs : GameState) :
  reachable gs ->
  Forall regular (wall gs)
  /\ (forall p, p ∈ players gs -> Forall regular (hand p) /\ flowers p = [])
  /\ flowerWall gs ≡ₚ List.filter isBonus createTileSet
  /\ length (flowerWall gs) = 8.
Proof.
  intros H. apply reachable_tidy in H as [[Hwall Hps] Hfw].
  split_and!; [done| |done|by rewrite Hfw].
  intros p Hp. apply list_elem_of_lookup_1 in Hp as [i Hp].
  eapply Forall_lookup_1 in Hps as (? & ? & _); done.
Qed.

Lemma bonus_tiles_never_in_play_witness :
  Forall regular (wall openingKong)
  /\ (forall p, p ∈ players openingKong -> Forall regular (hand p) /\ flowers p = [])
  /\ flowerWall openingKong ≡ₚ List.filter isBonus createTileSet
  /\ length (flowerWall openingKong) = 8.
Proof. apply bonus_tiles_never_in_play. openingKong_reachable. Defined.

(** X12: Every meld of a reachable state is a claimed one: exposed, with
    the player it was claimed from, of three tiles, or four for a kong.
    There is no concealed meld and no meld that grows. *)
Theorem melds_are_claimed (gs : GameState) :
  reachable gs -> forall p, p ∈ players gs -> Forall claimedMeld (melds p).
Proof.
  intros H p Hp. apply reachable_tidy in H as [[_ Hps] _].
  apply list_elem_of_lookup_1 in Hp as [i Hp].
  eapply Forall_lookup_1 in Hps as (_ & _ & ?); done.
Qed.

Lemma melds_are_claimed_witness :
  Forall (fun p => Forall claimedMeld (melds p)) (players openingKong).
Proof. apply Forall_forall. apply melds_are_claimed. openingKong_reachable. Defined.

(** X13: In a reachable state a draw that returns no tile has found the
    wall empty and has left the state as it was; any other draw takes the
    first tile of the wall. *)
Theorem draw_in_play (gs gs' : GameState) (i : nat) (r : option Tile) :
  reachable gs -> drawTile gs i = Ok (gs', r) ->
  match r with
  | None => wall gs = [] /\ gs' = gs
  | Some t => exists t0, wall gs = t0 :: wall gs' /\ t = set_isRecentlyDrawn true t0
  end.
Proof.
  intros H Hdraw. apply reachable_tidy in H as [Htidy _].
  destruct r as [t|].
  - pose proof Htidy as [Hwall _].
    apply drawTile_Some in Hdraw as (p & bonus & t0 & w' & Hp & Hw & Hall & Ht0 & -> & ->).
    rewrite Hw in Hwall. apply Forall_app in Hwall as [Hbonus _].
    pose proof (regular_not_bonus bonus Hbonus Hall) as ->. by exists t0.
  - apply drawTile_tidy in Hdraw as (_ & _ & Hnone); [by apply Hnone|done].
Qed.

Lemma draw_in_play_witness :
  exists t0, wall openingKong = t0 :: wall openingKongDrawn
             /\ set_isRecentlyDrawn true (numberTile 66 bamboos 8)
                = set_isRecentlyDrawn true t0.
Proof.
  apply (draw_in_play openingKong _ 1 (Some (set_isRecentlyDrawn true (numberTile 66 bamboos 8)))).
  - openingKong_reachable.
  - vm_compute. reflexivity.
Defined.

Lemma isWinningHand_Ok (h : list Tile) (ms : list Meld) (fl : list Tile) :
  Forall (fun m => meld_tiles m <> []) ms -> exists w, isWinningHand h ms fl = Ok w.
Proof.
  intros Hms. unfold isWinningHand. destruct (negb _); [by eexists|].
  destruct (isSietePares h); [by eexists|].
  destruct (checkStandardWin h ms).1; [|by eexists].
  unfold isEscalera. destruct (_ <? 3); [by eexists|].
  set (chows := List.filter (fun m => bool_decide (meld_type m = chow)) ms).
  destruct (suitGroupsOf chows []) as [sg| |] eqn:Esg; simpl.
  - by eexists.
  - apply suitGroupsOf_TypeError in Esg as (c & Hc & Hnil).
    apply list_elem_of_In, filter_In in Hc as [Hc _].
    apply list_elem_of_In in Hc. eapply Forall_forall in Hms; [|exact Hc]. done.
  - by apply suitGroupsOf_returns in Esg.
Qed.

Lemma claimedMeld_tiles (ms : list Meld) :
  Forall claimedMeld ms -> Forall (fun m => meld_tiles m <> []) ms.
Proof.
  intros H. eapply Forall_impl; [exact H|]. intros m (_ & _ & Hlen) Hnil.
  rewrite Hnil in Hlen. by destruct (meld_type m).
Qed.

Lemma find_elem {A : Type} (f : A -> bool) (l : list A) (x : A) :
  List.find f l = Some x -> x ∈ l.
Proof. intros H. apply find_some in H as [H _]. by apply list_elem_of_In. Qed.

Lemma isValidClaim_Ok (gs : GameState) (claim : ClaimAction) :
  tidy gs -> exists b, isValidClaim gs claim = Ok b.
Proof.
  intros [_ Hps]. unfold isValidClaim, findPlayer.
  destruct (List.find _ (players gs)) as [p|] eqn:Hp; [|by eexists].
  destruct (lastDiscard gs) as [d|]; [|by eexists].
  destruct (claim_type claim); try by eexists.
  apply find_elem in Hp. eapply Forall_forall in Hps as (_ & _ & Hm); [|exact Hp].
  destruct (isWinningHand_Ok (hand p ++ [d]) (melds p) (flowers p)) as [w ->];
    [by apply claimedMeld_tiles|].
  by eexists.
Qed.

(** X14: In a reachable state neither [isValidClaim] nor [processClaim]
    throws, whatever the claim: both return, with the same verdict. *)
Theorem claims_never_throw (gs : GameState) (claim : ClaimAction) :
  reachable gs ->
  exists gs' b, isValidClaim gs claim = Ok b /\ processClaim gs claim = Ok (gs', b).
Proof.
  intros H. apply reachable_tidy in H as [Htidy _].
  destruct (isValidClaim_Ok gs claim Htidy) as [b Hb].
  pose proof (processClaim_by_isValidClaim gs claim) as Hpc. rewrite Hb in Hpc.
  destruct b.
  - destruct Hpc as [gs' Hgs']. by exists gs', true.
  - by exists gs, false.
Qed.

Lemma claims_never_throw_witness :
  exists gs' b, isValidClaim openingDiscarded (mkClaim claim_kong "p0") = Ok b
                /\ processClaim openingDiscarded (mkClaim claim_kong "p0") = Ok (gs', b).
Proof. apply claims_never_throw. openingDiscarded_reachable. Defined.

(** X15: In a reachable state no tile of a hand has the instance id of the
    open discard (so that a chow claim always takes two tiles out of the
    hand). *)
Theorem open_discard_not_in_hands (gs : GameState) :
  reachable gs -> discardNotInHands gs.
Proof.
  intros H p t d Hp Ht Hd. apply reachable_accounted in H.
  apply list_elem_of_lookup_1 in Hp as [i Hp].
  eapply hand_pile_ids_disjoint; [exact H|exact Hp|exact Ht|].
  destruct H as [_ Hlast]. by apply Hlast.
Qed.

Lemma open_discard_not_in_hands_witness : discardNotInHands openingDiscarded.
Proof. apply open_discard_not_in_hands. openingDiscarded_reachable. Defined.

(** ** Wins and the ledger in play *)

Lemma claimedMeld_exposed (ms : list Meld) :
  Forall claimedMeld ms -> List.filter isConcealed ms = [].
Proof.
  induction 1 as [|m ms (Hm & _) _ IH]; simpl; [done|]. by rewrite Hm.
Qed.

Lemma isWinningHand_in_play (h : list Tile) (ms : list Meld) (w : WinCondition) :
  Forall claimedMeld ms -> isWinningHand h ms [] = Ok w -> isValid w = true ->
  paidInPlay w.
Proof.
  intros Hms. unfold isWinningHand, paidInPlay. destruct (negb _); [by intros [= <-]|].
  destruct (isSietePares h); [intros [= <-] _; by left|].
  destruct (checkStandardWin h ms).1; [|by intros [= <-]].
  rewrite (claimedMeld_exposed ms Hms).
  assert ((length (@nil Meld) =? length ms) && (0 <? length ms) = false) as ->
    by by destruct ms.
  destruct (isEscalera ms) as [[|]| |]; simpl; [| |done..].
  - intros [= <-] _. right. right. done.
  - intros [= <-] _. right. left. done.
Qed.

(** X16: In play a win is paid in one of three ways.  For a player of a
    reachable state, whatever the hand tested next to the melds and flowers
    of that player, an accepted hand is Todas with Siete Pares (1.5), or
    Todas with No Flowers (1.25), or Todas with Escalera and No Flowers
    (1.75).  All Up is never awarded, and a standard win always carries No
    Flowers. *)
Theorem win_paid_in_play (gs : GameState) (p : Player) (h : list Tile) (w : WinCondition) :
  reachable gs -> p ∈ players gs ->
  isWinningHand h (melds p) (flowers p) = Ok w -> isValid w = true ->
  paidInPlay w.
Proof.
  intros H Hp Hw Hvalid. apply reachable_tidy in H as [[_ Hps] _].
  eapply Forall_forall in Hps as (_ & Hfl & Hm); [|exact Hp].
  rewrite Hfl in Hw. by eapply isWinningHand_in_play.
Qed.

Lemma win_paid_in_play_witness :
  exists w, isWinningHand sietePareHand [] [] = Ok w /\ paidInPlay w.
Proof.
  eexists. split; [vm_compute; reflexivity|].
  eapply (win_paid_in_play openingGame _ sietePareHand).
  - opening_reachable.
  - eapply (list_elem_of_lookup_2 _ 1). vm_compute. reflexivity.
  - vm_compute. reflexivity.
  - reflexivity.
Defined.

Lemma drawTile_books (g g' : GameState) (i : nat) (r : option Tile) :
  drawTile g i = Ok (g', r) ->
  scores g' = scores g /\ round g' = round g /\ round_wind g' = round_wind g
  /\ game_ambitions g' = game_ambitions g.
Proof.
  intros H. destruct r as [t|].
  - by apply drawTile_Some in H as (p & bonus & t0 & w' & _ & _ & _ & _ & _ & ->).
  - apply drawTile_None_inv in H as (_ & _ & _ & Hempty & Hbonus).
    destruct (decide (wall g = [])) as [Hw|Hw]; [by rewrite (Hempty Hw)|].
    by destruct (Hbonus Hw) as (p & _ & _ & ->).
Qed.

Lemma discardTile_books (g g' : GameState) (i : nat) (tile : Tile) :
  discardTile g i tile = Ok g' ->
  scores g' = scores g /\ round g' = round g /\ round_wind g' = round_wind g
  /\ game_ambitions g' = game_ambitions g.
Proof.
  unfold discardTile. destruct (players g !! i) as [p|]; [|done].
  destruct (findIndex _ (hand p)); by intros [= <-].
Qed.

Lemma recordAmbitions_books (pid : string) (l : list AmbitionType) (g : GameState) :
  let g' := foldl (fun g ambition =>
                     recordAmbition g pid ambition (getAmbitionPayout ambition)) g l in
  scores g' = scores g /\ round g' = round g /\ round_wind g' = round_wind g
  /\ game_ambitions g'
     = game_ambitions g
       ++ ((fun a => mkAmbition pid a (getAmbitionPayout a)
                       (bool_decide (a ∈ [kang; secret; sagasa; thirteen_flowers;
                                          no_flowers_start]))) <$> l).
Proof.
  revert g. induction l as [|a l IH]; intros g; simpl.
  - by rewrite app_nil_r.
  - specialize (IH (recordAmbition g pid a (getAmbitionPayout a))). simpl in IH.
    destruct IH as (-> & -> & -> & ->). split_and!; [done..|].
    by rewrite <- app_assoc.
Qed.

Lemma kang_recordedByTable (pid : string) :
  recordedByTable
    (mkAmbition pid kang 0.25%Q
       (bool_decide (kang ∈ [kang; secret; sagasa; thirteen_flowers; no_flowers_start]))).
Proof.
  split_and!; simpl; [done|by vm_compute|left].
Qed.

Lemma paidInPlay_recordedByTable (pid : string) (w : WinCondition) :
  paidInPlay w ->
  Forall recordedByTable
    ((fun a => mkAmbition pid a (getAmbitionPayout a)
                 (bool_decide (a ∈ [kang; secret; sagasa; thirteen_flowers;
                                    no_flowers_start]))) <$> ambitions w).
Proof.
  assert (Hrec : forall a, a ∈ [todas; siete_pares; escalera; no_flowers_end] ->
            recordedByTable
              (mkAmbition pid a (getAmbitionPayout a)
                 (bool_decide (a ∈ [kang; secret; sagasa; thirteen_flowers;
                                    no_flowers_start])))).
  { intros a Ha. split_and!; simpl; [done| |by right].
    repeat (apply elem_of_cons in Ha as [->|Ha]); try by apply elem_of_nil in Ha.
    all: by vm_compute. }
  intros [[-> _]|[[-> _]|[-> _]]]; csimpl; repeat constructor; apply Hrec;
    repeat first [by left | right].
Qed.

Lemma processClaim_ledger (g g' : GameState) (claim : ClaimAction) (b : bool) :
  tidy g -> ledger g -> processClaim g claim = Ok (g', b) -> ledger g'.
Proof.
  intros Htidy Hledger H. destruct b; [|by rewrite (processClaim_reject_inv _ _ _ H)].
  destruct (processClaim_accept_inv _ _ _ H) as (idx & player & d & Hidx & Hp & Hd & Hk).
  destruct Hledger as (Hs & Hr & Hwd & Hall).
  destruct (claim_type claim).
  - by destruct Hk as (c & _ & ->).
  - destruct Hk as (_ & ->). split_and!; [done..|]. simpl.
    apply Forall_app. split; [done|]. constructor; [apply kang_recordedByTable|done].
  - destruct Hk as (_ & drawnState & drawn & Hdraw & ->).
    apply drawTile_books in Hdraw as (Hs' & Hr' & Hw' & Ha'). simpl in *.
    split_and!; simpl; [congruence..|]. rewrite Ha'.
    apply Forall_app. split; [done|]. constructor; [apply kang_recordedByTable|done].
  - destruct Hk as (w & Hw & Hvalid & ->).
    pose proof (recordAmbitions_books (claim_playerId claim) (ambitions w)
                  (set_winner (Some idx) (set_status finished g))) as Hf.
    simpl in Hf. destruct Hf as (Hf1 & Hf2 & Hf3 & Hf4).
    split_and!; [congruence..|]. rewrite Hf4. apply Forall_app. split; [done|].
    apply paidInPlay_recordedByTable.
    destruct (tidy_lookup g idx player Htidy Hp) as (_ & Hfl & Hm).
    rewrite Hfl in Hw. by eapply isWinningHand_in_play.
Qed.

Lemma ensureAll_books (indices : list nat) (g g' : GameState) :
  ensureAll indices g = Ok g' ->
  scores g' = scores g /\ round g' = round g /\ round_wind g' = round_wind g
  /\ game_ambitions g' = game_ambitions g.
Proof.
  revert g. induction indices as [|i indices IH]; intros g; simpl; [by intros [= <-]|].
  unfold ensureCorrectHandSize at 1. destruct (players g !! i) as [p|]; [|done].
  destruct (exposeLoop _ _ _ _) as [[[h1 fl1] w1]| |]; simpl; [|done..].
  destruct (fillHand h1 fl1 w1) as [[h2 fl2] w2].
  intros H. by apply IH in H.
Qed.

Lemma initializeGame_ledger (rnd : Randomness) (ps : list Player) (gs : GameState) :
  initializeGame rnd ps = Ok gs -> ledger gs.
Proof.
  unfold initializeGame.
  destruct (deal dealOrder _ _) as [[ps1 rest]| |]; simpl; [|done..].
  destruct (ensureAll _ _) as [g1| |] eqn:Hens; simpl; [|done..].
  destruct (drawTile g1 (randomDealer rnd)) as [[g2 drawn]| |] eqn:Hdraw; simpl; [|done..].
  intros [= <-].
  apply ensureAll_books in Hens as (E1 & E2 & E3 & E4).
  apply drawTile_books in Hdraw as (F1 & F2 & F3 & F4). simpl in *.
  split_and!; [congruence..|]. rewrite F4, E4. constructor.
Qed.

(** X17: The ledger in play.  No operation ever touches the scores, the
    round or the round wind: in every reachable state they are what
    [initializeGame] set.  Payouts are only recorded as ambitions, and every
    record carries the amount that the table of [getAmbitionPayout] gives
    for its type, is instant exactly when it is a Kang, and is a Kang,
    Todas, Siete Pares, Escalera or No Flowers. *)
Theorem ledger_in_play (gs : GameState) : reachable gs -> ledger gs.
Proof.
  induction 1 as [rnd ps gs Hfair Hinit|gs gs' Hreach IH Hstep].
  - by eapply initializeGame_ledger.
  - apply reachable_tidy in Hreach as [Htidy _].
    destruct IH as (Hs & Hr & Hw & Hall).
    destruct Hstep as [gs gs' i drawn H|gs gs' i tile H|gs gs' claim b H].
    + apply drawTile_books in H as (E1 & E2 & E3 & E4).
      unfold ledger. by rewrite E1, E2, E3, E4.
    + apply discardTile_books in H as (E1 & E2 & E3 & E4).
      unfold ledger. by rewrite E1, E2, E3, E4.
    + by eapply processClaim_ledger.
Qed.

Lemma ledger_in_play_witness : ledger openingKong.
Proof. apply ledger_in_play. openingKong_reachable. Defined.

(** * Properties of the agent *)

(** ** The discard *)

Lemma pickLowest_loop (score : Tile -> Z) (l pre : list Tile) (tb : Tile) :
  firstLowest score pre tb ->
  exists t,
    (foldl (fun '(bestDiscard, lowestValue) tile =>
              let v := score tile in
              match lowestValue with
              | Some low =>
                  if (v <? low)%Z then (Some tile, Some v) else (bestDiscard, lowestValue)
              | None => (Some tile, Some v)
              end)
       (Some tb, Some (score tb)) l).1 = Some t
    /\ firstLowest score (pre ++ l) t.
Proof.
  revert pre tb. induction l as [|x l IH]; intros pre tb Hpre; simpl.
  - exists tb. by rewrite app_nil_r.
  - destruct Hpre as (i & Hi & Hmin & Hfirst).
    destruct (Z.ltb_spec (score x) (score tb)) as [Hlt|Hge].
    + destruct (IH (pre ++ [x]) x) as (t & Ht & Hlow).
      * exists (length pre). split_and!.
        -- by rewrite lookup_app_r, Nat.sub_diag by lia.
        -- intros t' Ht'. apply elem_of_app in Ht' as [Ht'|Ht'].
           ++ specialize (Hmin t' Ht'). lia.
           ++ apply list_elem_of_singleton in Ht' as ->. lia.
        -- intros j t' Hj Ht'. rewrite lookup_app_l in Ht' by done.
           apply list_elem_of_lookup_2 in Ht'. specialize (Hmin t' Ht'). lia.
      * exists t. by rewrite <- app_assoc in Hlow.
    + destruct (IH (pre ++ [x]) tb) as (t & Ht & Hlow).
      * exists i. split_and!.
        -- rewrite lookup_app_l; [done|by eapply lookup_lt_Some].
        -- intros t' Ht'. apply elem_of_app in Ht' as [Ht'|Ht'].
           ++ by apply Hmin.
           ++ apply list_elem_of_singleton in Ht' as ->. lia.
        -- intros j t' Hj Ht'. apply (Hfirst j t' Hj).
           rewrite lookup_app_l in Ht'; [done|].
           apply lookup_lt_Some in Hi. lia.
      * exists t. by rewrite <- app_assoc in Hlow.
Qed.

Lemma pickLowest_spec (score : Tile -> Z) (l : list Tile) :
  match pickLowest score l with
  | Some t => firstLowest score l t
  | None => l = []
  end.
Proof.
  destruct l as [|x l]; [done|]. unfold pickLowest. simpl.
  destruct (pickLowest_loop score l [x] x) as (t & Ht & Hlow);
    [|simpl in Ht; by rewrite Ht].
  exists 0. split_and!; [done| |intros; lia].
  intros t' Ht'. apply list_elem_of_singleton in Ht' as ->. lia.
Qed.

Lemma chooseBestDiscard_pickLowest (player : Player) (gs : GameState) :
  chooseBestDiscard player gs = pickLowest (discardScore player gs) (hand player).
Proof.
  unfold chooseBestDiscard, discardScore. simpl.
  by destruct (tilesAwayFromWin (analyzeWinningPotential player) <=? 2)%Z.
Qed.

(** X18: [chooseBestDiscard] returns the first tile of the hand whose score
    is the lowest: the conservative score when the analysis puts the hand at
    most two tiles from a win, the plain score otherwise.  It returns
    nothing only for an empty hand. *)
Theorem chooseBestDiscard_first_lowest (player : Player) (gs : GameState) :
  match chooseBestDiscard player gs with
  | Some t => firstLowest (discardScore player gs) (hand player) t
  | None => hand player = []
  end.
Proof. rewrite chooseBestDiscard_pickLowest. apply pickLowest_spec. Qed.

(** ** Decisions *)

Lemma findPlayer_id (gs : GameState) (pid : string) (player : Player) :
  findPlayer gs pid = Some player -> player_id player = pid.
Proof. intros H. apply find_some in H as [_ H]. by apply String.eqb_eq in H. Qed.

Ltac head_scrutinee t :=
  lazymatch t with
  | mbind _ ?m => head_scrutinee m
  | match ?x with _ => _ end => head_scrutinee x
  | _ => t
  end.

(** Case analysis along the control flow of a function of the agent: the
    scrutinee at the head of the left-hand side is split, with its equation. *)
Ltac follow_flow :=
  repeat (simpl;
          lazymatch goal with
          | |- ?lhs = _ -> _ =>
              let h := head_scrutinee lhs in
              lazymatch h with
              | Ok _ => fail
              | TypeError => fail
              | OutOfFuel => fail
              | _ => destruct h eqn:?
              end
          end).

Lemma shouldClaim_inv (d : Difficulty) (player : Player) (dt : Tile) (gs : GameState)
    (c : ClaimAction) :
  shouldClaim d player dt gs = Ok (Some c) ->
  claim_playerId c = player_id player
  /\ ((claim_type c = claim_win /\ exists ty, checkForWin player (Some dt) = Ok (true, ty))
      \/ (claim_type c <> claim_win /\ isValidClaim gs c = Ok true
          /\ (claim_type c = claim_chow -> d = expert))).
Proof.
  unfold shouldClaim.
  destruct (checkForWin player (Some dt)) as [[canWin ty]| |]; simpl; [|done..].
  destruct canWin.
  { intros [= <-]. split; [done|]. left. split; [done|]. by exists ty. }
  follow_flow; try done; intros [= <-]; (split; [done|]); right;
    split_and!; try done; simpl; intros _;
    match goal with
    | H : _ && bool_decide (d = expert) = true |- _ =>
        apply andb_true_iff in H as [_ H]; by apply bool_decide_eq_true in H
    end.
Qed.

Lemma makeDecision_inv (d : Difficulty) (gs : GameState) (pid : string) (dec : Decision) :
  makeDecision d gs pid = Ok dec ->
  match findPlayer gs pid with
  | None => dec = mkDecision action_draw None None
  | Some player =>
      exists canWin ty,
        checkForWin player (lastDiscard gs) = Ok (canWin, ty)
        /\ if canWin then dec = mkDecision action_win None None
           else
             (exists dt c, lastDiscard gs = Some dt /\ phase gs = draw
                           /\ shouldClaim d player dt gs = Ok (Some c)
                           /\ dec = mkDecision action_claim None (Some c))
             \/ (phase gs = discard
                 /\ Some (currentPlayer gs)
                    = findIndex (fun p => String.eqb (player_id p) pid) (players gs)
                 /\ dec = mkDecision action_discard (chooseBestDiscard player gs) None)
             \/ dec = mkDecision action_draw None None
  end.
Proof.
  unfold makeDecision. destruct (findPlayer gs pid) as [player|]; [|by intros [= <-]].
  destruct (checkForWin player (lastDiscard gs)) as [[canWin ty]| |]; simpl; [|done..].
  intros H. exists canWin, ty. split; [done|]. revert H.
  destruct canWin; [by intros [= <-]|].
  destruct (lastDiscard gs) as [dt|] eqn:Hd; destruct (phase gs) eqn:Hph; simpl.
  - destruct (shouldClaim d player dt gs) as [[c|]| |] eqn:Hsc; simpl; [| |done..].
    + intros [= <-]. left. by exists dt, c.
    + intros [= <-]. by right; right.
  - case_bool_decide; simpl; intros [= <-]; [right; left; by split_and!|by right; right].
  - intros [= <-]. by right; right.
  - case_bool_decide; simpl; intros [= <-]; [right; left; by split_and!|by right; right].
Qed.

(** X19: A claim that the agent proposes goes through.  It is a chow, pung
    or kong claim of the agent's own player, made in the draw phase, that
    [isValidClaim] validates and [processClaim] applies; a chow only at the
    difficulty [expert].  The agent never proposes a win as a claim: the win
    test of [shouldClaim] repeats the one that [makeDecision] has made. *)
Theorem agent_claims_go_through (d : Difficulty) (gs : GameState) (pid : string)
    (dec : Decision) (c : ClaimAction) :
  makeDecision d gs pid = Ok dec -> claimAction dec = Some c ->
  action dec = action_claim /\ claim_playerId c = pid /\ claim_type c <> claim_win
  /\ (claim_type c = claim_chow -> d = expert)
  /\ phase gs = draw /\ isValidClaim gs c = Ok true
  /\ exists gs', processClaim gs c = Ok (gs', true).
Proof.
  intros H Hc. apply makeDecision_inv in H.
  destruct (findPlayer gs pid) as [player|] eqn:Hp; [|by subst dec].
  destruct H as (canWin & ty & Hwin & H). destruct canWin; [by subst dec|].
  destruct H as [(dt & c' & Hd & Hph & Hsc & ->)|[(_ & _ & ->)| ->]]; [|done..].
  simpl in Hc. apply (inj Some) in Hc as ->.
  apply shouldClaim_inv in Hsc as [Hid [(_ & ty' & Hwin')|(Hty & Hvalid & Hchow)]].
  { rewrite Hd in Hwin. congruence. }
  split_and!; try done.
  - rewrite Hid. by apply findPlayer_id in Hp.
  - pose proof (processClaim_by_isValidClaim gs c) as Hpc. by rewrite Hvalid in Hpc.
Qed.

Lemma agent_claims_go_through_witness :
  exists gs', processClaim kongPendingGame (mkClaim claim_kong "p2") = Ok (gs', true).
Proof.
  eapply (agent_claims_go_through expert kongPendingGame "p2"
            (mkDecision action_claim None (Some (mkClaim claim_kong "p2")))).
  - vm_compute. reflexivity.
  - reflexivity.
Defined.

(** X20: A discard that the agent decides on can be carried out.  The phase
    is [discard] and the agent's player is the current one (the checks of
    the caller); the tile is the first tile of the hand with the lowest
    score, so [discardTile] finds it in the hand and discards it: it becomes
    the open discard, marked as recently discarded and, being a tile of the
    hand, no longer as recently drawn.  No tile is proposed only when the
    hand is empty. *)
Theorem agent_discard_applies (d : Difficulty) (gs : GameState) (pid : string)
    (dec : Decision) :
  makeDecision d gs pid = Ok dec -> action dec = action_discard ->
  discardApplies gs pid dec.
Proof.
  intros H Hact. apply makeDecision_inv in H.
  pose proof (find_findIndex (fun p => String.eqb (player_id p) pid) (players gs)) as Hfind.
  unfold findPlayer in H.
  destruct (List.find _ (players gs)) as [player|]; [|by subst dec].
  destruct Hfind as (i & Hi & Hp).
  destruct H as (canWin & ty & Hwin & H). destruct canWin; [by subst dec|].
  destruct H as [(dt & c' & _ & _ & _ & ->)|[(Hph & Hcur & ->)| ->]]; [done| |done].
  rewrite Hi in Hcur. apply (inj Some) in Hcur.
  split; [done|]. exists i, player. split_and!; [done..|]. simpl.
  pose proof (chooseBestDiscard_pickLowest player gs) as Hpick.
  pose proof (pickLowest_spec (discardScore player gs) (hand player)) as Hspec.
  rewrite <- Hpick in Hspec.
  destruct (chooseBestDiscard player gs) as [t|]; [|done].
  split; [done|]. destruct Hspec as (k & Hk & _).
  unfold discardTile. rewrite Hp.
  destruct (findIndex (fun t0 => sameId t0 t) (hand player)) as [k'|] eqn:Hidx.
  - eexists. split; [reflexivity|]. simpl.
    rewrite clearedThrough_held by (by eapply list_elem_of_lookup_2).
    by rewrite Hcur.
  - exfalso. apply (proj1 (findIndex_None _ _)) with (x := t) in Hidx.
    + unfold sameId in Hidx. by rewrite Nat.eqb_refl in Hidx.
    + by eapply list_elem_of_lookup_2.
Qed.

Lemma agent_discard_applies_witness :
  exists dec, makeDecision expert openingGame "p0" = Ok dec
              /\ discardApplies openingGame "p0" dec.
Proof.
  eexists. split; [vm_compute; reflexivity|].
  eapply (agent_discard_applies expert); [vm_compute; reflexivity|reflexivity].
Defined.

(** X21: A win that the agent declares is a win on the open discard when
    there is one: [processClaim] then accepts the win claim that the caller
    files and the game is finished.  A win declared on the hand alone (no
    open discard) is rejected by [processClaim], which leaves the state as
    it is. *)
Theorem agent_win_declaration (d : Difficulty) (gs : GameState) (pid : string)
    (dec : Decision) :
  makeDecision d gs pid = Ok dec -> action dec = action_win ->
  match lastDiscard gs with
  | Some _ => exists gs', processClaim gs (mkClaim claim_win pid) = Ok (gs', true)
                          /\ status gs' = finished
  | None => processClaim gs (mkClaim claim_win pid) = Ok (gs, false)
  end.
Proof.
  intros H Hact. apply makeDecision_inv in H.
  destruct (findPlayer gs pid) as [player|] eqn:Hp; [|by subst dec].
  destruct H as (canWin & ty & Hwin & H). destruct canWin.
  2:{ by destruct H as [(dt & c' & _ & _ & _ & ->)|[(_ & _ & ->)| ->]]. }
  pose proof (processClaim_by_isValidClaim gs (mkClaim claim_win pid)) as Hpc.
  unfold isValidClaim in Hpc. simpl in Hpc. rewrite Hp in Hpc.
  destruct (lastDiscard gs) as [dt|] eqn:Hd; [|done].
  unfold checkForWin in Hwin.
  destruct (isWinningHand (hand player ++ [dt]) (melds player) (flowers player))
    as [w| |]; simpl in *; [|done..].
  injection Hwin as Hvalid _. rewrite Hvalid in Hpc. destruct Hpc as [gs' Hgs'].
  exists gs'. split; [done|].
  apply processClaim_accept_inv in Hgs' as (idx & pl & d' & _ & _ & _ & Hk).
  simpl in Hk. destruct Hk as (w' & _ & _ & ->).
  pose proof (recordAmbitions_frame pid (ambitions w')
                (set_winner (Some idx) (set_status finished gs))) as Hf.
  simpl in Hf. by destruct Hf as (_ & _ & _ & _ & _ & _ & _ & -> & _).
Qed.

Lemma agent_win_declaration_witness :
  processClaim selfDrawnGame (mkClaim claim_win "p0") = Ok (selfDrawnGame, false).
Proof.
  apply (agent_win_declaration expert selfDrawnGame "p0" (mkDecision action_win None None)).
  - vm_compute. reflexivity.
  - reflexivity.
Defined.

(** ** The difficulty setting *)

Ltac follow_both :=
  repeat (simpl;
          lazymatch goal with
          | |- ?lhs = _ =>
              let h := head_scrutinee lhs in
              lazymatch h with
              | Ok _ => fail
              | TypeError => fail
              | OutOfFuel => fail
              | andb _ (bool_decide _) => fail
              | _ => destruct h eqn:?
              end
          end).

Lemma shouldClaim_not_expert (d : Difficulty) (player : Player) (dt : Tile)
    (gs : GameState) :
  d <> expert -> shouldClaim d player dt gs = shouldClaim easy player dt gs.
Proof.
  intros Hd. unfold shouldClaim. follow_both; try done;
    rewrite (bool_decide_eq_false_2 (d = expert)) by done; by rewrite andb_false_r.
Qed.

Lemma shouldClaim_expert (player : Player) (dt : Tile) (gs : GameState) :
  shouldClaim easy player dt gs = shouldClaim expert player dt gs
  \/ shouldClaim expert player dt gs = Ok (Some (mkClaim claim_chow (player_id player))).
Proof.
  unfold shouldClaim.
  repeat (simpl;
          lazymatch goal with
          | |- ?lhs = _ \/ _ =>
              let h := head_scrutinee lhs in
              lazymatch h with
              | Ok _ => fail
              | TypeError => fail
              | OutOfFuel => fail
              | andb _ _ => fail
              | _ => destruct h eqn:?
              end
          end); auto.
  all: rewrite andb_false_r, andb_true_r;
    match goal with |- context [if ?b then _ else _] => destruct b end; auto.
Qed.

Lemma makeDecision_by_shouldClaim (d d' : Difficulty) (gs : GameState) (pid : string) :
  (forall player dt, shouldClaim d player dt gs = shouldClaim d' player dt gs) ->
  makeDecision d gs pid = makeDecision d' gs pid.
Proof.
  intros H. unfold makeDecision. destruct (findPlayer gs pid) as [player|]; [|done].
  destruct (checkForWin player (lastDiscard gs)) as [[[|] ty]| |]; simpl; try done.
  destruct (lastDiscard gs) as [dt|]; destruct (phase gs); simpl; try done.
  by rewrite H.
Qed.

(** X22: The difficulty setting decides one thing only.  Every difficulty
    other than [expert] plays exactly as [easy] does, and [expert] differs
    from them only where it claims a chow. *)
Theorem difficulty_only_gates_chow (d : Difficulty) (gs : GameState) (pid : string) :
  makeDecision d gs pid
  = makeDecision (if bool_decide (d = expert) then expert else easy) gs pid
  /\ (makeDecision easy gs pid = makeDecision expert gs pid
      \/ exists c, claim_type c = claim_chow
                   /\ makeDecision expert gs pid
                      = Ok (mkDecision action_claim None (Some c))).
Proof.
  split.
  - case_bool_decide as Hd; [by subst d|].
    apply makeDecision_by_shouldClaim. intros player dt.
    by apply shouldClaim_not_expert.
  - unfold makeDecision. destruct (findPlayer gs pid) as [player|]; [|by left].
    destruct (checkForWin player (lastDiscard gs)) as [[[|] ty]| |]; simpl;
      try by left.
    destruct (lastDiscard gs) as [dt|]; destruct (phase gs); simpl; try by left.
    destruct (shouldClaim_expert player dt gs) as [->| ->]; [by left|].
    right. simpl. by exists (mkClaim claim_chow (player_id player)).
Qed.

(** ** Claiming one's own discard *)

Lemma findIndex_insert {A : Type} (f : A -> bool) (l : list A) (i : nat) (x : A) :
  findIndex f l = Some i -> f x = true ->
  findIndex f (<[i := x]> l) = Some i /\ List.find f (<[i := x]> l) = Some x.
Proof.
  revert i. induction l as [|a l IH]; intros i; simpl; [done|].
  destruct (f a) eqn:Ha.
  - intros [= <-] Hx. simpl. by rewrite Hx.
  - destruct (findIndex f l) as [j|]; simpl; [|done].
    intros [= <-] Hx. simpl. rewrite Ha. destruct (IH j eq_refl Hx) as [-> ->]. done.
Qed.

Lemma filter_delete_length {A : Type} (f : A -> bool) (k : nat) (l : list A) :
  length (List.filter f l) <= S (length (List.filter f (delete k l))).
Proof.
  revert k. induction l as [|a l IH]; intros k; simpl; [lia|].
  destruct k as [|k]; simpl.
  - destruct (f a); simpl; lia.
  - specialize (IH k). destruct (f a); simpl; lia.
Qed.

Lemma filter_matching_cleared (t : Tile) (l : list Tile) :
  length (List.filter (fun x => tilesMatch x (set_isRecentlyDiscarded true (set_isRecentlyDrawn false t)))
            (set_isRecentlyDrawn false <$> l))
  = length (List.filter (fun x => tilesMatch x t) l).
Proof.
  induction l as [|a l IH]; csimpl; [done|].
  change (tilesMatch (set_isRecentlyDrawn false a) (set_isRecentlyDiscarded true (set_isRecentlyDrawn false t)))
    with (tilesMatch a t).
  destruct (tilesMatch a t); simpl; by rewrite IH.
Qed.

(** X23: Nothing keeps a player from claiming the tile they have just
    discarded.  When a player holds three matching tiles and discards one of
    them, that tile is the open discard, marked as recently discarded and no
    longer as recently drawn; a pung claim of the same player on it is
    accepted, and the player is to discard again: neither [isValidClaim] nor
    [processClaim] compares the claimant with the discarder. *)
Theorem own_discard_can_be_claimed (gs : GameState) (i : nat) (p : Player) (t : Tile) :
  players gs !! i = Some p ->
  findIndex (fun q => String.eqb (player_id q) (player_id p)) (players gs) = Some i ->
  t ∈ hand p ->
  3 <= length (List.filter (fun x => tilesMatch x t) (hand p)) ->
  exists gs1 gs2,
    discardTile gs i t = Ok gs1
    /\ lastDiscard gs1
       = Some (set_isRecentlyDiscarded true (set_isRecentlyDrawn false t))
    /\ processClaim gs1 (mkClaim claim_pung (player_id p)) = Ok (gs2, true)
    /\ currentPlayer gs2 = i /\ phase gs2 = discard.
Proof.
  intros Hp Hidx Ht Hcount. unfold discardTile. rewrite Hp.
  rewrite (clearedThrough_held _ _ Ht).
  destruct (findIndex (fun t0 => sameId t0 t) (hand p)) as [k|] eqn:Hk.
  2:{ exfalso. apply (proj1 (findIndex_None _ _)) with (x := t) in Hk; [|done].
      unfold sameId in Hk. by rewrite Nat.eqb_refl in Hk. }
  eexists. 
  match goal with |- context [Ok ?g = Ok _] => set (gs1 := g) end.
  set (p1 := set_discards (discards p ++ [set_isRecentlyDiscarded true (set_isRecentlyDrawn false t)])
               (set_hand (delete k (set_isRecentlyDrawn false <$> hand p)) p)).
  destruct (findIndex_insert (fun q => String.eqb (player_id q) (player_id p))
              (players gs) i p1 Hidx) as [Hidx1 Hfind1]; [apply String.eqb_refl|].
  pose proof (processClaim_by_isValidClaim gs1 (mkClaim claim_pung (player_id p))) as Hpc.
  unfold isValidClaim, findPlayer in Hpc. cbn [claim_playerId claim_type] in Hpc.
  change (players gs1) with (<[i := p1]> (players gs)) in Hpc.
  change (lastDiscard gs1) with (Some (set_isRecentlyDiscarded true (set_isRecentlyDrawn false t))) in Hpc.
  rewrite Hfind1 in Hpc.
  change (hand p1) with (delete k (set_isRecentlyDrawn false <$> hand p)) in Hpc.
  assert (2 <= length (List.filter (fun x => tilesMatch x (set_isRecentlyDiscarded true (set_isRecentlyDrawn false t)))
                         (delete k (set_isRecentlyDrawn false <$> hand p)))) as Hge.
  { pose proof (filter_delete_length
                  (fun x => tilesMatch x (set_isRecentlyDiscarded true (set_isRecentlyDrawn false t))) k
                  (set_isRecentlyDrawn false <$> hand p)) as Hdel.
    rewrite filter_matching_cleared in Hdel. lia. }
  apply Nat.leb_le in Hge. rewrite Hge in Hpc. destruct Hpc as [gs2 Hgs2].
  exists gs2. split_and!; [done..| |].
  - apply processClaim_accept_inv in Hgs2 as (idx & pl & d & Hci & _ & _ & Hcase).
    unfold claimantIndex in Hci. cbn [claim_playerId] in Hci.
    change (players gs1) with (<[i := p1]> (players gs)) in Hci. rewrite Hidx1 in Hci.
    apply (inj Some) in Hci as <-. simpl in Hcase. by destruct Hcase as [_ ->].
  - apply processClaim_accept_inv in Hgs2 as (idx & pl & d & _ & _ & _ & Hcase).
    simpl in Hcase. by destruct Hcase as [_ ->].
Qed.

Lemma own_discard_can_be_claimed_witness :
  exists gs1 gs2,
    discardTile openingGame 0 (numberTile 0 circles 1) = Ok gs1
    /\ lastDiscard gs1
       = Some (set_isRecentlyDiscarded true
                 (set_isRecentlyDrawn false (numberTile 0 circles 1)))
    /\ processClaim gs1 (mkClaim claim_pung (player_id openingDealer)) = Ok (gs2, true)
    /\ currentPlayer gs2 = 0 /\ phase gs2 = discard.
Proof.
  apply (own_discard_can_be_claimed openingGame 0 openingDealer (numberTile 0 circles 1)).
  - vm_compute. reflexivity.
  - vm_compute. reflexivity.
  - vm_compute. left.
  - vm_compute. lia.
Defined.

(** ** The analysis of the hand *)

Lemma scanRuns_nonneg (values : list (option Z)) : (0 <= scanRuns values)%Z.
Proof.
  remember (length values) as n eqn:Hn.
  assert (length values <= n) as Hle by lia. clear Hn. revert values Hle.
  induction n as [|n IH]; intros values Hle.
  - destruct values; [done|simpl in Hle; lia].
  - destruct values as [|a [|b [|c rest]]]; simpl; try done.
    simpl in Hle. destruct (isNext a b 1 && isNext a c 2).
    + assert (0 <= scanRuns rest)%Z by (apply IH; lia). lia.
    + apply (IH (b :: c :: rest)). simpl. lia.
Qed.

Lemma countPotentialSequences_nonneg (suitTiles : list Tile) :
  (0 <= countPotentialSequences suitTiles)%Z.
Proof.
  unfold countPotentialSequences. destruct (_ <? 3); [done|apply scanRuns_nonneg].
Qed.

Lemma standard_counts_nonneg (l : list nat) (m p : Z) :
  (0 <= m)%Z -> (0 <= p)%Z ->
  (0 <= (foldl (fun '(potentialMelds, potentialPairs) count =>
                  if (3 <=? count)%nat then ((potentialMelds + 1)%Z, potentialPairs)
                  else if (count =? 2)%nat then (potentialMelds, (potentialPairs + 1)%Z)
                  else (potentialMelds, potentialPairs)) (m, p) l).1)%Z
  /\ (0 <= (foldl (fun '(potentialMelds, potentialPairs) count =>
                     if (3 <=? count)%nat then ((potentialMelds + 1)%Z, potentialPairs)
                     else if (count =? 2)%nat then (potentialMelds, (potentialPairs + 1)%Z)
                     else (potentialMelds, potentialPairs)) (m, p) l).2)%Z.
Proof.
  revert m p. induction l as [|c l IH]; intros m p Hm Hp; [done|].
  cbn [foldl]. cbv beta iota.
  destruct (3 <=? c)%nat; [apply IH; lia|]. destruct (c =? 2)%nat; apply IH; lia.
Qed.

Lemma analyzeStandardStrategy_range (h : list Tile) (existingMelds : Z) :
  (0 <= existingMelds)%Z ->
  (0 <= (analyzeStandardStrategy h existingMelds).1 <= 6)%Z
  /\ (analyzeStandardStrategy h existingMelds).2 = [].
Proof.
  intros Hex. unfold analyzeStandardStrategy.
  pose proof (standard_counts_nonneg (tileCounts h).*2 0 0 ltac:(lia) ltac:(lia)) as [Hm Hp].
  destruct (foldl _ (0%Z, 0%Z) (tileCounts h).*2) as [m p]. simpl in *.
  pose proof (countPotentialSequences_nonneg (sortedSuitTiles circles h)).
  pose proof (countPotentialSequences_nonneg (sortedSuitTiles bamboos h)).
  pose proof (countPotentialSequences_nonneg (sortedSuitTiles characters h)).
  split; [lia|done].
Qed.

Lemma analyzePairsStrategy_range (h : list Tile) :
  (0 <= (analyzePairsStrategy h).1)%Z /\ (analyzePairsStrategy h).2 = [].
Proof.
  unfold analyzePairsStrategy.
  destruct (foldl _ (0%Z, 0%Z, 0%Z) (tileGroups h)) as [[np ns] nt]. simpl.
  split; [lia|done].
Qed.

(** X24: What [analyzeWinningPotential] can report.  The distance to a win
    is between 0 and 6 tiles; the list of potential winning tiles is always
    empty (no strategy fills it); the strategy is [sequences] only for a
    distance of at most 3 and [mixed] only for a distance of at least 4, so
    the conservative discard scoring (distance at most 2) never meets
    [mixed]. *)
Theorem analyzeWinningPotential_range (player : Player) :
  let a := analyzeWinningPotential player in
  (0 <= tilesAwayFromWin a <= 6)%Z
  /\ potentialWinningTiles a = []
  /\ match bestStrategy a with
     | pairs => True
     | sequences => (tilesAwayFromWin a <= 3)%Z
     | mixed => (4 <= tilesAwayFromWin a)%Z
     end.
Proof.
  unfold analyzeWinningPotential.
  pose proof (analyzePairsStrategy_range (hand player)) as [Hp1 Hp2].
  pose proof (analyzeStandardStrategy_range (hand player)
                (Z.of_nat (length (melds player))) ltac:(lia)) as [Hs1 Hs2].
  simpl. destruct (Z.leb_spec (analyzePairsStrategy (hand player)).1
                     (analyzeStandardStrategy (hand player)
                        (Z.of_nat (length (melds player)))).1); simpl.
  - split_and!; try done; lia.
  - split_and!; try done; try lia.
    destruct (Z.leb_spec (analyzeStandardStrategy (hand player)
                            (Z.of_nat (length (melds player)))).1 3); simpl; lia.
Qed.

Lemma addToGroup_bump (t : Tile) (m : list (TileKey * list Tile)) :
  (fun g => (g.1, length g.2)) <$> addToGroup t m
  = bump (tileKey t) ((fun g => (g.1, length g.2)) <$> m).
Proof.
  induction m as [|[k ts] m IH]; csimpl; [done|].
  destruct (decide (k = tileKey t)) as [->|Hne].
  - rewrite !bool_decide_eq_true_2 by done. csimpl. rewrite length_app. simpl.
    by rewrite Nat.add_1_r.
  - rewrite !bool_decide_eq_false_2 by done. csimpl. by rewrite IH.
Qed.

(** The groups of [tileGroups] have the sizes that [tileCounts] counts. *)
Lemma tileGroups_counts (h : list Tile) :
  (fun g => (g.1, length g.2)) <$> tileGroups h = tileCounts h.
Proof.
  unfold tileGroups, tileCounts.
  change (@nil (TileKey * nat)) with ((fun g : TileKey * list Tile => (g.1, length g.2)) <$> []).
  generalize (@nil (TileKey * list Tile)). 
  induction h as [|t h IH]; intros m; simpl; [done|].
  by rewrite IH, addToGroup_bump.
Qed.

Lemma pairs_fold_groups (groups : list (TileKey * list Tile)) (acc : Z * Z * Z) :
  foldl (fun '(nPairs, nSingles, nTriples) '(_, tiles) =>
           if (length tiles =? 2)%nat then ((nPairs + 1)%Z, nSingles, nTriples)
           else if (length tiles =? 1)%nat then (nPairs, (nSingles + 1)%Z, nTriples)
           else if (length tiles =? 3)%nat then (nPairs, nSingles, (nTriples + 1)%Z)
           else if (length tiles =? 4)%nat then ((nPairs + 2)%Z, nSingles, nTriples)
           else (nPairs, nSingles, nTriples)) acc groups
  = foldl countGroup acc (((fun g => (g.1, length g.2)) <$> groups).*2).
Proof.
  revert acc. induction groups as [|[k ts] groups IH]; intros [[x y] z]; [done|].
  cbn [foldl fmap list_fmap]. rewrite IH. done.
Qed.

Lemma countGroup_comm (acc : Z * Z * Z) (m n : nat) :
  countGroup (countGroup acc m) n = countGroup (countGroup acc n) m.
Proof.
  destruct acc as [[x y] z]. unfold countGroup.
  destruct (m =? 2)%nat, (m =? 1)%nat, (m =? 3)%nat, (m =? 4)%nat,
    (n =? 2)%nat, (n =? 1)%nat, (n =? 3)%nat, (n =? 4)%nat; simpl;
    repeat (apply pair_equal_spec; split); lia.
Qed.

Lemma countGroup_perm (l l' : list nat) :
  l ≡ₚ l' -> forall acc, foldl countGroup acc l = foldl countGroup acc l'.
Proof.
  induction 1 as [|x l l' _ IH|x y l|l l' l'' _ IH1 _ IH2]; intros acc; simpl.
  - done.
  - apply IH.
  - by rewrite countGroup_comm.
  - by rewrite IH1, IH2.
Qed.

Lemma analyzePairsStrategy_siete (h : list Tile) :
  sevenPairsAndTriplet h -> analyzePairsStrategy h = (0%Z, []).
Proof.
  intros Hh. destruct (sevenPairsAndTriplet_counts h Hh) as [_ Hcounts].
  unfold analyzePairsStrategy. rewrite pairs_fold_groups, tileGroups_counts.
  assert ((tileCounts h).*2 ≡ₚ [3; 2; 2; 2; 2; 2; 2; 2]) as Hperm.
  { rewrite <- Hcounts. unfold sortDesc. by rewrite merge_sort_Permutation. }
  rewrite (countGroup_perm _ _ Hperm). reflexivity.
Qed.

(** X25: The analysis agrees with the win detector on Siete Pares: a hand
    of seven pairs and a triplet is rated 0 tiles from a win, with the
    strategy [pairs], whatever the melds next to it. *)
Theorem siete_pares_rated_zero (player : Player) :
  sevenPairsAndTriplet (hand player) ->
  analyzeWinningPotential player = mkAnalysis 0 [] pairs.
Proof.
  intros Hh. unfold analyzeWinningPotential.
  rewrite (analyzePairsStrategy_siete _ Hh). simpl.
  pose proof (analyzeStandardStrategy_range (hand player)
                (Z.of_nat (length (melds player))) ltac:(lia)) as [[Hs _] _].
  destruct (Z.leb_spec 0 (analyzeStandardStrategy (hand player)
                            (Z.of_nat (length (melds player)))).1); [done|lia].
Qed.

Lemma siete_pares_rated_zero_witness :
  analyzeWinningPotential (examplePlayer "p0" sietePareHand) = mkAnalysis 0 [] pairs.
Proof.
  apply siete_pares_rated_zero.
  exists (winds, None, Some north, None),
    [(circles, Some 1%Z, None, None); (circles, Some 2%Z, None, None);
     (bamboos, Some 7%Z, None, None); (characters, Some 9%Z, None, None);
     (dragons, None, None, Some green); (winds, None, Some east, None);
     (dragons, None, None, Some white)].
  split; [reflexivity|].
  split; apply (bool_decide_unpack _); vm_compute; exact I.
Defined.

(** ** Siete Pares, by group sizes *)

Lemma bump_sum (k : TileKey) (m : list (TileKey * nat)) :
  sum_list (bump k m).*2 = S (sum_list m.*2).
Proof.
  induction m as [|[k' n] m IH]; csimpl; [done|].
  destruct (bool_decide (k' = k)); csimpl; [done|]. rewrite IH. lia.
Qed.

Lemma tileCounts_sum (h : list Tile) : sum_list (groupSizes h) = length h.
Proof.
  unfold groupSizes, tileCounts.
  assert (forall m, sum_list (foldl (fun m t => bump (tileKey t) m) m h).*2
                    = sum_list m.*2 + length h) as H; [|by rewrite H].
  induction h as [|t h IH]; intros m; simpl; [lia|].
  rewrite IH, bump_sum. lia.
Qed.

Lemma sum_by_sizes (l : list nat) :
  Forall (fun n => 1 <= n <= 4) l ->
  sum_list l
  = count_occ Nat.eq_dec l 1 + 2 * count_occ Nat.eq_dec l 2
    + 3 * count_occ Nat.eq_dec l 3 + 4 * count_occ Nat.eq_dec l 4.
Proof.
  induction 1 as [|n l Hn _ IH]; [done|].
  cbn [sum_list count_occ]. rewrite IH. unfold id.
  destruct (Nat.eq_dec n 1), (Nat.eq_dec n 2), (Nat.eq_dec n 3), (Nat.eq_dec n 4); lia.
Qed.

(** What the loop over the groups has seen when it runs to its end. *)
Lemma scanGroups_sizes (entries : list (TileKey * list Tile)) (hasTrio : bool)
    (ps : list (list Tile)) (rem : list Tile) (hasTrio' : bool)
    (ps' : list (list Tile)) (rem' : list Tile) :
  scanGroups entries hasTrio ps rem = Some (hasTrio', ps', rem') ->
  let sizes := ((fun g => (g.1, length g.2)) <$> entries).*2 in
  Forall (fun n => 1 <= n <= 4) sizes
  /\ length ps' = length ps + count_occ Nat.eq_dec sizes 2
                  + 2 * count_occ Nat.eq_dec sizes 4
  /\ length rem' = length rem + count_occ Nat.eq_dec sizes 1
  /\ (if hasTrio then count_occ Nat.eq_dec sizes 3 = 0 /\ hasTrio' = true
      else (count_occ Nat.eq_dec sizes 3 = 0 /\ hasTrio' = false)
           \/ (count_occ Nat.eq_dec sizes 3 = 1 /\ hasTrio' = true)).
Proof.
  revert hasTrio ps rem.
  induction entries as [|[k ts] entries IH]; intros hasTrio ps rem; simpl.
  - intros [= <- <- <-]. split_and!; [done|lia|lia|]. destruct hasTrio; auto.
  - destruct (length ts) as [|[|[|[|[|n]]]]] eqn:Hlen; try done.
    + intros H. apply IH in H as (Hall & Hps & Hrem & Htrio). csimpl.
      split_and!; [constructor; [lia|done]| | |done].
      * lia.
      * rewrite Hrem, length_app, Hlen. lia.
    + intros H. apply IH in H as (Hall & Hps & Hrem & Htrio). csimpl.
      split_and!; [constructor; [lia|done]| |lia|done].
      rewrite Hps, length_app. simpl. lia.
    + destruct hasTrio; [done|].
      intros H. apply IH in H as (Hall & Hps & Hrem & Htrio). csimpl.
      split_and!; [constructor; [lia|done]|lia|lia|].
      right. destruct Htrio as [Hc ->]. split; [lia|done].
    + intros H. apply IH in H as (Hall & Hps & Hrem & Htrio). csimpl.
      split_and!; [constructor; [lia|done]| |lia|done].
      rewrite Hps, length_app. simpl. lia.
Qed.

(** X26: What [isSietePares] accepts, by the sizes of the groups of equal
    tiles: a hand of seventeen tiles whose groups have one to four tiles,
    with seven pairs when a group of four counts as two, and either one
    triplet and no single tile, or no triplet and three single tiles. *)
Theorem isSietePares_shape (h : list Tile) :
  isSietePares h = true ->
  length h = 17
  /\ Forall (fun n => 1 <= n <= 4) (groupSizes h)
  /\ sizeCount 2 h + 2 * sizeCount 4 h = 7
  /\ ((sizeCount 3 h = 1 /\ sizeCount 1 h = 0)
      \/ (sizeCount 3 h = 0 /\ sizeCount 1 h = 3)).
Proof.
  unfold isSietePares, sizeCount.
  destruct (Nat.eqb_spec (length h) 17) as [Hlen|]; simpl; [|done].
  intros H. split; [done|].
  pose proof (tileCounts_sum h) as Hsum. rewrite Hlen in Hsum.
  match type of H with (if ?b then _ else _) = _ => destruct b eqn:Hfirst end.
  - apply andb_true_iff in Hfirst as [Hfirst Hrest].
    apply andb_true_iff in Hfirst as [Hl Hhead].
    apply Nat.eqb_eq in Hl. apply bool_decide_eq_true in Hhead.
    assert (sortDesc (groupSizes h) = [3; 2; 2; 2; 2; 2; 2; 2]) as Hsorted.
    { unfold groupSizes.
      change (map snd (tileCounts h)) with (tileCounts h).*2 in *.
      destruct (sortDesc (tileCounts h).*2) as [|c0 [|c1 [|c2 [|c3 [|c4 [|c5 [|c6 [|c7 [|]]]]]]]]];
        try done.
      simpl in Hhead, Hrest. apply (inj Some) in Hhead as ->.
      repeat (apply andb_true_iff in Hrest as [?%Nat.eqb_eq Hrest]). by subst. }
    assert (groupSizes h ≡ₚ [3; 2; 2; 2; 2; 2; 2; 2]) as Hperm.
    { rewrite <- Hsorted. unfold sortDesc. by rewrite merge_sort_Permutation. }
    assert (forall n, count_occ Nat.eq_dec (groupSizes h) n
                      = count_occ Nat.eq_dec [3; 2; 2; 2; 2; 2; 2; 2] n) as Hocc
      by (intros n; by apply Permutation_count_occ).
    split_and!; [rewrite Hperm; repeat constructor; lia|by rewrite !Hocc|].
    left. by rewrite !Hocc.
  - unfold checkSevenPairsWithTrio in H.
    destruct (scanGroups (tileGroups h) false [] []) as [[[hasTrio ps] rem]|] eqn:Hscan;
      [|done].
    apply scanGroups_sizes in Hscan as (Hall & Hps & Hrem & Htrio).
    rewrite tileGroups_counts in Hall, Hps, Hrem, Htrio.
    fold (groupSizes h) in Hall, Hps, Hrem, Htrio. simpl in Hps, Hrem.
    apply andb_true_iff in H as [Hseven Hhas]. apply Nat.eqb_eq in Hseven.
    pose proof (sum_by_sizes (groupSizes h) Hall) as Hsizes.
    split_and!; [done|lia|].
    destruct Htrio as [[Hc ->]|[Hc ->]]; [right|left; lia].
    simpl in Hhas. destruct (Nat.eqb_spec (length rem) 3); [|done]. lia.
Qed.

Lemma isSietePares_shape_witness :
  length sietePareHand = 17
  /\ Forall (fun n => 1 <= n <= 4) (groupSizes sietePareHand)
  /\ sizeCount 2 sietePareHand + 2 * sizeCount 4 sietePareHand = 7
  /\ ((sizeCount 3 sietePareHand = 1 /\ sizeCount 1 sietePareHand = 0)
      \/ (sizeCount 3 sietePareHand = 0 /\ sizeCount 1 sietePareHand = 3)).
Proof. apply isSietePares_shape. vm_compute. reflexivity. Defined.

(** ** Escalera *)

Lemma sortNumbers_perm (xs : list (option Z)) : sortNumbers xs ≡ₚ xs.
Proof.
  unfold sortNumbers, sortAsc. rewrite merge_sort_Permutation.
  induction xs as [|[z|] xs IH]; csimpl; [done| |].
  - by apply Permutation_skip.
  - rewrite <- Permutation_middle. by apply Permutation_skip.
Qed.

Lemma pushSuitGroup_groupOf (s s' : Suit) (vs : list (option Z))
    (m : list (Suit * list (list (option Z)))) :
  groupOf s (pushSuitGroup s' vs m)
  = if bool_decide (s' = s) then groupOf s m ++ [vs] else groupOf s m.
Proof.
  induction m as [|[s0 g] m IH]; simpl.
  - by destruct (bool_decide (s' = s)).
  - destruct (decide (s0 = s')) as [->|Hne].
    + rewrite bool_decide_eq_true_2 by done. simpl. by destruct (bool_decide (s' = s)).
    + rewrite (bool_decide_eq_false_2 (s0 = s')) by done. simpl. rewrite IH.
      destruct (decide (s0 = s)) as [->|Hne'].
      * rewrite bool_decide_eq_true_2 by done.
        rewrite (bool_decide_eq_false_2 (s' = s)); [done|congruence].
      * by rewrite (bool_decide_eq_false_2 (s0 = s)) by done.
Qed.

Lemma pushSuitGroup_keys (s : Suit) (vs : list (option Z))
    (m : list (Suit * list (list (option Z)))) :
  NoDup m.*1 -> NoDup (pushSuitGroup s vs m).*1
                /\ forall k, k ∈ (pushSuitGroup s vs m).*1 -> k = s \/ k ∈ m.*1.
Proof.
  induction m as [|[s0 g] m IH]; csimpl; intros Hnd.
  - split; [apply NoDup_singleton|]. intros k Hk. left.
    by apply list_elem_of_singleton in Hk.
  - apply NoDup_cons in Hnd as [Hs0 Hnd]. destruct (decide (s0 = s)) as [->|Hne].
    + rewrite bool_decide_eq_true_2 by done. csimpl.
      split; [by apply NoDup_cons|]. intros k Hk. by right.
    + rewrite bool_decide_eq_false_2 by done. csimpl.
      destruct (IH Hnd) as [Hnd' Hkeys]. split.
      * apply NoDup_cons. split; [|done]. intros Hin.
        apply Hkeys in Hin as [Hin|Hin]; congruence.
      * intros k Hk. apply elem_of_cons in Hk as [->|Hk]; [right; left|].
        apply Hkeys in Hk as [Hk|Hk]; [by left|right; by right].
Qed.

Lemma groupOf_elem (s : Suit) (g : list (list (option Z)))
    (m : list (Suit * list (list (option Z)))) :
  NoDup m.*1 -> (s, g) ∈ m -> groupOf s m = g.
Proof.
  induction m as [|[s0 g0] m IH]; csimpl; intros Hnd Hin; [by apply elem_of_nil in Hin|].
  apply NoDup_cons in Hnd as [Hs0 Hnd].
  apply elem_of_cons in Hin as [[= <- <-]|Hin].
  - by rewrite bool_decide_eq_true_2.
  - rewrite bool_decide_eq_false_2; [by apply IH|].
    intros ->. apply Hs0. apply list_elem_of_fmap. by exists (s, g).
Qed.

Lemma suitGroupsOf_groups (chows : list Meld) (m m' : list (Suit * list (list (option Z)))) :
  suitGroupsOf chows m = Ok m' -> NoDup m.*1 ->
  NoDup m'.*1
  /\ forall s, groupOf s m'
               = groupOf s m
                 ++ ((fun c => sortNumbers (value <$> meld_tiles c))
                       <$> List.filter (firstSuitIs s) chows).
Proof.
  revert m. induction chows as [|c chows IH]; intros m; simpl.
  - intros [= <-] Hnd. split; [done|]. intros s. by rewrite app_nil_r.
  - unfold firstSuitIs at 1. destruct (meld_tiles c) as [|t0 ts] eqn:Hc; [done|].
    intros H Hnd. apply IH in H as [Hnd' Hgroups]; [|by apply pushSuitGroup_keys].
    split; [done|]. intros s. rewrite Hgroups, pushSuitGroup_groupOf.
    destruct (bool_decide (suit t0 = s)); csimpl; [|done].
    by rewrite Hc, <- app_assoc.
Qed.

Lemma concat_sorted_perm (cs : list Meld) :
  concat ((fun c => sortNumbers (value <$> meld_tiles c)) <$> cs)
  ≡ₚ (c ← cs; value <$> meld_tiles c).
Proof.
  induction cs as [|c cs IH]; csimpl; [done|]. by rewrite sortNumbers_perm, IH.
Qed.

(** X27: Escalera is awarded on the chow melds of one suit, a meld counting
    for the suit of its first tile: the ranks on the tiles of these melds
    are the ranks 1 to 9, each once.  There are at least three chow melds. *)
Theorem isEscalera_ranks (ms : list Meld) :
  isEscalera ms = Ok true ->
  3 <= length (List.filter (fun m => bool_decide (meld_type m = chow)) ms)
  /\ exists s, (c ← chowsOfSuit s ms; value <$> meld_tiles c)
               ≡ₚ Some <$> [1; 2; 3; 4; 5; 6; 7; 8; 9]%Z.
Proof.
  unfold isEscalera, chowsOfSuit.
  set (chows := List.filter (fun m => bool_decide (meld_type m = chow)) ms).
  destruct (Nat.ltb_spec (length chows) 3) as [|Hlen]; [done|].
  destruct (suitGroupsOf chows []) as [sg| |] eqn:Hsg; simpl; [|done..].
  intros [= Hex]. split; [done|].
  apply existsb_exists in Hex as ([s seqs] & Hin & Hnine).
  apply bool_decide_eq_true in Hnine.
  apply suitGroupsOf_groups in Hsg as [Hnd Hgroups]; [|constructor].
  apply list_elem_of_In in Hin. rewrite <- (groupOf_elem s seqs sg Hnd Hin) in Hnine.
  rewrite Hgroups in Hnine. simpl in Hnine.
  exists s. rewrite <- concat_sorted_perm, <- Hnine. by rewrite sortNumbers_perm.
Qed.

Lemma isEscalera_ranks_witness :
  3 <= length (List.filter (fun m => bool_decide (meld_type m = chow)) escaleraMelds)
  /\ exists s, (c ← chowsOfSuit s escaleraMelds; value <$> meld_tiles c)
               ≡ₚ Some <$> [1; 2; 3; 4; 5; 6; 7; 8; 9]%Z.
Proof. apply isEscalera_ranks. vm_compute. reflexivity. Defined.

(** ** After a kong *)

Lemma hand_ids_NoDup (g : GameState) (i : nat) (p : Player) :
  tilesAccounted g -> players g !! i = Some p -> NoDup (idsOf (hand p)).
Proof.
  intros Hacc Hp. apply tilesAccounted_NoDup in Hacc. unfold allIds in Hacc.
  apply NoDup_app in Hacc as (_ & _ & Hacc). apply NoDup_app in Hacc as (_ & _ & Hacc).
  apply NoDup_app in Hacc as (_ & _ & Hacc).
  destruct (players_insert_ids _ _ _ Hp) as (others & Hperm & _).
  rewrite Hperm in Hacc. apply NoDup_app in Hacc as (Hacc & _).
  unfold playerIds in Hacc. by apply NoDup_app in Hacc as (Hacc & _).
Qed.

Lemma kong_holder_rejected (gs : GameState) (claim : ClaimAction) (p : Player) (m : Meld) :
  reachable gs -> findPlayer gs (claim_playerId claim) = Some p ->
  m ∈ melds p -> meld_type m = kong -> claim_type claim = claim_win ->
  isValidClaim gs claim = Ok false.
Proof.
  intros Hreach Hp Hm Hkong Hty.
  pose proof (reachable_accounted gs Hreach) as Hacc.
  apply reachable_tidy in Hreach as [Htidy _].
  pose proof Hp as Hin. apply find_elem, list_elem_of_lookup_1 in Hin as [i Hi].
  destruct (tidy_lookup gs i p Htidy Hi) as (_ & _ & Hmelds).
  unfold isValidClaim. rewrite Hp, Hty.
  destruct (lastDiscard gs) as [d|] eqn:Hd; [|done].
  destruct (isWinningHand_Ok (hand p ++ [d]) (melds p) (flowers p)) as [w Hw];
    [by apply claimedMeld_tiles|].
  rewrite Hw. simpl. destruct (isValid w) eqn:Hvalid; [exfalso|done].
  assert (length (meld_tiles m) = 3) as Hthree.
  { eapply (no_kong_in_win (hand p ++ [d])); [| |exact Hw|done|exact Hm].
    - rewrite idsOf_app. apply NoDup_app. split_and!.
      + by eapply hand_ids_NoDup.
      + intros x Hx Hx'. apply list_elem_of_singleton in Hx' as ->.
        apply list_elem_of_fmap in Hx as (t & Hid & Ht).
        eapply hand_pile_ids_disjoint; [exact Hacc|exact Hi|exact Ht| |by symmetry].
        destruct Hacc as [_ Hlast]. by apply Hlast.
      + apply NoDup_singleton.
    - intros m' Hm'. eapply Forall_forall in Hmelds as (_ & _ & Hlen); [|exact Hm'].
      rewrite Hlen. destruct (meld_type m'); lia. }
  eapply Forall_forall in Hmelds as (_ & _ & Hlen); [|exact Hm].
  rewrite Hkong in Hlen. lia.
Qed.

(** X28: A player who has claimed a kong can no longer win on a discard.
    In a reachable state, a win claim of a player with a kong among the
    melds is always rejected: with the four tiles of the kong, either the
    count of seventeen fails or the hand is one tile short of the trios and
    the pair that [checkStandardWin] looks for. *)
Theorem kong_holder_cannot_win (gs : GameState) (claim : ClaimAction) (p : Player)
    (m : Meld) :
  reachable gs -> findPlayer gs (claim_playerId claim) = Some p ->
  m ∈ melds p -> meld_type m = kong -> claim_type claim = claim_win ->
  processClaim gs claim = Ok (gs, false).
Proof.
  intros Hreach Hp Hm Hkong Hty.
  pose proof (processClaim_by_isValidClaim gs claim) as Hpc.
  by rewrite (kong_holder_rejected gs claim p m) in Hpc.
Qed.

Lemma kong_holder_cannot_win_witness :
  processClaim openingKongDiscarded (mkClaim claim_win "p0")
  = Ok (openingKongDiscarded, false).
Proof.
  eapply (kong_holder_cannot_win openingKongDiscarded (mkClaim claim_win "p0")).
  - apply (reachable_step openingKong); [openingKong_reachable|].
    apply (step_discardTile _ _ 0 (numberTile 16 circles 5)). vm_compute. reflexivity.
  - vm_compute. reflexivity.
  - vm_compute. left.
  - reflexivity.
  - reflexivity.
Defined.

(** ** The value of a hand *)

Lemma tileCounts_perm (h h' : list Tile) :
  h ≡ₚ h' -> (tileCounts h).*2 ≡ₚ (tileCounts h').*2.
Proof.
  intros Hperm. rewrite !tileCounts_keyCounts.
  destruct (keyCounts_spec (tileKey <$> h) [] (NoDup_nil_2)) as (Hnd & Hkeys & Hlook).
  destruct (keyCounts_spec (tileKey <$> h') [] (NoDup_nil_2)) as (Hnd' & Hkeys' & Hlook').
  fold (keyCounts (tileKey <$> h)) in Hnd, Hkeys, Hlook.
  fold (keyCounts (tileKey <$> h')) in Hnd', Hkeys', Hlook'.
  rewrite (counts_by_lookup _ Hnd), (counts_by_lookup _ Hnd').
  assert ((keyCounts (tileKey <$> h)).*1 ≡ₚ (keyCounts (tileKey <$> h')).*1) as Hk.
  { apply NoDup_Permutation; [done..|]. intros k. rewrite Hkeys, Hkeys'.
    by rewrite Hperm. }
  rewrite <- Hk. apply Permutation_refl'. apply list_fmap_ext. intros i k _.
  rewrite Hlook, Hlook'. simpl.
  exact (proj1 (Permutation_count_occ TileKey_eq_dec _ _)
           (fmap_Permutation tileKey _ _ Hperm) k).
Qed.

Lemma count_value_perm (l l' : list nat) :
  l ≡ₚ l' ->
  forall v : Z,
    foldl (fun v count =>
             if (3 <=? count)%nat then (v + 25)%Z
             else if (count =? 2)%nat then (v + 15)%Z else v) v l
    = foldl (fun v count =>
               if (3 <=? count)%nat then (v + 25)%Z
               else if (count =? 2)%nat then (v + 15)%Z else v) v l'.
Proof.
  induction 1 as [|x l l' _ IH|x y l|l l' l'' _ IH1 _ IH2]; intros v.
  - done.
  - cbn [foldl]. apply IH.
  - cbn [foldl]. f_equal.
    destruct (3 <=? x)%nat, (x =? 2)%nat, (3 <=? y)%nat, (y =? 2)%nat; lia.
  - by rewrite IH1, IH2.
Qed.

Lemma undefined_perm (xs ys : list (option Z)) :
  xs ≡ₚ ys ->
  List.filter (fun x => negb (bool_decide (is_Some x))) xs
  = List.filter (fun x => negb (bool_decide (is_Some x))) ys.
Proof.
  induction 1 as [|x l l' _ IH|x y l|l l' l'' _ IH1 _ IH2]; simpl.
  - done.
  - destruct x; simpl; by rewrite IH.
  - by destruct x, y.
  - by rewrite IH1, IH2.
Qed.

Lemma sortNumbers_unique (xs ys : list (option Z)) :
  xs ≡ₚ ys -> sortNumbers xs = sortNumbers ys.
Proof.
  intros Hperm. unfold sortNumbers, sortAsc. rewrite (undefined_perm _ _ Hperm). f_equal.
  f_equal.
  assert (Transitive Z.le) by (intros x y z; lia).
  assert (AntiSymm (=) Z.le) by (intros x y; lia).
  assert (Total Z.le) by (intros x y; lia).
  apply (Sorted_unique Z.le); [by apply Sorted_merge_sort..|].
  rewrite !merge_sort_Permutation. clear -Hperm.
  induction Hperm as [|x l l' _ IH|x y l|l l' l'' _ IH1 _ IH2]; csimpl.
  - done.
  - destruct x; csimpl; [by apply Permutation_skip|done].
  - destruct x, y; csimpl; try done. apply Permutation_swap.
  - by rewrite IH1, IH2.
Qed.

Lemma evaluateSequencePatterns_perm (l l' : list Tile) :
  l ≡ₚ l' -> evaluateSequencePatterns l = evaluateSequencePatterns l'.
Proof.
  intros Hperm. unfold evaluateSequencePatterns.
  rewrite (Permutation_length Hperm).
  by rewrite (sortNumbers_unique (value <$> l) (value <$> l')) by by apply fmap_Permutation.
Qed.

Lemma sortedSuitTiles_perm (s : Suit) (h h' : list Tile) :
  h ≡ₚ h' -> sortedSuitTiles s h ≡ₚ sortedSuitTiles s h'.
Proof.
  intros Hperm. unfold sortedSuitTiles. rewrite !sortBy_perm. by apply filter_perm.
Qed.

(** X29: The value that the agent gives to a hand does not depend on the
    order of its tiles (unlike the verdict of the win detector). *)
Theorem evaluateHandValue_order_independent (h h' : list Tile) (ms : list Meld) :
  h ≡ₚ h' -> evaluateHandValue h ms = evaluateHandValue h' ms.
Proof.
  intros Hperm. unfold evaluateHandValue. cbn [foldl].
  rewrite (count_value_perm _ _ (tileCounts_perm h h' Hperm)).
  rewrite (evaluateSequencePatterns_perm _ _ (sortedSuitTiles_perm circles h h' Hperm)).
  rewrite (evaluateSequencePatterns_perm _ _ (sortedSuitTiles_perm bamboos h h' Hperm)).
  rewrite (evaluateSequencePatterns_perm _ _ (sortedSuitTiles_perm characters h h' Hperm)).
  by rewrite (Permutation_length Hperm).
Qed.

Lemma evaluateHandValue_order_independent_witness :
  evaluateHandValue lowTileLastHand [] = evaluateHandValue lowTileFirstHand [].
Proof.
  apply evaluateHandValue_order_independent.
  apply (bool_decide_unpack _). vm_compute. exact I.
Defined.

(** ** The pung of honor tiles *)

Lemma count_value_shift (l : list nat) (v c : Z) :
  foldl (fun v count =>
           if (3 <=? count)%nat then (v + 25)%Z
           else if (count =? 2)%nat then (v + 15)%Z else v) (v + c)%Z l
  = (foldl (fun v count =>
              if (3 <=? count)%nat then (v + 25)%Z
              else if (count =? 2)%nat then (v + 15)%Z else v) v l + c)%Z.
Proof.
  revert v. induction l as [|n l IH]; intros v; [done|]. cbn [foldl].
  destruct (3 <=? n)%nat; [|destruct (n =? 2)%nat].
  - replace (v + c + 25)%Z with (v + 25 + c)%Z by lia. apply IH.
  - replace (v + c + 15)%Z with (v + 15 + c)%Z by lia. apply IH.
  - apply IH.
Qed.

Lemma bump_other (k k' : TileKey) (n : nat) (m : list (TileKey * nat)) :
  k' <> k -> bump k' ((k, n) :: m) = (k, n) :: bump k' m.
Proof. intros Hne. simpl. rewrite bool_decide_eq_false_2; [done|congruence]. Qed.

Lemma keyCounts_front (k : TileKey) (n : nat) (ks : list TileKey)
    (m : list (TileKey * nat)) :
  k ∉ ks ->
  foldl (fun m k' => bump k' m) ((k, n) :: m) ks
  = (k, n) :: foldl (fun m k' => bump k' m) m ks.
Proof.
  revert m. induction ks as [|k' ks IH]; intros m Hk; [done|]. cbn [foldl].
  rewrite bump_other by (intros ->; apply Hk; left).
  apply IH. intros Hin. apply Hk. by right.
Qed.

(** The counts of a hand that starts with the only two tiles of a key. *)
Lemma tileCounts_pair_front (a b : Tile) (h : list Tile) :
  tileKey b = tileKey a -> (forall t, t ∈ h -> tileKey t <> tileKey a) ->
  (tileCounts ([a; b] ++ h)).*2 = 2 :: (tileCounts h).*2.
Proof.
  intros Hb Hh. rewrite !tileCounts_keyCounts. unfold keyCounts. csimpl. rewrite Hb.
  rewrite bool_decide_eq_true_2 by done.
  rewrite keyCounts_front; [done|].
  intros Hin. apply list_elem_of_fmap in Hin as (t & Hk & Ht). by apply (Hh t Ht).
Qed.

Lemma same_id_same_tile (h : list Tile) (x t : Tile) :
  NoDup (idsOf h) -> x ∈ h -> t ∈ h -> tile_id x = tile_id t -> x = t.
Proof.
  intros Hnd Hx Ht Hid.
  apply list_elem_of_lookup_1 in Hx as [i Hi]. apply list_elem_of_lookup_1 in Ht as [j Hj].
  assert (i = j) as ->; [|congruence].
  apply (NoDup_lookup (idsOf h) i j (tile_id x)); [done|..]; unfold idsOf;
    rewrite list_lookup_fmap; [by rewrite Hi|by rewrite Hj, Hid].
Qed.

Lemma withoutIds_elem (xs h : list Tile) (t : Tile) :
  t ∈ withoutIds xs h -> t ∈ h /\ forall x, x ∈ xs -> tile_id x <> tile_id t.
Proof.
  unfold withoutIds. intros Ht. apply list_elem_of_In, filter_In in Ht as [Ht Hno].
  split; [by apply list_elem_of_In|]. intros x Hx Hid.
  apply negb_true_iff in Hno.
  assert (existsb (fun x0 => sameId x0 t) xs = true); [|congruence].
  apply existsb_exists. exists x. split; [by apply list_elem_of_In|].
  unfold sameId. by apply Nat.eqb_eq.
Qed.

Lemma filter_filter_skip (f g : Tile -> bool) (h : list Tile) :
  (forall t, t ∈ h -> f t = true -> g t = true) ->
  List.filter f (List.filter g h) = List.filter f h.
Proof.
  induction h as [|t h IH]; intros H; simpl; [done|].
  assert (List.filter f (List.filter g h) = List.filter f h) as IH'.
  { apply IH. intros t' Ht'. apply H. by right. }
  destruct (g t) eqn:Hg; simpl.
  - by rewrite IH'.
  - destruct (f t) eqn:Hf; [|done]. rewrite (H t) in Hg; [done|left|done].
Qed.

(** Taking tiles of another suit out of the hand leaves the tiles of a suit
    as they are. *)
Lemma sortedSuitTiles_withoutIds (s : Suit) (xs h : list Tile) :
  NoDup (idsOf h) -> (forall x, x ∈ xs -> x ∈ h /\ suit x <> s) ->
  sortedSuitTiles s (withoutIds xs h) = sortedSuitTiles s h.
Proof.
  intros Hnd Hxs. unfold sortedSuitTiles, withoutIds. f_equal.
  apply filter_filter_skip. intros t Ht Hf.
  apply negb_true_iff. destruct (existsb (fun x => sameId x t) xs) eqn:Hex; [|done].
  apply existsb_exists in Hex as (x & Hx & Hid). apply list_elem_of_In in Hx.
  destruct (Hxs x Hx) as [Hin Hsuit].
  assert (x = t) as ->.
  { apply (same_id_same_tile h); [done..|]. unfold sameId in Hid. by apply Nat.eqb_eq in Hid. }
  apply andb_true_iff in Hf as [Hf _]. unfold suitIs in Hf.
  by apply bool_decide_eq_true in Hf.
Qed.

Lemma honor_not_numbered (t : Tile) (s : Suit) :
  isHonorSuit (suit t) = true -> isNumberedSuit s = true -> suit t <> s.
Proof. intros Hh Hn Heq. rewrite Heq in Hh. by destruct s. Qed.

(** Melding a pair of honor tiles raises the value of the hand by 25: 30 for
    the meld and 10 for the two tiles less, minus the 15 of the pair. *)
Lemma evaluateHandValue_honor_pair (h : list Tile) (ms : list Meld) (m : Meld) (a b : Tile) :
  NoDup (idsOf h) -> a ∈ h -> b ∈ h -> a <> b ->
  isHonorSuit (suit a) = true -> tileKey b = tileKey a ->
  (forall t, t ∈ h -> tileKey t = tileKey a -> t = a \/ t = b) ->
  evaluateHandValue (withoutIds [a; b] h) (ms ++ [m]) = (evaluateHandValue h ms + 25)%Z.
Proof.
  intros Hnd Ha Hb Hab Hhonor Hkey Honly.
  assert (isHonorSuit (suit b) = true) as Hhonor'.
  { assert (suit b = suit a) as -> by by injection Hkey. done. }
  assert (h ≡ₚ [a; b] ++ withoutIds [a; b] h) as Hperm.
  { apply withoutIds_perm; [done| |].
    - apply NoDup_cons. split; [|apply NoDup_singleton].
      intros Hin. by apply list_elem_of_singleton in Hin.
    - intros x Hx. apply elem_of_cons in Hx as [->|Hx]; [done|].
      by apply list_elem_of_singleton in Hx as ->. }
  assert (forall t, t ∈ withoutIds [a; b] h -> tileKey t <> tileKey a) as Hrest.
  { intros t Ht Hk. apply withoutIds_elem in Ht as [Ht Hids].
    destruct (Honly t Ht Hk) as [->| ->].
    - by apply (Hids a); [left|].
    - by apply (Hids b); [right; left|]. }
  assert (forall s, isNumberedSuit s = true ->
            sortedSuitTiles s (withoutIds [a; b] h) = sortedSuitTiles s h) as Hsuit.
  { intros s Hs. apply sortedSuitTiles_withoutIds; [done|].
    intros x Hx. apply elem_of_cons in Hx as [->|Hx].
    - split; [done|by apply honor_not_numbered].
    - apply list_elem_of_singleton in Hx as ->. split; [done|by apply honor_not_numbered]. }
  unfold evaluateHandValue. cbn [foldl].
  rewrite !Hsuit by done.
  rewrite (count_value_perm _ _ (tileCounts_perm _ _ Hperm)).
  rewrite (tileCounts_pair_front a b _ Hkey Hrest). cbn [foldl]. simpl (3 <=? 2)%nat.
  simpl (2 =? 2)%nat. cbv iota.
  rewrite length_app. simpl (length [m]).
  replace (0 + Z.of_nat (length ms + 1) * 30)%Z
    with (0 + Z.of_nat (length ms) * 30 + 15 + 15)%Z by lia.
  rewrite count_value_shift.
  rewrite (Permutation_length Hperm). simpl (length ([a; b] ++ _)).
  lia.
Qed.

Lemma shouldClaim_honor_pung (d : Difficulty) (gs : GameState) (player : Player)
    (dt : Tile) (ty : string) :
  findPlayer gs (player_id player) = Some player -> lastDiscard gs = Some dt ->
  checkForWin player (Some dt) = Ok (false, ty) ->
  isHonorSuit (suit dt) = true -> plainTile dt -> Forall plainTile (hand player) ->
  NoDup (idsOf (hand player)) -> length (matchingInHand player dt) = 2 ->
  shouldClaim d player dt gs = Ok (Some (mkClaim claim_pung (player_id player))).
Proof.
  intros Hp Hd Hwin Hhonor [Hfd Hsd] Hplain Hnd Hlen.
  assert (isValidClaim gs (mkClaim claim_pung (player_id player)) = Ok true) as Hvalid.
  { unfold isValidClaim. cbn [claim_playerId claim_type]. rewrite Hp, Hd.
    fold (matchingInHand player dt). by rewrite Hlen. }
  unfold shouldClaim. rewrite Hwin. cbn [mbind res_bind].
  fold (matchingInHand player dt). rewrite Hlen.
  change (3 <=? 2) with false. change (2 <=? 2) with true. cbv iota.
  cbn [mbind res_bind]. cbv iota. rewrite Hvalid. cbn [mbind res_bind]. cbv iota.
  pose proof (take_matching_sublist 2 player dt) as Hsub.
  pose proof (take_matching_matches 2 player dt) as Hmatch.
  rewrite take_ge in * by lia.
  destruct (matchingInHand player dt) as [|a [|b [|]]] eqn:Hm; try done.
  assert (a ∈ hand player /\ b ∈ hand player) as [Ha Hb].
  { split; eapply elem_of_submseteq; try (apply sublist_submseteq, Hsub);
      [left|right; left]. }
  assert (tilesMatch a dt = true) as Hma by (apply Hmatch; left).
  assert (tilesMatch b dt = true) as Hmb by (apply Hmatch; right; left).
  assert (forall t, t ∈ hand player -> plainTile t) as Hpl
    by (intros t Ht; by eapply Forall_forall in Hplain).
  assert (forall t, t ∈ hand player ->
            (tilesMatch t dt = true <-> tileKey t = tileKey dt)) as Hkeys.
  { intros t Ht. destruct (Hpl t Ht). by apply tileKey_matches. }
  rewrite evaluateHandValue_honor_pair.
  - assert ((evaluateHandValue (hand player) (melds player) + 15
             <? evaluateHandValue (hand player) (melds player) + 25)%Z = true) as ->
      by (apply Z.ltb_lt; lia).
    done.
  - done.
  - done.
  - done.
  - intros ->. apply (fmap_sublist tile_id) in Hsub.
    eapply sublist_NoDup in Hsub; [|exact Hnd]. csimpl in Hsub.
    apply NoDup_cons in Hsub as [Hin _]. apply Hin. left.
  - apply Hkeys in Hma; [|done]. unfold tileKey in Hma. injection Hma as -> _ _ _. done.
  - apply Hkeys in Hma, Hmb; [congruence|done..].
  - intros t Ht Hk. assert (t ∈ matchingInHand player dt) as Hin.
    { unfold matchingInHand. apply list_elem_of_In, filter_In.
      split; [by apply list_elem_of_In|]. apply Hkeys; [done|].
      apply Hkeys in Hma; [congruence|done]. }
    rewrite Hm in Hin. apply elem_of_cons in Hin as [->|Hin]; [by left|].
    apply list_elem_of_singleton in Hin as ->. by right.
Qed.

(** X30: The agent always takes a pung of winds or dragons.  When the
    agent's player cannot win on the open discard, the discard is a wind or
    a dragon and the hand (plain tiles with distinct instance ids) holds
    exactly two tiles that match it, the decision in the draw phase is the
    pung claim, at every difficulty: melding the pair raises the value of
    the hand by 25, above the threshold of 15. *)
Theorem agent_takes_honor_pung (d : Difficulty) (gs : GameState) (pid : string)
    (player : Player) (dt : Tile) (ty : string) :
  findPlayer gs pid = Some player -> lastDiscard gs = Some dt -> phase gs = draw ->
  checkForWin player (Some dt) = Ok (false, ty) ->
  isHonorSuit (suit dt) = true -> plainTile dt -> Forall plainTile (hand player) ->
  NoDup (idsOf (hand player)) -> length (matchingInHand player dt) = 2 ->
  makeDecision d gs pid
  = Ok (mkDecision action_claim None (Some (mkClaim claim_pung pid))).
Proof.
  intros Hp Hd Hph Hwin Hhonor Hdt Hplain Hnd Hlen.
  pose proof (findPlayer_id gs pid player Hp) as Hid.
  unfold makeDecision. rewrite Hp, Hd, Hwin, Hph. cbn [mbind res_bind]. cbv iota.
  rewrite (shouldClaim_honor_pung d gs player dt ty); try done; [|by rewrite Hid].
  cbn [mbind res_bind]. cbv iota. by rewrite Hid.
Qed.

Lemma agent_takes_honor_pung_witness :
  makeDecision easy eastPungGame "p1"
  = Ok (mkDecision action_claim None (Some (mkClaim claim_pung "p1"))).
Proof.
  eapply (agent_takes_honor_pung easy eastPungGame "p1").
  - vm_compute. reflexivity.
  - reflexivity.
  - reflexivity.
  - vm_compute. reflexivity.
  - reflexivity.
  - by split.
  - repeat constructor.
  - apply (bool_decide_unpack _). vm_compute. exact I.
  - vm_compute. reflexivity.
Defined.
